(** * poll: deadline-aware, readiness-driven Read/Write on Unix descriptors

    A shallow embedding of the Go package [poll] (poll.go together with its
    two readiness backends, epoll and select) and the proofs of the
    properties its specification states about it.

    The package is concurrent.  The embedding is a sequential state machine
    over a [World]: the one [File] under study, the wall clock, the runtime
    timers, the interest sets and registry of the backend, and two scripts
    that stand for everything outside the calling goroutine:
    - [kern], what the kernel answers to the successive non-blocking
      read/write system calls;
    - [env], what the other goroutines (Close, the deadline setters, timer
      handlers, the backend loop) do while the caller sleeps in
      [cond.Wait], one batch per sleep.
    The flags [closed] and [timeout] are only written with the direction's
    [cond.L] held, so a goroutine that holds it can observe a change only
    across [cond.Wait]: interleaving the others at the sleeps is exact for
    them. *)

From Stdlib Require Import ZArith List Bool String Lia.
From stdpp Require Import gmap list.

Local Open Scope Z_scope.

(** ** Errors *)

(** Modelled from the spec: [ErrClosed] and [ErrTimeout] are declared in a
    file of the package that is not part of the sources at hand; the spec
    names them Closed and Timeout, two error values distinct from each
    other and from every other error.  [EOF] and [ErrUnexpectedEOF] are
    [io.EOF] and [io.ErrUnexpectedEOF]; [Errno e] is [syscall.Errno(e)], the
    only kind of error a raw system call returns. *)
Inductive error : Type :=
| ErrClosed
| ErrTimeout
| EOF
| ErrUnexpectedEOF
| Errno (e : Z).

Definition error_eqb (a b : error) : bool :=
  match a, b with
  | ErrClosed, ErrClosed => true
  | ErrTimeout, ErrTimeout => true
  | EOF, EOF => true
  | ErrUnexpectedEOF, ErrUnexpectedEOF => true
  | Errno x, Errno y => x =? y
  | _, _ => false
  end.

(** [syscall.EAGAIN] (0xb on Linux; no proof depends on the number). *)
Definition EAGAIN : error := Errno 11.

Definition byte : Type := Z.

(** [len(p)] as a Go [int]. *)
Definition len (p : list byte) : Z := Z.of_nat (length p).

(** ** Data model *)

(** [sync.Cond] over its own mutex [L]: [L] says whether the mutex is held,
    [notify] counts the broadcasts so far (the ticket counter of the
    runtime's notify list). *)
Record Cond : Type := mkCond {
  L : bool;
  notify : nat
}.

(** [time.Time] is an integer count of nanoseconds from the zero Time. *)
Definition Time : Type := Z.

Definition IsZero (t : Time) : bool := t =? 0.
Definition After (t u : Time) : bool := u <? t.

Definition maxDuration : Z := 2 ^ 63 - 1.
Definition minDuration : Z := - 2 ^ 63.

(** [t.Sub(u)]: the difference as a Duration (an int64), saturated. *)
Definition Sub (t u : Time) : Z :=
  let d := t - u in
  if maxDuration <? d then maxDuration
  else if d <? minDuration then minDuration
  else d.

(** [fdCtl]: the control fields of one direction.  [m] is the [sync.Mutex]
    (held or not), [timer] points into the runtime's timers. *)
Record fdCtl : Type := mkFdCtl {
  m : bool;
  cond : Cond;
  deadline : Time;
  timer : option nat;
  timeout : bool
}.

(** [File].  A [closeF] is represented by the error it returns. *)
Record File : Type := mkFile {
  closed : bool;
  fd : Z;
  name : string;
  closeF : option (option error);
  r : fdCtl;
  w : fdCtl
}.

(** A runtime timer made by [time.AfterFunc(d, func() { f.timerEvent(write) })]:
    the direction its closure captured, the duration it was last armed
    with, the clock reading at that moment, and whether it is pending. *)
Record Timer : Type := mkTimer {
  tm_write : bool;
  tm_d : Z;
  tm_armed : Time;
  tm_live : bool
}.

(** What the kernel does with one non-blocking read or write: transfer at
    most [k] bytes (never more than the buffer holds), or fail. *)
Inductive kresp : Type :=
| Xfer (k : nat)
| Fail (e : Z).

(** What another goroutine may do while the caller sleeps. *)
Inductive action : Type :=
| ATick (d : nat)
| AClose
| ASetDeadline (t : Time)
| ASetReadDeadline (t : Time)
| ASetWriteDeadline (t : Time)
| ALock
| AUnlock
| ATimerFire (id : nat)
| ATimerEvent (write : bool)
| AReady (write : bool).

(** Ghost record of a system call: the flags and the lock of the direction
    as they were when the call was issued. *)
Record snapshot : Type := mkSnap {
  snap_closed : bool;
  snap_timeout : bool;
  snap_locked : bool
}.

Inductive event : Type :=
| EvSyscall (write : bool) (buf : list byte) (n : Z) (err : option error)
            (sn : snapshot)
| EvWakeup
| EvCloseF
| EvSysClose (d : Z).

(** The two builds of the package. *)
Inductive backend : Type := EpollBuild | SelectBuild.

(** The state of the process.  [fdm] is the registry: a descriptor number
    that is present maps to the File.  [trace] is most recent first. *)
Record World : Type := mkWorld {
  file : File;
  now : Time;
  timers : list Timer;
  fdTrR : gmap Z unit;
  fdTrW : gmap Z unit;
  fdm : gmap Z unit;
  kern : list kresp;
  kclose : option error;
  env : list (list action);
  trace : list event
}.

(** *** Field updates *)

Definition set_L (b : bool) (c : Cond) : Cond :=
  {| L := b; notify := notify c |}.
Definition set_notify (n : nat) (c : Cond) : Cond :=
  {| L := L c; notify := n |}.

Definition set_m (b : bool) (c : fdCtl) : fdCtl :=
  {| m := b; cond := cond c; deadline := deadline c; timer := timer c;
     timeout := timeout c |}.
Definition set_cond (x : Cond) (c : fdCtl) : fdCtl :=
  {| m := m c; cond := x; deadline := deadline c; timer := timer c;
     timeout := timeout c |}.
Definition set_deadline (t : Time) (c : fdCtl) : fdCtl :=
  {| m := m c; cond := cond c; deadline := t; timer := timer c;
     timeout := timeout c |}.
Definition set_timer (x : option nat) (c : fdCtl) : fdCtl :=
  {| m := m c; cond := cond c; deadline := deadline c; timer := x;
     timeout := timeout c |}.
Definition set_timeout (b : bool) (c : fdCtl) : fdCtl :=
  {| m := m c; cond := cond c; deadline := deadline c; timer := timer c;
     timeout := b |}.

Definition set_closed (b : bool) (f : File) : File :=
  {| closed := b; fd := fd f; name := name f; closeF := closeF f;
     r := r f; w := w f |}.
Definition set_closeF (c : option (option error)) (f : File) : File :=
  {| closed := closed f; fd := fd f; name := name f; closeF := c;
     r := r f; w := w f |}.

(** [&f.r] or [&f.w]. *)
Definition fdc (write : bool) (f : File) : fdCtl :=
  if write then w f else r f.
Definition set_fdc (write : bool) (c : fdCtl) (f : File) : File :=
  if write
  then {| closed := closed f; fd := fd f; name := name f;
          closeF := closeF f; r := r f; w := c |}
  else {| closed := closed f; fd := fd f; name := name f;
          closeF := closeF f; r := c; w := w f |}.

Definition set_file (f : File) (s : World) : World :=
  {| file := f; now := now s; timers := timers s; fdTrR := fdTrR s;
     fdTrW := fdTrW s; fdm := fdm s; kern := kern s; kclose := kclose s;
     env := env s; trace := trace s |}.
Definition set_now (t : Time) (s : World) : World :=
  {| file := file s; now := t; timers := timers s; fdTrR := fdTrR s;
     fdTrW := fdTrW s; fdm := fdm s; kern := kern s; kclose := kclose s;
     env := env s; trace := trace s |}.
Definition set_timers (l : list Timer) (s : World) : World :=
  {| file := file s; now := now s; timers := l; fdTrR := fdTrR s;
     fdTrW := fdTrW s; fdm := fdm s; kern := kern s; kclose := kclose s;
     env := env s; trace := trace s |}.
Definition set_fdTrR (x : gmap Z unit) (s : World) : World :=
  {| file := file s; now := now s; timers := timers s; fdTrR := x;
     fdTrW := fdTrW s; fdm := fdm s; kern := kern s; kclose := kclose s;
     env := env s; trace := trace s |}.
Definition set_fdTrW (x : gmap Z unit) (s : World) : World :=
  {| file := file s; now := now s; timers := timers s; fdTrR := fdTrR s;
     fdTrW := x; fdm := fdm s; kern := kern s; kclose := kclose s;
     env := env s; trace := trace s |}.
Definition set_fdm (x : gmap Z unit) (s : World) : World :=
  {| file := file s; now := now s; timers := timers s; fdTrR := fdTrR s;
     fdTrW := fdTrW s; fdm := x; kern := kern s; kclose := kclose s;
     env := env s; trace := trace s |}.
Definition set_kern (x : list kresp) (s : World) : World :=
  {| file := file s; now := now s; timers := timers s; fdTrR := fdTrR s;
     fdTrW := fdTrW s; fdm := fdm s; kern := x; kclose := kclose s;
     env := env s; trace := trace s |}.
Definition set_env (x : list (list action)) (s : World) : World :=
  {| file := file s; now := now s; timers := timers s; fdTrR := fdTrR s;
     fdTrW := fdTrW s; fdm := fdm s; kern := kern s; kclose := kclose s;
     env := x; trace := trace s |}.
Definition log (e : event) (s : World) : World :=
  {| file := file s; now := now s; timers := timers s; fdTrR := fdTrR s;
     fdTrW := fdTrW s; fdm := fdm s; kern := kern s; kclose := kclose s;
     env := env s; trace := e :: trace s |}.

(** Update of one direction's control block in the World. *)
Definition upd_fdc (write : bool) (g : fdCtl -> fdCtl) (s : World) : World :=
  set_file (set_fdc write (g (fdc write (file s))) (file s)) s.

(** ** The monad of the embedding

    A call returns a value and a new World ([Ret]), never gets past a lock
    or a sleep ([Blocked]), or crashes the process ([Panic]).  [NoFuel] is
    the embedding's own: a loop ran out of its iteration budget. *)
Inductive outcome (A : Type) : Type :=
| Ret (a : A) (s : World)
| Blocked (s : World)
| Panic (s : World)
| NoFuel (s : World).
Arguments Ret {A} a s.
Arguments Blocked {A} s.
Arguments Panic {A} s.
Arguments NoFuel {A} s.

Definition M (A : Type) : Type := World -> outcome A.

Definition ret {A : Type} (a : A) : M A := fun s => Ret a s.

Definition bind {A B : Type} (c : M A) (k : A -> M B) : M B :=
  fun s =>
    match c s with
    | Ret a s' => k a s'
    | Blocked s' => Blocked s'
    | Panic s' => Panic s'
    | NoFuel s' => NoFuel s'
    end.

Declare Scope poll_scope.
Delimit Scope poll_scope with poll.
Notation "x <- c ;; k" := (bind c (fun x => k))
  (at level 100, c at next level, right associativity) : poll_scope.
Notation "c ;;; k" := (bind c (fun _ => k))
  (at level 100, right associativity) : poll_scope.
Local Open Scope poll_scope.

Definition get : M World := fun s => Ret s s.
Definition modify (g : World -> World) : M unit := fun s => Ret tt (g s).

(** The last World a computation reached, whatever its outcome. *)
Definition final {A : Type} (o : outcome A) : World :=
  match o with
  | Ret _ s | Blocked s | Panic s | NoFuel s => s
  end.

(** ** Mutexes, condition variables, timers *)

(** [fdc.cond.L.Lock()]: a goroutine that finds the mutex held never gets
    past it in a sequential run. *)
Definition condL_Lock (write : bool) : M unit :=
  fun s =>
    if L (cond (fdc write (file s))) then Blocked s
    else Ret tt (upd_fdc write (fun c => set_cond (set_L true (cond c)) c) s).

(** [fdc.cond.L.Unlock()]: unlocking a mutex that is not locked is a fatal
    error of the runtime. *)
Definition condL_Unlock (write : bool) : M unit :=
  fun s =>
    if L (cond (fdc write (file s)))
    then Ret tt (upd_fdc write (fun c => set_cond (set_L false (cond c)) c) s)
    else Panic s.

(** [fdc.m.Lock()] and [fdc.m.Unlock()]. *)
Definition m_Lock (write : bool) : M unit :=
  fun s =>
    if m (fdc write (file s)) then Blocked s
    else Ret tt (upd_fdc write (set_m true) s).

Definition m_Unlock (write : bool) : M unit :=
  fun s =>
    if m (fdc write (file s)) then Ret tt (upd_fdc write (set_m false) s)
    else Panic s.

(** [fdc.cond.Broadcast()]. *)
Definition Broadcast (write : bool) : M unit :=
  modify (upd_fdc write
            (fun c => set_cond (set_notify (S (notify (cond c))) (cond c)) c)).

(** [time.AfterFunc(d, func() { f.timerEvent(write) })]: a new pending
    timer; the result is the pointer to it. *)
Definition AfterFunc (d : Z) (write : bool) : M nat :=
  fun s =>
    Ret (length (timers s))
        (set_timers (timers s ++ [mkTimer write d (now s) true]) s).

Definition stopped (t : Timer) : Timer :=
  mkTimer (tm_write t) (tm_d t) (tm_armed t) false.

Definition rearmed (d : Z) (at_ : Time) (t : Timer) : Timer :=
  mkTimer (tm_write t) d at_ true.

(** [t.Stop()]. *)
Definition timer_Stop (id : nat) : M unit :=
  modify (fun s => set_timers (alter stopped id (timers s)) s).

(** [t.Reset(d)]. *)
Definition timer_Reset (id : nat) (d : Z) : M unit :=
  modify (fun s => set_timers (alter (rearmed d (now s)) id (timers s)) s).

(** ** The select backend's descriptor sets *)

(** The width of [int] and [uint]: [unsafe.Sizeof(0) * 8]. *)
Inductive arch : Type := Arch32 | Arch64.

Definition FD_BITS (a : arch) : Z :=
  match a with Arch32 => 32 | Arch64 => 64 end.

Definition FD_SETSIZE : Z := 1024.

(** Conversion to [uint] and to [int]: wrap-around at [FD_BITS]. *)
Definition to_uint (a : arch) (x : Z) : Z := x mod 2 ^ FD_BITS a.

Definition to_int (a : arch) (x : Z) : Z :=
  let u := x mod 2 ^ FD_BITS a in
  if u <? 2 ^ (FD_BITS a - 1) then u else u - 2 ^ FD_BITS a.

(** [type FdSet struct { bits [FD_SETSIZE / FD_BITS]int }]. *)
Record FdSet : Type := mkFdSet { bits : list Z }.

(** The length of the array [bits], a constant of its type. *)
Definition nwords (a : arch) : Z := FD_SETSIZE / FD_BITS a.

(** [&FdSet{}]. *)
Definition FdSet_zero (a : arch) : FdSet :=
  mkFdSet (replicate (Z.to_nat (nwords a)) 0).

Definition Reset (fds : FdSet) : FdSet :=
  mkFdSet (replicate (length (bits fds)) 0).

(** [mask := uint(1) << (uint(fd) % uint(FD_BITS))]. *)
Definition mask (a : arch) (d : Z) : Z :=
  to_uint a (Z.shiftl (to_uint a 1)
                      (to_uint a d mod to_uint a (FD_BITS a))).

(** The index expression [fd/FD_BITS] with the bounds check every array
    access of Go carries: [None] is the run-time panic.  Go's division
    truncates toward zero. *)
Definition index (a : arch) (d : Z) : option nat :=
  let i := Z.quot d (FD_BITS a) in
  if (0 <=? i) && (i <? nwords a) then Some (Z.to_nat i) else None.

Definition word (fds : FdSet) (i : nat) : Z := default 0 (bits fds !! i).

(** [fds.bits[fd/FD_BITS] |= int(mask)]. *)
Definition Set_ (a : arch) (fds : FdSet) (d : Z) : option FdSet :=
  match index a d with
  | None => None
  | Some i =>
      Some (mkFdSet (<[i := Z.lor (word fds i) (to_int a (mask a d))]>
                       (bits fds)))
  end.

(** [fds.bits[fd/FD_BITS] &^= int(mask)]. *)
Definition UnSet (a : arch) (fds : FdSet) (d : Z) : option FdSet :=
  match index a d with
  | None => None
  | Some i =>
      Some (mkFdSet (<[i := Z.ldiff (word fds i) (to_int a (mask a d))]>
                       (bits fds)))
  end.

(** [(fds.bits[fd/FD_BITS] & int(mask)) != 0]. *)
Definition IsSet (a : arch) (fds : FdSet) (d : Z) : option bool :=
  match index a d with
  | None => None
  | Some i =>
      Some (negb (Z.land (word fds i) (to_int a (mask a d)) =? 0))
  end.

(** ** The readiness backends

    Each function of a backend runs from [Lock] to [Unlock] of the
    backend's own mutex ([fdTrLock], [fdmLock]) without sleeping in
    between, so it is one atomic step here. *)

Module EpollB.

(** Not needed in the epoll loop. *)
Definition startTrack (d : Z) (write : bool) : M unit := ret tt.
Definition stopTrack (d : Z) (write : bool) : M unit := ret tt.

(** [fdm[f.fd] = f], then [EpollCtl(EPOLL_CTL_ADD)], whose result is
    [ctl]. *)
Definition register (ctl : option error) : M (option error) :=
  modify (fun s => set_fdm (<[fd (file s) := tt]> (fdm s)) s) ;;;
  ret ctl.

(** [delete(fdm, f.fd)], then [EpollCtl(EPOLL_CTL_DEL)]; the only caller,
    [Close], drops the error. *)
Definition unregister : M unit :=
  modify (fun s => set_fdm (delete (fd (file s)) (fdm s)) s).

(** [epollEv(ev, write)] for an event on the File's descriptor. *)
Definition epollEv (write : bool) : M unit :=
  s <- get ;;
  match fdm s !! fd (file s) with
  | None => ret tt
  | Some _ =>
      condL_Lock write ;;; Broadcast write ;;; condL_Unlock write
  end.

End EpollB.

Module SelectB.

(** [wakeupW.Write([]byte{0})]. *)
Definition wakeup : M unit := modify (log EvWakeup).

Definition startTrack (d : Z) (write : bool) : M unit :=
  s <- get ;;
  last <- (if write
           then modify (set_fdTrW (<[d := tt]> (fdTrW s))) ;;;
                ret (bool_decide (is_Some (fdTrW s !! d)))
           else modify (set_fdTrR (<[d := tt]> (fdTrR s))) ;;;
                ret (bool_decide (is_Some (fdTrR s !! d)))) ;;
  if negb last then wakeup else ret tt.

Definition stopTrack (d : Z) (write : bool) : M unit :=
  s <- get ;;
  last <- (if write
           then modify (set_fdTrW (delete d (fdTrW s))) ;;;
                ret (bool_decide (is_Some (fdTrW s !! d)))
           else modify (set_fdTrR (delete d (fdTrR s))) ;;;
                ret (bool_decide (is_Some (fdTrR s !! d)))) ;;
  if last then wakeup else ret tt.

Definition register : M (option error) :=
  modify (fun s => set_fdm (<[fd (file s) := tt]> (fdm s)) s) ;;;
  ret None.

Definition unregister : M unit :=
  modify (fun s => set_fdm (delete (fd (file s)) (fdm s)) s).

(** What [evLoop] does for the File's descriptor when [Select] reports
    it ready in one direction.  The test is on the set [Select] filled,
    which was built from the interest set before [Select] blocked: by
    now the descriptor may have left the interest set, and [delete] is
    then a no-op. *)
Definition evReady (write : bool) : M unit :=
  s <- get ;;
  let x := fd (file s) in
  (if write then modify (set_fdTrW (delete x (fdTrW s)))
   else modify (set_fdTrR (delete x (fdTrR s)))) ;;;
  match fdm s !! x with
  | None => ret tt
  | Some _ =>
      condL_Lock write ;;; Broadcast write ;;; condL_Unlock write
  end.

(** The head of [evLoop]'s turn: both sets are cleared and filled again
    from the interest sets, and [topFd] is the largest descriptor seen.
    [None] is the panic of a [Set] out of range.  Go visits the keys of a
    map in no fixed order; here it is the order of [map_to_list]. *)
Fixpoint set_each (a : arch) (fds : FdSet) (topFd : Z) (ks : list Z)
  : option (FdSet * Z) :=
  match ks with
  | [] => Some (fds, topFd)
  | k :: ks' =>
      match Set_ a fds k with
      | None => None
      | Some fds' => set_each a fds' (if topFd <? k then k else topFd) ks'
      end
  end.

Definition evLoop_sets (a : arch) (wupFd : Z) (fdR fdW : FdSet) (s : World)
  : option (FdSet * FdSet * Z) :=
  match Set_ a (Reset fdR) wupFd with
  | None => None
  | Some r0 =>
      match set_each a r0 wupFd (map_to_list (fdTrR s)).*1 with
      | None => None
      | Some (r1, top1) =>
          match set_each a (Reset fdW) top1 (map_to_list (fdTrW s)).*1 with
          | None => None
          | Some (w1, top2) => Some (r1, w1, top2)
          end
      end
  end.

End SelectB.

Definition startTrack (bk : backend) (d : Z) (write : bool) : M unit :=
  match bk with
  | EpollBuild => EpollB.startTrack d write
  | SelectBuild => SelectB.startTrack d write
  end.

Definition stopTrack (bk : backend) (d : Z) (write : bool) : M unit :=
  match bk with
  | EpollBuild => EpollB.stopTrack d write
  | SelectBuild => SelectB.stopTrack d write
  end.

Definition register (bk : backend) (ctl : option error) : M (option error) :=
  match bk with
  | EpollBuild => EpollB.register ctl
  | SelectBuild => SelectB.register
  end.

Definition unregister (bk : backend) : M unit :=
  match bk with
  | EpollBuild => EpollB.unregister
  | SelectBuild => SelectB.unregister
  end.

(** The backend loop finds the File's descriptor ready. *)
Definition evReady (bk : backend) (write : bool) : M unit :=
  match bk with
  | EpollBuild => EpollB.epollEv write
  | SelectBuild => SelectB.evReady write
  end.

(** ** The File *)

Definition fdCtl0 : fdCtl := mkFdCtl false (mkCond false 0) 0 None false.

(** [NewFile(fd, name)]; [nonblock] is the result of [syscall.SetNonblock]
    and [ctl] that of the backend's registration.  The new File takes the
    World's slot. *)
Definition NewFile (bk : backend) (d : Z) (nm : string)
    (nonblock ctl : option error) : M (option error) :=
  match nonblock with
  | Some e => ret (Some e)
  | None =>
      modify (set_file (mkFile false d nm None fdCtl0 fdCtl0)) ;;;
      register bk ctl
  end.

(** [NewFromFile(of)], with [ofClose] the result of [of.Close]. *)
Definition NewFromFile (bk : backend) (d : Z) (nm : string)
    (ofClose : option error) (nonblock ctl : option error)
  : M (option error) :=
  e <- NewFile bk d nm nonblock ctl ;;
  match e with
  | Some err => ret (Some err)
  | None =>
      modify (fun s => set_file (set_closeF (Some ofClose) (file s)) s) ;;;
      ret None
  end.

Definition timerEvent (write : bool) : M unit :=
  condL_Lock write ;;;
  s <- get ;;
  (let f := file s in
   let c := fdc write f in
   if negb (closed f) && negb (timeout c) &&
      negb (IsZero (deadline c)) && negb (After (deadline c) (now s))
   then modify (upd_fdc write (set_timeout true)) ;;; Broadcast write
   else ret tt) ;;;
  condL_Unlock write.

Definition setDeadline (write : bool) (t : Time) : M (option error) :=
  condL_Lock write ;;;
  s <- get ;;
  if closed (file s)
  then condL_Unlock write ;;; ret (Some ErrClosed)
  else
    modify (upd_fdc write (set_deadline t)) ;;;
    modify (upd_fdc write (set_timeout false)) ;;;
    (if IsZero t
     then match timer (fdc write (file s)) with
          | Some id => timer_Stop id
          | None => ret tt
          end
     else let d := Sub t (now s) in
          match timer (fdc write (file s)) with
          | None =>
              id <- AfterFunc d write ;;
              modify (upd_fdc write (set_timer (Some id)))
          | Some id => timer_Stop id ;;; timer_Reset id d
          end) ;;;
    condL_Unlock write ;;;
    ret None.

Definition SetReadDeadline (t : Time) : M (option error) :=
  setDeadline false t.

Definition SetWriteDeadline (t : Time) : M (option error) :=
  setDeadline true t.

Definition SetDeadline (t : Time) : M (option error) :=
  e <- SetReadDeadline t ;;
  match e with
  | Some err => ret (Some err)
  | None => SetWriteDeadline t
  end.

Definition Lock : M (option error) :=
  condL_Lock false ;;;
  condL_Lock true ;;;
  s <- get ;;
  if closed (file s)
  then condL_Unlock true ;;; condL_Unlock false ;;; ret (Some ErrClosed)
  else ret None.

Definition Unlock : M unit :=
  condL_Unlock true ;;; condL_Unlock false.

Definition stop_timer (write : bool) : M unit :=
  s <- get ;;
  match timer (fdc write (file s)) with
  | Some id => timer_Stop id
  | None => ret tt
  end.

Definition Close (bk : backend) : M (option error) :=
  e <- Lock ;;
  match e with
  | Some err => ret (Some err)
  | None =>
      (* the deferred f.Unlock() runs after the body *)
      res <- (s <- get ;;
              if closed (file s) then ret (Some ErrClosed)
              else
                modify (fun s => set_file (set_closed true (file s)) s) ;;;
                unregister bk ;;;
                stop_timer false ;;;
                stop_timer true ;;;
                Broadcast false ;;;
                Broadcast true ;;;
                match closeF (file s) with
                | Some e => modify (log EvCloseF) ;;; ret e
                | None =>
                    modify (log (EvSysClose (fd (file s)))) ;;;
                    ret (kclose s)
                end) ;;
      Unlock ;;;
      ret res
  end.

(** ** The other goroutines *)

(** The runtime finds timer [id] pending and due, and runs its function. *)
Definition timer_fire (id : nat) : M unit :=
  s <- get ;;
  match timers s !! id with
  | Some t =>
      if tm_live t && (tm_armed t + tm_d t <=? now s)
      then timer_Stop id ;;; timerEvent (tm_write t)
      else ret tt
  | None => ret tt
  end.

Definition run_action (bk : backend) (a : action) : M unit :=
  match a with
  | ATick d => modify (fun s => set_now (now s + Z.of_nat d) s)
  | AClose => Close bk ;;; ret tt
  | ASetDeadline t => SetDeadline t ;;; ret tt
  | ASetReadDeadline t => SetReadDeadline t ;;; ret tt
  | ASetWriteDeadline t => SetWriteDeadline t ;;; ret tt
  | ALock => Lock ;;; ret tt
  | AUnlock => Unlock
  | ATimerFire id => timer_fire id
  | ATimerEvent write => timerEvent write
  | AReady write => evReady bk write
  end.

Fixpoint run_actions (bk : backend) (l : list action) : M unit :=
  match l with
  | [] => ret tt
  | a :: l' => run_action bk a ;;; run_actions bk l'
  end.

(** [fdc.cond.Wait()]: release [L], sleep until a Broadcast, take [L]
    again.  The next batch of [env] is what happens in between; a sleeper
    that nobody wakes, or that cannot get [L] back, stays there. *)
Definition cond_Wait (bk : backend) (write : bool) : M unit :=
  condL_Unlock write ;;;
  s <- get ;;
  match env s with
  | [] => fun s => Blocked s
  | batch :: rest =>
      modify (set_env rest) ;;;
      run_actions bk batch ;;;
      s' <- get ;;
      if (notify (cond (fdc write (file s'))) =?
          notify (cond (fdc write (file s))))%nat
      then fun s => Blocked s
      else condL_Lock write
  end.

(** ** Read and Write *)

(** The slice expression [p[n:]]; out of range is a run-time panic. *)
Definition slice_from (p : list byte) (n : Z) : option (list byte) :=
  if (0 <=? n) && (n <=? len p) then Some (drop (Z.to_nat n) p) else None.

(** What [syscall.Read] and [syscall.Write] return for a kernel answer. *)
Definition kernel_result (k : kresp) (p : list byte) : Z * option error :=
  match k with
  | Xfer k => (Z.min (Z.of_nat k) (len p), None)
  | Fail e => (-1, Some (Errno e))
  end.

(** [rwfun(f.fd, p)].  Once the script [kern] is over the descriptor is
    never ready again. *)
Definition rwfun (write : bool) (d : Z) (p : list byte)
  : M (Z * option error) :=
  fun s =>
    let res := match kern s with
               | [] => (-1, Some EAGAIN)
               | k :: _ => kernel_result k p
               end in
    let c := fdc write (file s) in
    let sn := mkSnap (closed (file s)) (timeout c) (L (cond c)) in
    Ret res (log (EvSyscall write p (fst res) (snd res) sn)
                 (set_kern (tail (kern s)) s)).

(** The [for] loop of [sysrw]. *)
Fixpoint sysrw_loop (fuel : nat) (bk : backend) (write : bool)
    (p : list byte) (errEOF : error) : M (Z * option error) :=
  match fuel with
  | O => fun s => NoFuel s
  | S fuel' =>
      s <- get ;;
      let f := file s in
      if closed f then ret (0, Some ErrClosed)
      else if timeout (fdc write f) then ret (0, Some ErrTimeout)
      else
        res <- rwfun write (fd f) p ;;
        match snd res with
        | Some err =>
            (* n = 0 *)
            if negb (error_eqb err EAGAIN) then ret (0, Some err)
            else
              startTrack bk (fd f) write ;;;
              cond_Wait bk write ;;;
              s' <- get ;;
              (if closed (file s') || timeout (fdc write (file s'))
               then stopTrack bk (fd f) write
               else ret tt) ;;;
              sysrw_loop fuel' bk write p errEOF
        | None =>
            if (fst res =? 0) && negb (len p =? 0)
            then ret (fst res, Some errEOF)
            else ret (fst res, None)
        end
  end.

(** Every turn of the loop but the last sleeps once, and a sleep uses up a
    batch of [env]. *)
Definition sysrw_fuel (s : World) : nat := S (length (env s)).

Definition sysrw (bk : backend) (write : bool) (p : list byte)
  : M (Z * option error) :=
  let errEOF := if write then ErrUnexpectedEOF else EOF in
  condL_Lock write ;;;
  s <- get ;;
  res <- sysrw_loop (sysrw_fuel s) bk write p errEOF ;;
  (* deferred *)
  condL_Unlock write ;;;
  ret res.

Definition Read (bk : backend) (p : list byte) : M (Z * option error) :=
  m_Lock false ;;;
  res <- sysrw bk false p ;;
  m_Unlock false ;;;
  ret res.

(** Between two calls of [sysrw] a [Write] holds [f.w.m] only: each call
    releases [cond.L] when it returns, and the other goroutines run
    before the next one takes it again.  The next batch of [env], if
    there is one, is what they do then.  What they do before the first
    call or after the last one is a step before or after the [Write]
    itself. *)
Definition Write_gap (bk : backend) : M unit :=
  s <- get ;;
  match env s with
  | [] => ret tt
  | batch :: rest => modify (set_env rest) ;;; run_actions bk batch
  end.

(** The [for n != len(p)] loop of [Write]. *)
Fixpoint Write_loop (fuel : nat) (bk : backend) (p : list byte) (n : Z)
  : M (Z * option error) :=
  match fuel with
  | O => fun s => NoFuel s
  | S fuel' =>
      if negb (n =? len p)
      then match slice_from p n with
           | None => fun s => Panic s
           | Some q =>
               res <- sysrw bk true q ;;
               let n := n + fst res in
               match snd res with
               | Some err => ret (n, Some err)
               | None =>
                   (* back to the test of the loop; what the others do
                      before a further call *)
                   (if negb (n =? len p) then Write_gap bk else ret tt) ;;;
                   Write_loop fuel' bk p n
               end
           end
      else ret (n, None)
  end.

(** [Write]: the loop, under [f.w.m].  A turn that does not end the loop
    moves [n] forward by at least one, so the fuel is never used up. *)
Definition Write (bk : backend) (p : list byte) : M (Z * option error) :=
  m_Lock true ;;;
  res <- Write_loop (S (length p)) bk p 0 ;;
  m_Unlock true ;;;
  ret res.

(** The calls of the package's interface, and their results. *)
Inductive call : Type :=
| CRead (p : list byte)
| CWrite (p : list byte)
| CClose
| CSetDeadline (t : Time)
| CSetReadDeadline (t : Time)
| CSetWriteDeadline (t : Time)
| CLock.

Definition run_call (bk : backend) (c : call) : M (option error) :=
  match c with
  | CRead p => res <- Read bk p ;; ret (snd res)
  | CWrite p => res <- Write bk p ;; ret (snd res)
  | CClose => Close bk
  | CSetDeadline t => SetDeadline t
  | CSetReadDeadline t => SetReadDeadline t
  | CSetWriteDeadline t => SetWriteDeadline t
  | CLock => Lock
  end.

(** *** Concrete worlds *)

(** A process that has not made a File yet. *)
Definition World0 (ks : list kresp) (kc : option error)
    (e : list (list action)) : World :=
  mkWorld (mkFile false 0 EmptyString None fdCtl0 fdCtl0) 0 [] ∅ ∅ ∅
          ks kc e [].

(** The World right after a successful [NewFile(d, "dev")] at clock 100. *)
Definition fresh (bk : backend) (d : Z) (ks : list kresp)
    (e : list (list action)) : World :=
  final (NewFile bk d "dev" None None (set_now 100 (World0 ks None e))).

(** ** The loop of the epoll build *)

Module EpollLoop.

(** The event bits of epoll, as package [syscall] has them on Linux.  No
    proof depends on the numbers. *)
Definition EPOLLIN : Z := 1.
Definition EPOLLOUT : Z := 4.
Definition EPOLLERR : Z := 8.
Definition EPOLLHUP : Z := 16.
Definition EPOLLRDHUP : Z := 8192.

(** [syscall.EpollEvent]: the event bits and the descriptor the event was
    registered with. *)
Record EpollEvent : Type := mkEpollEvent {
  Events : Z;
  Fd : Z
}.

(** [epollEv(ev, write)] for any event.  The registry answers for the
    number [ev.Fd]; an entry under another number than the File's is a
    File the World does not hold, whose waiters are not in it. *)
Definition epollEv (ev : EpollEvent) (write : bool) : M unit :=
  s <- get ;;
  match fdm s !! Fd ev with
  | None => ret tt
  | Some _ =>
      if Fd ev =? fd (file s)
      then condL_Lock write ;;; Broadcast write ;;; condL_Unlock write
      else ret tt
  end.

Definition read_events : Z :=
  Z.lor (Z.lor (Z.lor EPOLLIN EPOLLRDHUP) EPOLLHUP) EPOLLERR.

Definition write_events : Z :=
  Z.lor (Z.lor EPOLLOUT EPOLLHUP) EPOLLERR.

(** The body of the loop over the events [EpollWait] returned, for one
    event. *)
Definition evLoop_event (ev : EpollEvent) : M unit :=
  (if negb (Z.land (Events ev) read_events =? 0)
   then epollEv ev false else ret tt) ;;;
  (if negb (Z.land (Events ev) write_events =? 0)
   then epollEv ev true else ret tt).

End EpollLoop.

(** ** The loop of the select build, after [Select] *)

Module SelectLoop.

(** [file := getFile(x); if file != nil { lock; Broadcast; unlock }] on
    the direction's condition variable.  An entry of the registry under
    another number than the File's is a File the World does not hold. *)
Definition wake_file (x : Z) (write : bool) : M unit :=
  s <- get ;;
  match fdm s !! x with
  | None => ret tt
  | Some _ =>
      if x =? fd (file s)
      then condL_Lock write ;;; Broadcast write ;;; condL_Unlock write
      else ret tt
  end.

(** The body of [for x := 0; x <= topFd && n > 0; x++]: the two tests of
    descriptor [x], on the sets as [Select] left them.  The result is the
    new [n]. *)
Definition dispatch_fd (a : arch) (fdR fdW : FdSet) (x n : Z) : M Z :=
  n <- match IsSet a fdR x with
       | None => fun s => Panic s
       | Some true =>
           modify (fun s => set_fdTrR (delete x (fdTrR s)) s) ;;;
           wake_file x false ;;;
           ret (n - 1)
       | Some false => ret n
       end ;;
  match IsSet a fdW x with
  | None => fun s => Panic s
  | Some true =>
      modify (fun s => set_fdTrW (delete x (fdTrW s)) s) ;;;
      wake_file x true ;;;
      ret (n - 1)
  | Some false => ret n
  end.

(** The loop, from [x] on. *)
Fixpoint dispatch (fuel : nat) (a : arch) (fdR fdW : FdSet)
    (topFd x n : Z) : M unit :=
  match fuel with
  | O => fun s => NoFuel s
  | S fuel' =>
      if (x <=? topFd) && (0 <? n)
      then n' <- dispatch_fd a fdR fdW x n ;;
           dispatch fuel' a fdR fdW topFd (x + 1) n'
      else ret tt
  end.

(** The rest of a turn of [evLoop] once [Select] has returned [(n, nil)]
    and overwritten the two sets with the ready descriptors: the wakeup
    pipe is accounted for (and drained), then the descriptors from 0 to
    [topFd] are looked at.  The loop makes at most [topFd + 1] turns. *)
Definition after_Select (a : arch) (wupFd topFd : Z) (fdR fdW : FdSet)
    (n : Z) : M unit :=
  n <- match IsSet a fdR wupFd with
       | None => fun s => Panic s
       | Some true => ret (n - 1)
       | Some false => ret n
       end ;;
  dispatch (S (Z.to_nat (topFd + 1))) a fdR fdW topFd 0 n.

End SelectLoop.

(** ** Notions the properties are stated with *)

(** The interest set of a direction. *)
Definition tracked (write : bool) (s : World) : gmap Z unit :=
  if write then fdTrW s else fdTrR s.

(** The number of bytes written to the self-pipe. *)
Definition wakeups (tr : list event) : nat :=
  length (List.filter (fun e => match e with EvWakeup => true | _ => false end)
                      tr).

(** A timer counts for a direction while it is pending and its function
    is that direction's handler. *)
Definition live_for (write : bool) (t : Timer) : bool :=
  Bool.eqb (tm_write t) write && tm_live t.

(** The number of pending timers of a direction. *)
Definition live_timers (write : bool) (s : World) : nat :=
  length (List.filter (live_for write) (timers s)).

(** The timers of the runtime and the pointers of the File agree: every
    timer is the one its direction points to, and a pointer leads to a
    timer of its own direction. *)
Definition timers_wf (s : World) : Prop :=
  (forall id tm, timers s !! id = Some tm ->
                 timer (fdc (tm_write tm) (file s)) = Some id) /\
  (forall write id, timer (fdc write (file s)) = Some id ->
                    exists tm, timers s !! id = Some tm /\ tm_write tm = write).

(** The World an open File is in after [setDeadline(write, t)]. *)
Definition setDeadline_post (write : bool) (t : Time) (s : World) : World :=
  let s1 := upd_fdc write (fun c => set_timeout false (set_deadline t c)) s in
  let d := Sub t (now s) in
  if t =? 0 then
    match timer (fdc write (file s)) with
    | Some id => set_timers (alter stopped id (timers s)) s1
    | None => s1
    end
  else
    match timer (fdc write (file s)) with
    | None =>
        upd_fdc write (set_timer (Some (length (timers s))))
          (set_timers (timers s ++ [mkTimer write d (now s) true]) s1)
    | Some id =>
        set_timers (alter (rearmed d (now s)) id (alter stopped id (timers s)))
                   s1
    end.

Ltac unfold_ops :=
  unfold timerEvent, setDeadline, SetReadDeadline, SetWriteDeadline,
    SetDeadline, Lock, Unlock, stop_timer, condL_Lock, condL_Unlock,
    m_Lock, m_Unlock, Broadcast, AfterFunc, timer_Stop, timer_Reset,
    bind, ret, get, modify, upd_fdc, IsZero, After in *.

Ltac destruct_world s :=
  destruct s as [[?cl ?d ?nm ?cf [?rm [?rl ?rn] ?rd ?rt ?rto]
                  [?wm [?wl ?wn] ?wd ?wt ?wto]]
                 ?nw ?tms ?trR ?trW ?fm ?ks ?kc ?ev ?trc].

Definition is_syscall (e : event) : bool :=
  match e with EvSyscall _ _ _ _ _ => true | _ => false end.

(** The system calls of a trace, most recent first. *)
Definition syscalls (tr : list event) : list event :=
  List.filter is_syscall tr.

(** What the other goroutines and the backend leave alone: they issue no
    read or write on the descriptor, do not use up the scripts, never
    reopen a closed File, and do not touch the mutexes [m] that serialize
    the Reads and the Writes. *)
Definition quiet (s s' : World) : Prop :=
  syscalls (trace s') = syscalls (trace s) /\
  kern s' = kern s /\
  env s' = env s /\
  (closed (file s) = true -> closed (file s') = true) /\
  (forall wr, m (fdc wr (file s')) = m (fdc wr (file s))).

Definition preserves {A : Type} (c : M A) : Prop :=
  forall s, quiet s (final (c s)) /\ forall s', c s <> NoFuel s'.

(** A would-block answer to [rwfun(f.fd, p)], got with both flags clear
    and the direction's lock held. *)
Definition eagain_ev (write : bool) (p : list byte) (e : event) : Prop :=
  e = EvSyscall write p (-1) (Some EAGAIN) (mkSnap false false true).

(** How a run of the loop of [sysrw] that issued the calls [new] (most
    recent first) can end; [held] tells whether the direction's lock is
    held at the return. *)
Definition loop_post (held : bool) (write : bool) (p : list byte)
    (errEOF : error) (new : list event) (o : outcome (Z * option error))
  : Prop :=
  match o with
  | Ret res s' =>
      L (cond (fdc write (file s'))) = held /\
      ((res = (0, Some ErrClosed) /\ closed (file s') = true /\
        Forall (eagain_ev write p) new) \/
       (res = (0, Some ErrTimeout) /\ closed (file s') = false /\
        timeout (fdc write (file s')) = true /\
        Forall (eagain_ev write p) new) \/
       (exists x old,
          (closed (file s') = false /\
           timeout (fdc write (file s')) = false) /\
          x <> 11 /\
          new = EvSyscall write p (-1) (Some (Errno x))
                          (mkSnap false false true) :: old /\
          Forall (eagain_ev write p) old /\
          res = (0, Some (Errno x))) \/
       (exists k old,
          (closed (file s') = false /\
           timeout (fdc write (file s')) = false) /\
          new = EvSyscall write p k None (mkSnap false false true) :: old /\
          Forall (eagain_ev write p) old /\
          0 <= k <= len p /\
          res = (k, if (k =? 0) && negb (len p =? 0)
                    then Some errEOF else None)))
  | Blocked _ | Panic _ => Forall (eagain_ev write p) new
  | NoFuel _ => False
  end.

(** The error a system call ends the operation with, if it does: any
    failure but a would-block, and a zero-length success on a buffer that
    is not empty. *)
Definition fatal_error (errEOF : error) (e : event) : option error :=
  match e with
  | EvSyscall _ buf k (Some err) _ =>
      if error_eqb err EAGAIN then None else Some err
  | EvSyscall _ buf k None _ =>
      if (k =? 0) && negb (len buf =? 0) then Some errEOF else None
  | _ => None
  end.

(** The bytes the write calls of a trace handed to the kernel, in the
    order they were written. *)
Fixpoint written (tr : list event) : list byte :=
  match tr with
  | [] => []
  | EvSyscall true buf k None _ :: tr' => written tr' ++ take (Z.to_nat k) buf
  | _ :: tr' => written tr'
  end.

(** A call issued with both flags clear and the direction's lock held. *)
Definition flags_clear (e : event) : Prop :=
  match e with
  | EvSyscall _ _ _ _ sn => sn = mkSnap false false true
  | _ => True
  end.

(** How a run of the loop of [Write] on [p], entered with [n] bytes done,
    that issued the calls [new] can end. *)
Definition Write_post (p : list byte) (n : Z) (new : list event)
    (o : outcome (Z * option error)) : Prop :=
  Forall (fun e => exists buf k err,
            e = EvSyscall true buf k err (mkSnap false false true) /\
            buf <> []) new /\
  (forall e0 err, In e0 new -> fatal_error ErrUnexpectedEOF e0 = Some err ->
                  exists n' s', o = Ret (n', Some err) s') /\
  match o with
  | Ret (n', e) s' =>
      L (cond (w (file s'))) = false /\
      n <= n' <= len p /\
      written new = take (Z.to_nat (n' - n)) (drop (Z.to_nat n) p) /\
      (e = None -> n' = len p) /\
      e <> Some EAGAIN
  | NoFuel _ => False
  | _ => True
  end.

(** No Read, Write or Lock of the File is under way. *)
Definition idle (s : World) : Prop :=
  m (r (file s)) = false /\ m (w (file s)) = false /\
  L (cond (r (file s))) = false /\ L (cond (w (file s))) = false.

(** [later bk s s']: the process gets from [s] to [s'] by calls of the
    File's interface that return and by steps of the other goroutines. *)
Inductive later (bk : backend) : World -> World -> Prop :=
| later_refl (s : World) : later bk s s
| later_call (s s1 s2 : World) (c : call) (e : option error) :
    run_call bk c s = Ret e s1 -> later bk s1 s2 -> later bk s s2
| later_action (s s1 s2 : World) (a : action) :
    run_action bk a s = Ret tt s1 -> later bk s1 s2 -> later bk s s2.

(** A File closed right after it was made, on descriptor 5. *)
Definition closed_world (bk : backend) : World :=
  final (Close bk (fresh bk 5 [] [])).


(** A computation that keeps the timers and the pointers agreeing. *)
Definition keeps_wf {A : Type} (c : M A) : Prop :=
  forall s, timers_wf s -> timers_wf (final (c s)).

(** ** Notions of the further properties *)

(** [Stop] of the timer a direction of [f] points to, if it has one. *)
Definition stop_of (write : bool) (f : File) (l : list Timer) : list Timer :=
  match timer (fdc write f) with
  | Some id => alter stopped id l
  | None => l
  end.

(** One more broadcast on the direction's condition variable. *)
Definition woken (c : fdCtl) : fdCtl :=
  set_cond (set_notify (S (notify (cond c))) (cond c)) c.

(** The event [Close] releases the descriptor with. *)
Definition release_event (f : File) : event :=
  match closeF f with
  | Some _ => EvCloseF
  | None => EvSysClose (fd f)
  end.

(** The World a successful [Close] leaves. *)
Definition Close_post (s : World) : World :=
  let f := file s in
  log (release_event f)
    (set_timers (stop_of true f (stop_of false f (timers s)))
       (set_fdm (delete (fd f) (fdm s))
          (set_file (mkFile true (fd f) (name f) (closeF f)
                            (woken (r f)) (woken (w f))) s))).

(** The result of a successful [Close]: that of [closeF] when the File has
    one, of [syscall.Close] otherwise. *)
Definition Close_result (s : World) : option error :=
  match closeF (file s) with
  | Some e => e
  | None => kclose s
  end.

Definition is_release (e : event) : bool :=
  match e with
  | EvCloseF | EvSysClose _ => true
  | _ => false
  end.

(** How many times the descriptor was released. *)
Definition releases (tr : list event) : nat :=
  length (List.filter is_release tr).

(** The descriptor was released once if the File is closed, and never if
    it is open. *)
Definition released_iff_closed (s : World) : Prop :=
  releases (trace s) = if closed (file s) then 1%nat else 0%nat.

(** How a File can change between two states of a run: its descriptor,
    name and [closeF] stay, and either the closed flag and the number of
    releases stay too, or an open File became closed with one more
    release. *)
Definition evolved (s s' : World) : Prop :=
  fd (file s') = fd (file s) /\
  name (file s') = name (file s) /\
  closeF (file s') = closeF (file s) /\
  ((closed (file s') = closed (file s) /\
    releases (trace s') = releases (trace s)) \/
   (closed (file s) = false /\ closed (file s') = true /\
    releases (trace s') = S (releases (trace s)))).

(** A computation under which the File only changes that way, whatever
    its outcome. *)
Definition evolves {A : Type} (c : M A) : Prop :=
  forall s, evolved s (final (c s)).

(** The World with the direction's [cond.L] taken, and released. *)
Definition lockL (write : bool) (s : World) : World :=
  upd_fdc write (fun c => set_cond (set_L true (cond c)) c) s.
Definition unlockL (write : bool) (s : World) : World :=
  upd_fdc write (fun c => set_cond (set_L false (cond c)) c) s.

(** The kernel's next answer is a would-block. *)
Definition would_block (ks : list kresp) : bool :=
  match ks with
  | [] => true
  | Fail e :: _ => e =? 11
  | Xfer _ :: _ => false
  end.

(** The would-block answer as [sysrw] logs it. *)
Definition eagain_event (write : bool) (p : list byte) : event :=
  EvSyscall write p (-1) (Some EAGAIN) (mkSnap false false true).

(** The World in which a [sysrw] that got a would-block sleeps: the call
    is logged, the descriptor is tracked, [cond.L] is released, and the
    next batch of the other goroutines is about to run. *)
Definition asleep (bk : backend) (write : bool) (p : list byte) (s : World)
  : World :=
  let s0 := lockL write s in
  let s1 := log (eagain_event write p) (set_kern (tail (kern s0)) s0) in
  let s2 := final (startTrack bk (fd (file s)) write s1) in
  set_env (tail (env s)) (unlockL write s2).

(** The World a sleeper that finds the File closed or timed out returns
    in, from the World [s3] the others left. *)
Definition given_up (bk : backend) (write : bool) (d : Z) (s3 : World)
  : World :=
  unlockL write (final (stopTrack bk d write (lockL write s3))).


(** The World after a timer handler found the direction's deadline
    passed. *)
Definition timed_out (write : bool) (s : World) : World :=
  upd_fdc write (fun c => woken (set_timeout true c)) s.

(** The World after the runtime ran the handler of timer [id], [d]
    nanoseconds later. *)
Definition fired (write : bool) (d : nat) (id : nat) (s : World) : World :=
  timed_out write
    (set_timers (alter stopped id (timers s))
                (set_now (now s + Z.of_nat d) s)).

(** The World after the backend's loop reported the descriptor ready. *)
Definition made_ready (write : bool) (s : World) : World :=
  let s1 := upd_fdc write woken s in
  if write then set_fdTrW (delete (fd (file s)) (fdTrW s)) s1
  else set_fdTrR (delete (fd (file s)) (fdTrR s)) s1.

(** The values of a Go [int]. *)
Definition int_ok (a : arch) (x : Z) : Prop :=
  - 2 ^ (FD_BITS a - 1) <= x < 2 ^ (FD_BITS a - 1).

(** An [FdSet] as the program can hold it: the array has its declared
    length and every word is an [int]. *)
Definition FdSet_wf (a : arch) (fds : FdSet) : Prop :=
  length (bits fds) = Z.to_nat (nwords a) /\ Forall (int_ok a) (bits fds).

(** In two's complement the bits of an [int] from the sign bit on are all
    equal. *)
Definition sign_extended (a : arch) (x : Z) : Prop :=
  forall i, FD_BITS a - 1 <= i ->
            Z.testbit x i = Z.testbit x (FD_BITS a - 1).

(** [Select] reported the descriptor in the set. *)
Definition is_ready (a : arch) (fds : FdSet) (x : Z) : bool :=
  match IsSet a fds x with
  | Some true => true
  | _ => false
  end.

(** The number of reports for descriptor [x], over both sets. *)
Definition ready_bits (a : arch) (fdR fdW : FdSet) (x : Z) : Z :=
  Z.b2z (is_ready a fdR x) + Z.b2z (is_ready a fdW x).

(** The number of reports for the descriptors below [k]. *)
Fixpoint ready_below (a : arch) (fdR fdW : FdSet) (k : nat) : Z :=
  match k with
  | O => 0
  | S k' => ready_below a fdR fdW k' + ready_bits a fdR fdW (Z.of_nat k')
  end.

(** The loop started at [x] with the count [n] gets to descriptor [k]. *)
Definition reached (a : arch) (fdR fdW : FdSet) (topFd x n k : Z) : bool :=
  (x <=? k) && (k <=? topFd) &&
  (ready_below a fdR fdW (Z.to_nat k) - ready_below a fdR fdW (Z.to_nat x)
   <? n).

(** The World after the loop served descriptor [x] in a direction. *)
Definition served (write : bool) (x : Z) (s : World) : World :=
  let s1 := if write then set_fdTrW (delete x (fdTrW s)) s
            else set_fdTrR (delete x (fdTrR s)) s in
  if bool_decide (is_Some (fdm s !! x)) && (x =? fd (file s))
  then upd_fdc write woken s1 else s1.

(** What the loop never touches. *)
Definition loop_frame (s s' : World) : Prop :=
  fdm s' = fdm s /\ trace s' = trace s /\ timers s' = timers s /\
  fd (file s') = fd (file s) /\ closed (file s') = closed (file s) /\
  forall wr,
    L (cond (fdc wr (file s'))) = L (cond (fdc wr (file s))) /\
    m (fdc wr (file s')) = m (fdc wr (file s)) /\
    timeout (fdc wr (file s')) = timeout (fdc wr (file s)) /\
    deadline (fdc wr (file s')) = deadline (fdc wr (file s)) /\
    timer (fdc wr (file s')) = timer (fdc wr (file s)).

(** What the loop started at [x] with the count [n] has done when it
    ends: every descriptor it got to has left the interest set of each
    direction it was reported in, and the File, if the loop got to its
    descriptor and it is in the registry, got one broadcast for each
    such direction. *)
Definition dispatched (a : arch) (fdR fdW : FdSet) (topFd x n : Z)
    (s s' : World) : Prop :=
  loop_frame s s' /\
  (forall wr k,
     tracked wr s' !! k =
       if reached a fdR fdW topFd x n k &&
          is_ready a (if wr then fdW else fdR) k
       then None else tracked wr s !! k) /\
  (forall wr,
     notify (cond (fdc wr (file s'))) =
       if reached a fdR fdW topFd x n (fd (file s)) &&
          is_ready a (if wr then fdW else fdR) (fd (file s)) &&
          bool_decide (is_Some (fdm s !! fd (file s)))
       then S (notify (cond (fdc wr (file s))))
       else notify (cond (fdc wr (file s)))).



(** The mutex a call takes first: [Read] starts with [f.r.m.Lock()],
    [Write] with [f.w.m.Lock()]; the other calls take neither. *)
Definition mutex_of (c : call) : option bool :=
  match c with
  | CRead _ => Some false
  | CWrite _ => Some true
  | _ => None
  end.

(** Whether that mutex is held by an earlier call that has not returned
    yet. *)
Definition holds_m (c : call) (s : World) : bool :=
  match mutex_of c with
  | Some wr => m (fdc wr (file s))
  | None => false
  end.

(** * Properties *)

(** ** The descriptor sets of the select backend *)

Section FdSetFacts.

Variable a : arch.

Lemma quot_bounds (d : Z) :
  (0 <= d ÷ FD_BITS a <-> - FD_BITS a < d) /\
  (d ÷ FD_BITS a < nwords a <-> d < FD_SETSIZE).
Proof.
  pose proof (Z.quot_rem' d (FD_BITS a)) as Hq.
  pose proof (Z.rem_bound_pos_pos d (FD_BITS a)) as Hr1.
  pose proof (Z.rem_bound_pos_neg d (FD_BITS a)) as Hr2.
  unfold nwords, FD_SETSIZE in *.
  destruct a; simpl FD_BITS in *;
    [change (1024 / 32) with 32 | change (1024 / 64) with 16];
    destruct (Z.le_gt_cases 0 d) as [Hd | Hd]; lia.
Qed.

(** The index is in range exactly for the descriptors above [-FD_BITS]
    and below [FD_SETSIZE]. *)
Lemma index_None (d : Z) :
  index a d = None <-> (d >= FD_SETSIZE \/ d <= - FD_BITS a).
Proof.
  unfold index. destruct (quot_bounds d) as [H1 H2].
  destruct (0 <=? d ÷ FD_BITS a) eqn:E1;
    destruct (d ÷ FD_BITS a <? nwords a) eqn:E2; simpl;
    try apply Z.leb_le in E1; try apply Z.leb_gt in E1;
    try apply Z.ltb_lt in E2; try apply Z.ltb_ge in E2;
    split; intros H; try discriminate; try reflexivity; lia.
Qed.

(** A negative descriptor above [-FD_BITS] lands in word 0, like the
    descriptor [FD_BITS] above it. *)
Lemma index_alias (d : Z) :
  - FD_BITS a < d < 0 ->
  index a d = Some 0%nat /\ index a (d + FD_BITS a) = Some 0%nat.
Proof.
  intros Hd. unfold index.
  assert (Hq : d ÷ FD_BITS a = 0).
  { apply Z.quot_small_iff; destruct a; simpl in *; lia. }
  assert (Hq' : (d + FD_BITS a) ÷ FD_BITS a = 0).
  { apply Z.quot_small_iff; destruct a; simpl in *; lia. }
  rewrite Hq, Hq'. destruct a; split; reflexivity.
Qed.

Lemma mask_alias (d : Z) : mask a (d + FD_BITS a) = mask a d.
Proof.
  unfold mask. f_equal. f_equal.
  unfold to_uint.
  assert (Hw : FD_BITS a mod 2 ^ FD_BITS a = FD_BITS a)
    by (destruct a; reflexivity).
  assert (Hdiv : (FD_BITS a | 2 ^ FD_BITS a)).
  { destruct a; [exists (2 ^ 27) | exists (2 ^ 58)]; reflexivity. }
  rewrite Hw, !Z.mod_mod_divide by exact Hdiv.
  rewrite <- (Z.mul_1_l (FD_BITS a)) at 1.
  apply Z.mod_add. destruct a; discriminate.
Qed.

End FdSetFacts.

Lemma Set_None (a : arch) (fds : FdSet) (d : Z) :
  Set_ a fds d = None <-> (d >= FD_SETSIZE \/ d <= - FD_BITS a).
Proof.
  rewrite <- index_None. unfold Set_.
  destruct (index a d); split; intros H; try discriminate; reflexivity.
Qed.

(** Filling a set panics exactly when one of the descriptors is out of
    range, in whatever order they come. *)
Lemma set_each_None (a : arch) (ks : list Z) :
  forall fds topFd,
    SelectB.set_each a fds topFd ks = None <->
    exists k, k ∈ ks /\ (k >= FD_SETSIZE \/ k <= - FD_BITS a).
Proof.
  induction ks as [| k ks IH]; intros fds topFd; simpl.
  - split; [discriminate |]. intros (k & Hk & _). inversion Hk.
  - destruct (Set_ a fds k) as [fds' |] eqn:E.
    + rewrite IH. split.
      * intros (k' & Hk' & Ho). exists k'. split; [right; exact Hk' | exact Ho].
      * intros (k' & Hk' & Ho). inversion Hk' as [| ? ? ? Hin]; subst.
        -- apply (Set_None a fds) in Ho. congruence.
        -- exists k'. split; assumption.
    + split; [| reflexivity]. intros _. exists k. split; [left |].
      apply (Set_None a fds k). exact E.
Qed.

Lemma elem_of_keys (mp : gmap Z unit) (k : Z) :
  k ∈ (map_to_list mp).*1 <-> is_Some (mp !! k).
Proof.
  rewrite list_elem_of_fmap. split.
  - intros ([k' v] & -> & Hin). apply elem_of_map_to_list in Hin. eauto.
  - intros (v & Hv). exists (k, v). split; [reflexivity |].
    apply elem_of_map_to_list. exact Hv.
Qed.

(** The mask is a single bit of the word, so it is never 0. *)
Lemma mask_nonzero (a : arch) (d : Z) : to_int a (mask a d) <> 0.
Proof.
  unfold to_int, mask, to_uint.
  assert (H1 : 1 mod 2 ^ FD_BITS a = 1) by (destruct a; reflexivity).
  assert (HW : FD_BITS a mod 2 ^ FD_BITS a = FD_BITS a)
    by (destruct a; reflexivity).
  rewrite H1, HW, Z.shiftl_1_l.
  set (sh := (d mod 2 ^ FD_BITS a) mod FD_BITS a).
  assert (Hsh : 0 <= sh < FD_BITS a).
  { apply Z.mod_pos_bound. destruct a; reflexivity. }
  assert (Hlt : 0 < 2 ^ sh < 2 ^ FD_BITS a).
  { split; [apply Z.pow_pos_nonneg; lia | apply Z.pow_lt_mono_r; lia]. }
  rewrite !(Z.mod_small (2 ^ sh)) by lia.
  destruct (2 ^ sh <? 2 ^ (FD_BITS a - 1)); lia.
Qed.

Lemma land_lor_same (x y : Z) : Z.land (Z.lor x y) y = y.
Proof.
  apply Z.bits_inj'. intros n Hn.
  rewrite Z.land_spec, Z.lor_spec.
  destruct (Z.testbit x n), (Z.testbit y n); reflexivity.
Qed.

(** In range, on an array of the declared length, a descriptor that was
    set is found set. *)
Lemma IsSet_Set (a : arch) (fds : FdSet) (d : Z) :
  0 <= d < FD_SETSIZE ->
  length (bits fds) = Z.to_nat (nwords a) ->
  exists fds',
    Set_ a fds d = Some fds' /\ IsSet a fds' d = Some true /\
    length (bits fds') = length (bits fds).
Proof.
  intros Hd Hlen. unfold Set_, IsSet, index.
  destruct (quot_bounds a d) as [H1 H2].
  assert (Hq : 0 <= d ÷ FD_BITS a < nwords a).
  { split; [apply H1; destruct a; simpl; lia | apply H2; lia]. }
  replace ((0 <=? d ÷ FD_BITS a) && (d ÷ FD_BITS a <? nwords a)) with true
    by lia.
  eexists. split; [reflexivity |]. simpl. split.
  - unfold word at 1. simpl.
    rewrite list_lookup_insert_eq by lia. simpl.
    rewrite land_lor_same.
    destruct (Z.eqb_spec (to_int a (mask a d)) 0) as [E | _];
      [| reflexivity].
    exfalso. exact (mask_nonzero a d E).
  - apply length_insert.
Qed.

(** C10, as the code has it: [Set], [UnSet] and [IsSet] index the array at
    [fd / FD_BITS] with the language's bounds check only, and Go's division
    truncates toward zero.  So the access panics exactly when
    [fd >= FD_SETSIZE] or [fd <= -FD_BITS]; for [-FD_BITS < fd < 0] the
    index is 0, the access is in range, and the operation is the one of
    descriptor [fd + FD_BITS]; for [0 <= fd < FD_SETSIZE] a descriptor
    that was set is found set.  The loop of the backend fills its sets
    from the interest sets at every turn, and panics exactly when the
    wakeup pipe or a tracked descriptor is out of that range: the backend
    works for the descriptors in [0, 1024) only. *)
Theorem FdSet_index_range (a : arch) (fds : FdSet) (d : Z) :
  (Set_ a fds d = None <-> (d >= FD_SETSIZE \/ d <= - FD_BITS a)) /\
  (UnSet a fds d = None <-> (d >= FD_SETSIZE \/ d <= - FD_BITS a)) /\
  (IsSet a fds d = None <-> (d >= FD_SETSIZE \/ d <= - FD_BITS a)) /\
  (- FD_BITS a < d < 0 ->
     Set_ a fds d = Set_ a fds (d + FD_BITS a) /\
     UnSet a fds d = UnSet a fds (d + FD_BITS a) /\
     IsSet a fds d = IsSet a fds (d + FD_BITS a) /\
     Set_ a fds d <> None) /\
  (0 <= d < FD_SETSIZE -> length (bits fds) = Z.to_nat (nwords a) ->
   exists fds', Set_ a fds d = Some fds' /\ IsSet a fds' d = Some true) /\
  (forall wupFd fdR fdW s,
     SelectB.evLoop_sets a wupFd fdR fdW s = None <->
     exists k,
       (k = wupFd \/ is_Some (fdTrR s !! k) \/ is_Some (fdTrW s !! k)) /\
       (k >= FD_SETSIZE \/ k <= - FD_BITS a)).
Proof.
  pose proof (index_None a d) as Hi.
  pose proof (index_alias a d) as Ha.
  pose proof (mask_alias a d) as Hm.
  split; [apply Set_None |].
  split; [| split; [| split; [| split]]].
  - rewrite <- Hi. unfold UnSet.
    destruct (index a d); split; intros H; try discriminate; reflexivity.
  - rewrite <- Hi. unfold IsSet.
    destruct (index a d); split; intros H; try discriminate; reflexivity.
  - intros H. destruct (Ha H) as [E1 E2].
    unfold Set_, UnSet, IsSet. rewrite E1, E2, Hm.
    repeat split; discriminate.
  - intros Hd Hlen.
    destruct (IsSet_Set a fds d Hd Hlen) as (fds' & E1 & E2 & _). eauto.
  - intros wupFd fdR fdW s. unfold SelectB.evLoop_sets.
    destruct (Set_ a (Reset fdR) wupFd) as [r0 |] eqn:E0.
    + assert (Hw : ~ (wupFd >= FD_SETSIZE \/ wupFd <= - FD_BITS a)).
      { intros Ho. apply (Set_None a (Reset fdR)) in Ho. congruence. }
      destruct (SelectB.set_each a r0 wupFd (map_to_list (fdTrR s)).*1)
        as [[r1 top1] |] eqn:E1.
      * assert (Hr : ~ exists k, k ∈ (map_to_list (fdTrR s)).*1 /\
                          (k >= FD_SETSIZE \/ k <= - FD_BITS a)).
        { intros Ho. apply (set_each_None a _ r0 wupFd) in Ho. congruence. }
        destruct (SelectB.set_each a (Reset fdW) top1
                    (map_to_list (fdTrW s)).*1) as [[w1 top2] |] eqn:E2.
        -- split; [discriminate |].
           intros (k & [-> | [Hk | Hk]] & Ho).
           ++ contradiction.
           ++ exfalso. apply Hr. exists k. rewrite elem_of_keys. auto.
           ++ apply elem_of_keys in Hk.
              assert (Hn : SelectB.set_each a (Reset fdW) top1
                             (map_to_list (fdTrW s)).*1 = None)
                by (apply set_each_None; eauto).
              congruence.
        -- split; [| reflexivity]. intros _.
           apply set_each_None in E2 as (k & Hk & Ho).
           exists k. rewrite elem_of_keys in Hk. auto.
      * split; [| reflexivity]. intros _.
        apply set_each_None in E1 as (k & Hk & Ho).
        exists k. rewrite elem_of_keys in Hk. auto.
    + split; [| reflexivity]. intros _. exists wupFd.
      split; [left; reflexivity |]. apply (Set_None a (Reset fdR)). exact E0.
Qed.

Lemma FdSet_index_range_witness :
  Set_ Arch64 (FdSet_zero Arch64) (-3) = Set_ Arch64 (FdSet_zero Arch64) 61 /\
  IsSet Arch64 (FdSet_zero Arch64) (-3) = Some false.
Proof.
  split.
  - apply (FdSet_index_range Arch64 (FdSet_zero Arch64) (-3)).
    simpl; lia.
  - reflexivity.
Defined.

(** C10 as stated fails: descriptor -1 is negative, yet [Set], [UnSet] and
    [IsSet] all stay in range on it; they work on the top bit of word 0. *)
Lemma FdSet_negative_in_range :
  -1 < 0 /\
  index Arch64 (-1) = Some 0%nat /\
  Set_ Arch64 (FdSet_zero Arch64) (-1) =
    Some (mkFdSet (- 2 ^ 63 :: replicate 15 0)) /\
  UnSet Arch64 (FdSet_zero Arch64) (-1) = Some (FdSet_zero Arch64) /\
  IsSet Arch64 (FdSet_zero Arch64) (-1) = Some false /\
  IsSet Arch64 (mkFdSet (- 2 ^ 63 :: replicate 15 0)) 63 = Some true.
Proof. repeat split; vm_compute; reflexivity. Qed.

(** ** Interest tracking in the select backend *)

(** C8: in the select backend [startTrack(fd, direction)] always puts [fd]
    into the interest set of that direction, leaves the other set alone,
    and writes the wakeup byte to the self-pipe if and only if [fd] was not
    in that set before the call. *)
Theorem startTrack_select (d : Z) (write : bool) (s : World) :
  exists s',
    startTrack SelectBuild d write s = Ret tt s' /\
    tracked write s' = <[d := tt]> (tracked write s) /\
    is_Some (tracked write s' !! d) /\
    tracked (negb write) s' = tracked (negb write) s /\
    trace s' = (if bool_decide (is_Some (tracked write s !! d))
                then trace s else EvWakeup :: trace s) /\
    (wakeups (trace s') = S (wakeups (trace s)) <->
     tracked write s !! d = None) /\
    (wakeups (trace s') = wakeups (trace s) <->
     is_Some (tracked write s !! d)).
Proof.
  unfold startTrack, SelectB.startTrack, SelectB.wakeup, tracked, bind, get,
    modify, ret.
  destruct write; simpl.
  all: match goal with
       | |- context [bool_decide (is_Some (?mp !! ?k))] =>
           destruct (mp !! k) as [[]|] eqn:E
       end.
  all: try rewrite bool_decide_eq_true_2 by eauto.
  all: try rewrite bool_decide_eq_false_2 by (intros [x Hx]; discriminate).
  all: simpl; eexists; (split; [reflexivity |]); simpl.
  all: rewrite lookup_insert_eq.
  all: repeat split; eauto; try discriminate; try lia;
       try (intros [x Hx]; discriminate).
  all: unfold wakeups; simpl; lia.
Qed.

(** ** Deadlines and timers *)



Lemma filter_none {A : Type} (P : A -> bool) (l : list A) :
  (forall i x, l !! i = Some x -> P x = false) -> List.filter P l = [].
Proof.
  induction l as [| a l IH]; intros H; simpl; [reflexivity |].
  rewrite (H 0%nat a eq_refl). apply IH.
  intros i x Hi. apply (H (S i) x Hi).
Qed.

Lemma filter_unique {A : Type} (P : A -> bool) (l : list A) (id : nat) :
  (forall i x, l !! i = Some x -> P x = true -> i = id) ->
  List.filter P l = match l !! id with
                    | Some x => if P x then [x] else []
                    | None => []
                    end.
Proof.
  revert id. induction l as [| a l IH]; intros id H; simpl.
  - destruct id; reflexivity.
  - destruct id as [| id]; simpl.
    + rewrite (filter_none P l); [reflexivity |].
      intros i x Hi. destruct (P x) eqn:E; [| reflexivity].
      specialize (H (S i) x Hi E). discriminate.
    + destruct (P a) eqn:E.
      * specialize (H 0%nat a eq_refl E). discriminate.
      * apply IH. intros i x Hi Hx.
        specialize (H (S i) x Hi Hx). congruence.
Qed.

Lemma live_for_write (write : bool) (t : Timer) :
  live_for write t = true -> tm_write t = write.
Proof.
  unfold live_for. intros H. apply andb_prop in H as [H _].
  apply Bool.eqb_prop in H. exact H.
Qed.

(** With agreeing pointers the pending timers of a direction are read off
    the direction's own pointer. *)
Lemma live_timers_wf (write : bool) (s : World) :
  timers_wf s ->
  live_timers write s =
    match timer (fdc write (file s)) with
    | Some id => match timers s !! id with
                 | Some t => if tm_live t then 1%nat else 0%nat
                 | None => 0%nat
                 end
    | None => 0%nat
    end.
Proof.
  intros [W1 W2]. unfold live_timers.
  destruct (timer (fdc write (file s))) as [id |] eqn:E.
  - rewrite (filter_unique _ _ id).
    + destruct (W2 write id E) as (tm & Htm & Hw). rewrite Htm.
      unfold live_for. rewrite Hw, Bool.eqb_reflx. simpl.
      destruct (tm_live tm); reflexivity.
    + intros i x Hi Hx. apply live_for_write in Hx.
      specialize (W1 i x Hi). rewrite Hx, E in W1. congruence.
  - rewrite filter_none; [reflexivity |].
    intros i x Hi. destruct (live_for write x) eqn:Hx; [| reflexivity].
    apply live_for_write in Hx.
    specialize (W1 i x Hi). rewrite Hx, E in W1. discriminate.
Qed.

Lemma live_timers_le_1 (write : bool) (s : World) :
  timers_wf s -> (live_timers write s <= 1)%nat.
Proof.
  intros W. rewrite (live_timers_wf write s W).
  destruct (timer (fdc write (file s))); [| lia].
  destruct (timers s !! n) as [t |]; [| lia].
  destruct (tm_live t); lia.
Qed.

(** Re-arming or stopping a timer in place keeps the pointers agreeing. *)
Lemma timers_wf_alter (g : Timer -> Timer) (id : nat) (s : World) (f : File) :
  (forall t, tm_write (g t) = tm_write t) ->
  (forall write, timer (fdc write f) = timer (fdc write (file s))) ->
  timers_wf s ->
  timers_wf (set_file f (set_timers (alter g id (timers s)) s)).
Proof.
  intros Hg Hf [W1 W2]. split; cbn [file timers set_file set_timers].
  - intros i tm Hi. rewrite Hf.
    destruct (decide (i = id)) as [-> | Hne].
    + rewrite list_lookup_alter_eq in Hi.
      destruct (timers s !! id) as [t0 |] eqn:E; [| discriminate].
      simpl in Hi. injection Hi as <-. rewrite Hg. apply W1. exact E.
    + rewrite list_lookup_alter_ne in Hi by congruence. apply W1. exact Hi.
  - intros write i Hi. rewrite Hf in Hi.
    destruct (W2 write i Hi) as (tm & Htm & Hw).
    destruct (decide (i = id)) as [-> | Hne].
    + exists (g tm). rewrite list_lookup_alter_eq, Htm. simpl.
      split; [reflexivity | rewrite Hg; exact Hw].
    + exists tm. rewrite list_lookup_alter_ne by congruence. split; assumption.
Qed.

(** A first timer goes to the end of the runtime's list; the direction
    that had none now points to it. *)
Lemma timers_wf_new (write : bool) (d : Z) (s : World) (f : File) :
  timer (fdc write (file s)) = None ->
  timer (fdc write f) = Some (length (timers s)) ->
  timer (fdc (negb write) f) = timer (fdc (negb write) (file s)) ->
  timers_wf s ->
  timers_wf
    (set_file f (set_timers (timers s ++ [mkTimer write d (now s) true]) s)).
Proof.
  intros Hnone Hnew Hother [W1 W2].
  split; cbn [file timers set_file set_timers].
  - intros i tm Hi.
    destruct (decide (i < length (timers s))%nat) as [Hlt | Hge].
    + rewrite lookup_app_l in Hi by exact Hlt.
      pose proof (W1 i tm Hi) as Hp.
      destruct (Bool.bool_dec (tm_write tm) write) as [E | E].
      * rewrite E, Hnone in Hp. discriminate.
      * assert (E' : tm_write tm = negb write)
          by (destruct (tm_write tm), write; simpl; congruence).
        rewrite E' in *. rewrite Hother. exact Hp.
    + rewrite lookup_app_r in Hi by lia.
      destruct (i - length (timers s))%nat as [| k] eqn:Ek; simpl in Hi.
      * injection Hi as <-. simpl. rewrite Hnew. f_equal. lia.
      * rewrite lookup_nil in Hi. discriminate.
  - intros wr i Hi.
    destruct (Bool.bool_dec wr write) as [-> | E].
    + rewrite Hnew in Hi. injection Hi as <-.
      exists (mkTimer write d (now s) true). split; [| reflexivity].
      rewrite lookup_app_r by lia. rewrite Nat.sub_diag. reflexivity.
    + assert (E' : wr = negb write) by (destruct wr, write; simpl; congruence).
      subst wr. rewrite Hother in Hi.
      destruct (W2 _ _ Hi) as (tm & Htm & Hw).
      exists tm. split; [| exact Hw].
      rewrite lookup_app_l; [exact Htm |].
      apply lookup_lt_Some in Htm. exact Htm.
Qed.

Lemma timers_wf_file (s : World) (f : File) :
  (forall write, timer (fdc write f) = timer (fdc write (file s))) ->
  timers_wf s -> timers_wf (set_file f s).
Proof.
  intros Hf [W1 W2]. split; cbn [file timers set_file set_timers].
  - intros i tm Hi. rewrite Hf. apply W1. exact Hi.
  - intros write i Hi. rewrite Hf in Hi. apply W2. exact Hi.
Qed.

Lemma fdc_set_fdc (write : bool) (c : fdCtl) (f : File) :
  fdc write (set_fdc write c f) = c.
Proof. destruct write; reflexivity. Qed.

Lemma fdc_set_fdc_other (write : bool) (c : fdCtl) (f : File) :
  fdc (negb write) (set_fdc write c f) = fdc (negb write) f.
Proof. destruct write; reflexivity. Qed.

Lemma closed_set_fdc (write : bool) (c : fdCtl) (f : File) :
  closed (set_fdc write c f) = closed f.
Proof. destruct write; reflexivity. Qed.

Lemma timer_fdc_set_fdc (write wr : bool) (c : fdCtl) (f : File) :
  timer c = timer (fdc write f) ->
  timer (fdc wr (set_fdc write c f)) = timer (fdc wr f).
Proof. destruct write, wr; simpl; congruence. Qed.

(** What [setDeadline] does to an open File whose lock is free. *)
Lemma setDeadline_open (write : bool) (t : Time) (s : World) :
  L (cond (fdc write (file s))) = false ->
  closed (file s) = false ->
  setDeadline write t s = Ret None (setDeadline_post write t s).
Proof.
  intros HL Hopen. unfold setDeadline_post. destruct_world s.
  destruct write; simpl in HL, Hopen; subst; unfold_ops; simpl;
    destruct (t =? 0); simpl;
    match goal with |- context [match ?o with Some _ => _ | None => _ end] =>
      destruct o end; reflexivity.
Qed.

Lemma live_timers_other (write : bool) (s s' : World) :
  timers_wf s -> timers_wf s' ->
  timer (fdc (negb write) (file s')) = timer (fdc (negb write) (file s)) ->
  (forall id, timer (fdc (negb write) (file s)) = Some id ->
              timers s' !! id = timers s !! id) ->
  live_timers (negb write) s' = live_timers (negb write) s.
Proof.
  intros W W' Hp Hl.
  rewrite (live_timers_wf _ _ W), (live_timers_wf _ _ W'), Hp.
  destruct (timer (fdc (negb write) (file s))) as [id |]; [| reflexivity].
  rewrite (Hl id eq_refl). reflexivity.
Qed.

(** Two directions never share a timer. *)
Lemma timers_wf_distinct (write : bool) (s : World) (i j : nat) :
  timers_wf s ->
  timer (fdc write (file s)) = Some i ->
  timer (fdc (negb write) (file s)) = Some j ->
  i <> j.
Proof.
  intros [W1 W2] Hi Hj ->.
  destruct (W2 _ _ Hi) as (tm & Htm & Hw).
  destruct (W2 _ _ Hj) as (tm' & Htm' & Hw').
  rewrite Htm in Htm'. injection Htm' as <-.
  rewrite Hw in Hw'. destruct write; discriminate.
Qed.

Lemma setDeadline_blocked (write : bool) (t : Time) (s : World) :
  L (cond (fdc write (file s))) = true ->
  setDeadline write t s = Blocked s.
Proof.
  intros HL. unfold setDeadline, bind, condL_Lock. rewrite HL. reflexivity.
Qed.

Lemma setDeadline_on_closed (write : bool) (t : Time) (s : World) :
  L (cond (fdc write (file s))) = false ->
  closed (file s) = true ->
  setDeadline write t s = Ret (Some ErrClosed) s.
Proof.
  intros HL Hcl. destruct_world s.
  destruct write; simpl in *; subst; unfold_ops; simpl; reflexivity.
Qed.

(** [setDeadline] keeps the timers and the pointers agreeing. *)
Lemma setDeadline_post_wf (write : bool) (t : Time) (s : World) :
  timers_wf s -> timers_wf (setDeadline_post write t s).
Proof.
  intros W.
  set (c1 := set_timeout false (set_deadline t (fdc write (file s)))).
  set (f1 := set_fdc write c1 (file s)).
  assert (Hp1 : forall wr, timer (fdc wr f1) = timer (fdc wr (file s))).
  { intros wr. apply timer_fdc_set_fdc. reflexivity. }
  unfold setDeadline_post.
  destruct (t =? 0); destruct (timer (fdc write (file s))) as [id |] eqn:Ht.
  - apply (timers_wf_alter stopped id s f1); auto.
  - apply (timers_wf_file s f1); auto.
  - unfold upd_fdc. fold c1 f1.
    change (timers_wf
              (set_file f1
                 (set_timers
                    (alter (rearmed (Sub t (now s)) (now s)) id
                       (timers (set_timers (alter stopped id (timers s)) s)))
                    (set_timers (alter stopped id (timers s)) s)))).
    apply timers_wf_alter; auto.
    apply (timers_wf_alter stopped id s (file s)); auto.
  - unfold upd_fdc. cbn [file set_file set_timers timers].
    fold c1 f1.
    apply (timers_wf_new write (Sub t (now s)) s
             (set_fdc write (set_timer (Some (length (timers s)))
                                       (fdc write f1)) f1)).
    + exact Ht.
    + rewrite fdc_set_fdc. reflexivity.
    + rewrite fdc_set_fdc_other. unfold f1.
      rewrite fdc_set_fdc_other. reflexivity.
    + exact W.
Qed.

(** C5: [SetReadDeadline(t)] and [SetWriteDeadline(t)] work under the
    direction's lock.  On a closed File they fail with [ErrClosed] and
    change nothing.  Otherwise they store [t] as the deadline, clear
    [timeout] and return nil; for the zero [t] no timer of the direction
    stays pending, for any other [t] exactly one is pending, armed now for
    [t.Sub(now)]; never are two timers of one direction pending. *)
Theorem setDeadline_spec (write : bool) (t : Time) (s : World) :
  timers_wf s ->
  let op := if write then SetWriteDeadline t else SetReadDeadline t in
  (L (cond (fdc write (file s))) = true -> op s = Blocked s) /\
  (L (cond (fdc write (file s))) = false ->
   (closed (file s) = true -> op s = Ret (Some ErrClosed) s) /\
   (closed (file s) = false ->
    exists s',
      op s = Ret None s' /\
      deadline (fdc write (file s')) = t /\
      timeout (fdc write (file s')) = false /\
      closed (file s') = false /\
      fdc (negb write) (file s') = fdc (negb write) (file s) /\
      L (cond (fdc write (file s'))) = false /\
      timers_wf s' /\
      (live_timers write s' <= 1)%nat /\
      live_timers (negb write) s' = live_timers (negb write) s /\
      (t = 0 ->
       live_timers write s' = 0%nat /\
       timer (fdc write (file s')) = timer (fdc write (file s))) /\
      (t <> 0 ->
       live_timers write s' = 1%nat /\
       exists id,
         timer (fdc write (file s')) = Some id /\
         timers s' !! id = Some (mkTimer write (Sub t (now s)) (now s) true)))).
Proof.
  intros W op. subst op.
  assert (Hop : (if write then SetWriteDeadline t else SetReadDeadline t)
                = setDeadline write t) by (destruct write; reflexivity).
  rewrite Hop. clear Hop.
  split; [| intros HL; split]; [| | intros Hopen].
  - intros HL. apply setDeadline_blocked. exact HL.
  - intros Hcl. apply setDeadline_on_closed; assumption.
  - exists (setDeadline_post write t s).
    split; [apply setDeadline_open; assumption |].
    set (c1 := set_timeout false (set_deadline t (fdc write (file s)))).
    assert (W' : timers_wf (setDeadline_post write t s))
      by (apply setDeadline_post_wf; exact W).
    assert (Hother : fdc (negb write) (file (setDeadline_post write t s))
                     = fdc (negb write) (file s)).
    { unfold setDeadline_post, upd_fdc.
      destruct (t =? 0); destruct (timer (fdc write (file s)));
        cbn [file set_file set_timers]; rewrite ?fdc_set_fdc_other;
        reflexivity. }
    assert (Hc' : fdc write (file (setDeadline_post write t s)) =
                  if t =? 0 then c1
                  else match timer (fdc write (file s)) with
                       | Some _ => c1
                       | None => set_timer (Some (length (timers s))) c1
                       end).
    { unfold setDeadline_post, upd_fdc.
      destruct (t =? 0); destruct (timer (fdc write (file s)));
        cbn [file set_file set_timers]; rewrite ?fdc_set_fdc;
        reflexivity. }
    assert (Hlive : live_timers write (setDeadline_post write t s) =
                    if t =? 0 then 0%nat else 1%nat).
    { rewrite (live_timers_wf _ _ W'), Hc'.
      destruct W as [W1 W2].
      unfold setDeadline_post, upd_fdc.
      destruct (t =? 0); destruct (timer (fdc write (file s))) as [id |] eqn:Ht;
        cbn [file set_file set_timers timers timer set_timer c1 set_timeout
             set_deadline]; rewrite ?Ht.
      - rewrite list_lookup_alter_eq.
        destruct (timers s !! id); reflexivity.
      - reflexivity.
      - rewrite !list_lookup_alter_eq.
        destruct (W2 _ _ Ht) as (tm & Htm & _). rewrite Htm. reflexivity.
      - rewrite lookup_app_r by lia. rewrite Nat.sub_diag. reflexivity. }
    rewrite Hlive, Hc'.
    repeat match goal with |- _ /\ _ => split end.
    + destruct (t =? 0); [| destruct (timer (fdc write (file s)))]; reflexivity.
    + destruct (t =? 0); [| destruct (timer (fdc write (file s)))]; reflexivity.
    + unfold setDeadline_post, upd_fdc.
      destruct (t =? 0); destruct (timer (fdc write (file s)));
        cbn [file set_file set_timers]; rewrite ?closed_set_fdc; exact Hopen.
    + exact Hother.
    + destruct (t =? 0); [| destruct (timer (fdc write (file s)))];
        exact HL.
    + exact W'.
    + destruct (t =? 0); lia.
    + apply live_timers_other; auto.
      * rewrite Hother. reflexivity.
      * intros j Hj. unfold setDeadline_post, upd_fdc.
        destruct (t =? 0);
          destruct (timer (fdc write (file s))) as [id |] eqn:Ht;
          cbn [file set_file set_timers timers]; try reflexivity.
        -- apply list_lookup_alter_ne.
           apply (timers_wf_distinct write s); assumption.
        -- rewrite !list_lookup_alter_ne; [reflexivity | |];
             apply (timers_wf_distinct write s); assumption.
        -- destruct W as [_ W2]. destruct (W2 _ _ Hj) as (tm & Htm & _).
           apply lookup_app_l. apply lookup_lt_Some in Htm. exact Htm.
    + intros ->. simpl. split; reflexivity.
    + intros Hnz. destruct (Z.eqb_spec t 0) as [| _]; [contradiction |].
      split; [reflexivity |].
      unfold setDeadline_post, upd_fdc. rewrite (proj2 (Z.eqb_neq t 0) Hnz).
      destruct (timer (fdc write (file s))) as [id |] eqn:Ht;
        cbn [file set_file set_timers timers].
      * exists id. split; [exact Ht |].
        rewrite !list_lookup_alter_eq.
        destruct W as [_ W2]. destruct (W2 _ _ Ht) as (tm & Htm & Hw).
        rewrite Htm. simpl. unfold rearmed. simpl. rewrite Hw. reflexivity.
      * exists (length (timers s)). split; [reflexivity |].
        rewrite lookup_app_r by lia. rewrite Nat.sub_diag. reflexivity.
Qed.

Lemma timers_wf_fresh (bk : backend) (d : Z) (ks : list kresp)
    (e : list (list action)) :
  timers_wf (fresh bk d ks e).
Proof.
  destruct bk; split.
  - intros id tm H. destruct id; discriminate H.
  - intros write id H. destruct write; discriminate H.
  - intros id tm H. destruct id; discriminate H.
  - intros write id H. destruct write; discriminate H.
Qed.

(** A deadline set, then replaced: one pending timer each time; then
    cleared: none. *)
Lemma setDeadline_spec_witness :
  let s0 := fresh EpollBuild 5 [] [] in
  let s1 := final (SetReadDeadline 150 s0) in
  let s2 := final (SetReadDeadline 300 s1) in
  SetReadDeadline 150 s0 = Ret None s1 /\
  live_timers false s1 = 1%nat /\
  live_timers false s2 = 1%nat /\
  timers s2 = [mkTimer false 200 100 true].
Proof.
  intros s0 s1 s2.
  destruct (setDeadline_spec false 150 s0 (timers_wf_fresh EpollBuild 5 [] []))
    as [_ H1].
  destruct (H1 eq_refl) as [_ H1o].
  destruct (H1o eq_refl)
    as (s1' & Hrun & _ & _ & _ & _ & _ & Hwf1 & _ & _ & _ & Hnz).
  assert (E1 : s1' = s1) by (unfold s1; rewrite Hrun; reflexivity).
  subst s1'.
  destruct (setDeadline_spec false 300 s1 Hwf1) as [_ H2].
  destruct (H2 eq_refl) as [_ H2o].
  destruct (H2o eq_refl)
    as (s2' & Hrun2 & _ & _ & _ & _ & _ & _ & _ & _ & _ & Hnz2).
  assert (E2 : s2' = s2) by (unfold s2; rewrite Hrun2; reflexivity).
  subst s2'.
  split; [exact Hrun |].
  split; [apply Hnz; discriminate |].
  split; [apply Hnz2; discriminate |].
  reflexivity.
Defined.

(** *** The agreement of timers and pointers is an invariant *)

Lemma keeps_wf_ret {A : Type} (a : A) : keeps_wf (ret a).
Proof. intros s H. exact H. Qed.

Lemma keeps_wf_get : keeps_wf get.
Proof. intros s H. exact H. Qed.

Lemma keeps_wf_bind {A B : Type} (c : M A) (k : A -> M B) :
  keeps_wf c -> (forall a, keeps_wf (k a)) -> keeps_wf (bind c k).
Proof.
  intros Hc Hk s Hs. unfold bind. specialize (Hc s Hs).
  destruct (c s) as [a s' | s' | s' | s']; simpl in *; try exact Hc.
  apply Hk. exact Hc.
Qed.

Lemma keeps_wf_modify (g : World -> World) :
  (forall s, timers_wf s -> timers_wf (g s)) -> keeps_wf (modify g).
Proof. intros H s Hs. apply H. exact Hs. Qed.

Lemma keeps_wf_blocked {A : Type} : keeps_wf (fun s => @Blocked A s).
Proof. intros s H. exact H. Qed.

Lemma timers_wf_upd_fdc (write : bool) (g : fdCtl -> fdCtl) (s : World) :
  (forall c, timer (g c) = timer c) ->
  timers_wf s -> timers_wf (upd_fdc write g s).
Proof.
  intros Hg Hs. unfold upd_fdc. apply timers_wf_file; [| exact Hs].
  intros wr. apply timer_fdc_set_fdc. apply Hg.
Qed.

Lemma keeps_wf_condL_Lock (write : bool) : keeps_wf (condL_Lock write).
Proof.
  intros s Hs. unfold condL_Lock. destruct (L _); simpl; [exact Hs |].
  apply timers_wf_upd_fdc; [reflexivity | exact Hs].
Qed.

Lemma keeps_wf_condL_Unlock (write : bool) : keeps_wf (condL_Unlock write).
Proof.
  intros s Hs. unfold condL_Unlock. destruct (L _); simpl; [| exact Hs].
  apply timers_wf_upd_fdc; [reflexivity | exact Hs].
Qed.

Lemma keeps_wf_m_Lock (write : bool) : keeps_wf (m_Lock write).
Proof.
  intros s Hs. unfold m_Lock. destruct (m _); simpl; [exact Hs |].
  apply timers_wf_upd_fdc; [reflexivity | exact Hs].
Qed.

Lemma keeps_wf_m_Unlock (write : bool) : keeps_wf (m_Unlock write).
Proof.
  intros s Hs. unfold m_Unlock. destruct (m _); simpl; [| exact Hs].
  apply timers_wf_upd_fdc; [reflexivity | exact Hs].
Qed.

Lemma keeps_wf_timer_Stop (id : nat) : keeps_wf (timer_Stop id).
Proof.
  intros s Hs. unfold timer_Stop, modify. simpl.
  assert (E : set_timers (alter stopped id (timers s)) s =
              set_file (file s) (set_timers (alter stopped id (timers s)) s))
    by reflexivity.
  rewrite E. apply timers_wf_alter; auto.
Qed.

Lemma keeps_wf_setDeadline (write : bool) (t : Time) :
  keeps_wf (setDeadline write t).
Proof.
  intros s Hs.
  destruct (L (cond (fdc write (file s)))) eqn:HL.
  - rewrite setDeadline_blocked by exact HL. exact Hs.
  - destruct (closed (file s)) eqn:Hc.
    + rewrite setDeadline_on_closed by assumption. exact Hs.
    + rewrite setDeadline_open by assumption.
      apply setDeadline_post_wf. exact Hs.
Qed.

Ltac keeps_wf_step :=
  match goal with
  | |- keeps_wf (bind _ _) => apply keeps_wf_bind; [| intros ?]
  | |- keeps_wf (ret _) => apply keeps_wf_ret
  | |- keeps_wf get => apply keeps_wf_get
  | |- keeps_wf (fun s => Blocked s) => apply keeps_wf_blocked
  | |- keeps_wf (condL_Lock _) => apply keeps_wf_condL_Lock
  | |- keeps_wf (condL_Unlock _) => apply keeps_wf_condL_Unlock
  | |- keeps_wf (m_Lock _) => apply keeps_wf_m_Lock
  | |- keeps_wf (m_Unlock _) => apply keeps_wf_m_Unlock
  | |- keeps_wf (timer_Stop _) => apply keeps_wf_timer_Stop
  | |- keeps_wf (setDeadline _ _) => apply keeps_wf_setDeadline
  | |- keeps_wf (modify (upd_fdc _ _)) =>
      apply keeps_wf_modify; intros ? ?;
      apply timers_wf_upd_fdc; [reflexivity | assumption]
  | |- keeps_wf (modify _) =>
      apply keeps_wf_modify; intros ? ?; assumption
  | |- keeps_wf (if ?b then _ else _) => destruct b
  | |- keeps_wf (match ?o with Some _ => _ | None => _ end) => destruct o
  | |- keeps_wf (match ?o with EpollBuild => _ | SelectBuild => _ end) => destruct o
  | |- keeps_wf (match ?o with [] => _ | _ :: _ => _ end) => destruct o
  end.

Ltac keeps_wf_tac := repeat keeps_wf_step.

Lemma keeps_wf_timerEvent (write : bool) : keeps_wf (timerEvent write).
Proof. unfold timerEvent, Broadcast. keeps_wf_tac. Qed.

Lemma keeps_wf_Lock : keeps_wf Lock.
Proof. unfold Lock. keeps_wf_tac. Qed.

Lemma keeps_wf_Unlock : keeps_wf Unlock.
Proof. unfold Unlock. keeps_wf_tac. Qed.

Lemma keeps_wf_Close (bk : backend) : keeps_wf (Close bk).
Proof.
  unfold Close, unregister, EpollB.unregister, SelectB.unregister,
    stop_timer, Broadcast.
  apply keeps_wf_bind; [apply keeps_wf_Lock |].
  intros [e |]; [apply keeps_wf_ret |].
  apply keeps_wf_bind;
    [| intros ?; apply keeps_wf_bind;
       [apply keeps_wf_Unlock | intros ?; apply keeps_wf_ret]].
  apply keeps_wf_bind; [apply keeps_wf_get | intros s0].
  destruct (closed (file s0)); [apply keeps_wf_ret |].
  apply keeps_wf_bind.
  { apply keeps_wf_modify. intros s Hs.
    apply timers_wf_file; [| exact Hs]. intros []; reflexivity. }
  intros _. keeps_wf_tac.
Qed.

Lemma keeps_wf_startTrack (bk : backend) (d : Z) (write : bool) :
  keeps_wf (startTrack bk d write).
Proof.
  unfold startTrack, EpollB.startTrack, SelectB.startTrack, SelectB.wakeup.
  destruct bk; [apply keeps_wf_ret |].
  apply keeps_wf_bind; [apply keeps_wf_get | intros s0].
  destruct write; keeps_wf_tac.
Qed.

Lemma keeps_wf_stopTrack (bk : backend) (d : Z) (write : bool) :
  keeps_wf (stopTrack bk d write).
Proof.
  unfold stopTrack, EpollB.stopTrack, SelectB.stopTrack, SelectB.wakeup.
  destruct bk; [apply keeps_wf_ret |].
  apply keeps_wf_bind; [apply keeps_wf_get | intros s0].
  destruct write; keeps_wf_tac.
Qed.

Lemma keeps_wf_evReady (bk : backend) (write : bool) :
  keeps_wf (evReady bk write).
Proof.
  unfold evReady, EpollB.epollEv, SelectB.evReady, Broadcast.
  destruct bk.
  - apply keeps_wf_bind; [apply keeps_wf_get | intros s0]. keeps_wf_tac.
  - apply keeps_wf_bind; [apply keeps_wf_get | intros s0].
    destruct write; keeps_wf_tac.
Qed.

Lemma keeps_wf_run_action (bk : backend) (a : action) :
  keeps_wf (run_action bk a).
Proof.
  destruct a; simpl;
    unfold SetDeadline, SetReadDeadline, SetWriteDeadline, timer_fire.
  - keeps_wf_tac.
  - apply keeps_wf_bind; [apply keeps_wf_Close | intros; apply keeps_wf_ret].
  - keeps_wf_tac.
  - keeps_wf_tac.
  - keeps_wf_tac.
  - apply keeps_wf_bind; [apply keeps_wf_Lock | intros; apply keeps_wf_ret].
  - apply keeps_wf_Unlock.
  - apply keeps_wf_bind; [apply keeps_wf_get | intros s0].
    destruct (timers s0 !! id) as [t |]; [| apply keeps_wf_ret].
    destruct (tm_live t && _); [| apply keeps_wf_ret].
    apply keeps_wf_bind; [apply keeps_wf_timer_Stop | intros _].
    apply keeps_wf_timerEvent.
  - apply keeps_wf_timerEvent.
  - apply keeps_wf_evReady.
Qed.

Lemma keeps_wf_run_actions (bk : backend) (l : list action) :
  keeps_wf (run_actions bk l).
Proof.
  induction l as [| a l IH]; simpl; [apply keeps_wf_ret |].
  apply keeps_wf_bind; [apply keeps_wf_run_action | intros _; exact IH].
Qed.

Lemma keeps_wf_cond_Wait (bk : backend) (write : bool) :
  keeps_wf (cond_Wait bk write).
Proof.
  unfold cond_Wait.
  apply keeps_wf_bind; [apply keeps_wf_condL_Unlock | intros _].
  apply keeps_wf_bind; [apply keeps_wf_get | intros s0].
  destruct (env s0) as [| batch rest]; [apply keeps_wf_blocked |].
  apply keeps_wf_bind; [keeps_wf_tac | intros _].
  apply keeps_wf_bind; [apply keeps_wf_run_actions | intros _].
  keeps_wf_tac.
Qed.

Lemma keeps_wf_sysrw_loop (fuel : nat) (bk : backend) (write : bool)
    (p : list byte) (errEOF : error) :
  keeps_wf (sysrw_loop fuel bk write p errEOF).
Proof.
  induction fuel as [| fuel IH]; [intros s H; exact H |].
  cbn -[rwfun startTrack stopTrack cond_Wait bind].
  apply keeps_wf_bind; [apply keeps_wf_get | intros s0].
  destruct (closed (file s0)); [apply keeps_wf_ret |].
  destruct (timeout (fdc write (file s0))); [apply keeps_wf_ret |].
  apply keeps_wf_bind; [intros s H; exact H | intros res].
  destruct (snd res) as [err |]; [| keeps_wf_tac].
  destruct (negb (error_eqb err EAGAIN)); [apply keeps_wf_ret |].
  apply keeps_wf_bind; [apply keeps_wf_startTrack | intros _].
  apply keeps_wf_bind; [apply keeps_wf_cond_Wait | intros _].
  apply keeps_wf_bind; [apply keeps_wf_get | intros s1].
  apply keeps_wf_bind; [| intros _; exact IH].
  destruct (closed (file s1) || timeout (fdc write (file s1)));
    [apply keeps_wf_stopTrack | apply keeps_wf_ret].
Qed.

Lemma keeps_wf_sysrw (bk : backend) (write : bool) (p : list byte) :
  keeps_wf (sysrw bk write p).
Proof.
  unfold sysrw.
  apply keeps_wf_bind; [apply keeps_wf_condL_Lock | intros _].
  apply keeps_wf_bind; [apply keeps_wf_get | intros s0].
  apply keeps_wf_bind; [apply keeps_wf_sysrw_loop | intros res].
  keeps_wf_tac.
Qed.

Lemma keeps_wf_Write_gap (bk : backend) : keeps_wf (Write_gap bk).
Proof.
  unfold Write_gap.
  apply keeps_wf_bind; [apply keeps_wf_get | intros s0].
  destruct (env s0) as [| batch rest]; [apply keeps_wf_ret |].
  apply keeps_wf_bind; [keeps_wf_tac | intros _].
  apply keeps_wf_run_actions.
Qed.

Lemma keeps_wf_Write_loop (fuel : nat) (bk : backend) (p : list byte) (n : Z) :
  keeps_wf (Write_loop fuel bk p n).
Proof.
  revert n. induction fuel as [| fuel IH]; intros n; [intros s H; exact H |].
  cbn -[sysrw slice_from].
  destruct (negb (n =? len p)); [| apply keeps_wf_ret].
  destruct (slice_from p n) as [q |]; [| intros s H; exact H].
  apply keeps_wf_bind; [apply keeps_wf_sysrw | intros res].
  destruct (snd res); [apply keeps_wf_ret |].
  apply keeps_wf_bind; [| intros _; apply IH].
  destruct (negb _); [apply keeps_wf_Write_gap | apply keeps_wf_ret].
Qed.

Lemma keeps_wf_run_call (bk : backend) (c : call) : keeps_wf (run_call bk c).
Proof.
  destruct c; simpl;
    unfold Read, Write, SetDeadline, SetReadDeadline, SetWriteDeadline.
  - apply keeps_wf_bind; [| intros; apply keeps_wf_ret].
    apply keeps_wf_bind; [apply keeps_wf_m_Lock | intros _].
    apply keeps_wf_bind; [apply keeps_wf_sysrw | intros res]. keeps_wf_tac.
  - apply keeps_wf_bind; [| intros; apply keeps_wf_ret].
    apply keeps_wf_bind; [apply keeps_wf_m_Lock | intros _].
    apply keeps_wf_bind; [apply keeps_wf_Write_loop | intros res].
    keeps_wf_tac.
  - apply keeps_wf_Close.
  - keeps_wf_tac.
  - keeps_wf_tac.
  - keeps_wf_tac.
  - apply keeps_wf_Lock.
Qed.

(** From a new File on, whatever is called and whatever the other
    goroutines do, the timers and the pointers agree: no direction ever
    has two timers. *)
Lemma later_timers_wf (bk : backend) (s s' : World) :
  later bk s s' -> timers_wf s ->
  timers_wf s' /\ forall write, (live_timers write s' <= 1)%nat.
Proof.
  induction 1 as [s | s s1 s2 c e Hc _ IH | s s1 s2 a Ha _ IH]; intros Hs.
  - split; [exact Hs |]. intros write. apply live_timers_le_1. exact Hs.
  - apply IH. pose proof (keeps_wf_run_call bk c s Hs) as H.
    rewrite Hc in H. exact H.
  - apply IH. pose proof (keeps_wf_run_action bk a s Hs) as H.
    rewrite Ha in H. exact H.
Qed.

(** ** What the rest of the process cannot do to a Read or Write *)

Lemma quiet_refl (s : World) : quiet s s.
Proof. repeat split; auto. Qed.

Lemma quiet_trans (s1 s2 s3 : World) :
  quiet s1 s2 -> quiet s2 s3 -> quiet s1 s3.
Proof.
  intros (A1 & A2 & A3 & A4 & A5) (B1 & B2 & B3 & B4 & B5).
  repeat split; try congruence; auto.
Qed.

Lemma preserves_ret {A : Type} (a : A) : preserves (ret a).
Proof. intros s. split; [apply quiet_refl | discriminate]. Qed.

Lemma preserves_get : preserves get.
Proof. intros s. split; [apply quiet_refl | discriminate]. Qed.

Lemma preserves_bind {A B : Type} (c : M A) (k : A -> M B) :
  preserves c -> (forall a, preserves (k a)) -> preserves (bind c k).
Proof.
  intros Hc Hk s. unfold bind. destruct (Hc s) as [Hq Hn].
  destruct (c s) as [a s' | s' | s' | s']; simpl in *;
    try (split; [exact Hq | discriminate]).
  - destruct (Hk a s') as [Hq' Hn'].
    split; [eapply quiet_trans; eassumption | exact Hn'].
  - exfalso. apply (Hn s'). reflexivity.
Qed.

Lemma preserves_modify (g : World -> World) :
  (forall s, quiet s (g s)) -> preserves (modify g).
Proof. intros H s. split; [apply H | discriminate]. Qed.

Lemma quiet_upd_fdc (write : bool) (g : fdCtl -> fdCtl) (s : World) :
  (forall c, m (g c) = m c) ->
  quiet s (upd_fdc write g s).
Proof.
  intros Hg. unfold upd_fdc. repeat split; simpl.
  - rewrite closed_set_fdc. auto.
  - intros wr. destruct write, wr; simpl; auto.
Qed.

Lemma preserves_condL_Lock (write : bool) : preserves (condL_Lock write).
Proof.
  intros s. unfold condL_Lock.
  destruct (L _); simpl; (split; [| discriminate]);
    [apply quiet_refl | apply quiet_upd_fdc; reflexivity].
Qed.

Lemma preserves_condL_Unlock (write : bool) : preserves (condL_Unlock write).
Proof.
  intros s. unfold condL_Unlock.
  destruct (L _); simpl; (split; [| discriminate]);
    [apply quiet_upd_fdc; reflexivity | apply quiet_refl].
Qed.

Lemma preserves_Broadcast (write : bool) : preserves (Broadcast write).
Proof.
  apply preserves_modify. intros s. apply quiet_upd_fdc. reflexivity.
Qed.

Lemma preserves_timer_Stop (id : nat) : preserves (timer_Stop id).
Proof. apply preserves_modify. intros s. repeat split; auto. Qed.

Lemma preserves_timer_Reset (id : nat) (d : Z) : preserves (timer_Reset id d).
Proof. apply preserves_modify. intros s. repeat split; auto. Qed.

Lemma preserves_AfterFunc (d : Z) (write : bool) : preserves (AfterFunc d write).
Proof. intros s. split; [repeat split; auto | discriminate]. Qed.

Lemma preserves_wakeup : preserves SelectB.wakeup.
Proof. apply preserves_modify. intros s. repeat split; auto. Qed.

Ltac preserves_step :=
  match goal with
  | |- preserves (bind _ _) => apply preserves_bind; [| intros ?]
  | |- preserves (ret _) => apply preserves_ret
  | |- preserves get => apply preserves_get
  | |- preserves (condL_Lock _) => apply preserves_condL_Lock
  | |- preserves (condL_Unlock _) => apply preserves_condL_Unlock
  | |- preserves (Broadcast _) => apply preserves_Broadcast
  | |- preserves (timer_Stop _) => apply preserves_timer_Stop
  | |- preserves (timer_Reset _ _) => apply preserves_timer_Reset
  | |- preserves (AfterFunc _ _) => apply preserves_AfterFunc
  | |- preserves SelectB.wakeup => apply preserves_wakeup
  | |- preserves (modify (upd_fdc _ _)) =>
      apply preserves_modify; intros ?; apply quiet_upd_fdc; reflexivity
  | |- preserves (modify _) =>
      apply preserves_modify; intros ?; repeat split; auto
  | |- preserves (if ?b then _ else _) => destruct b
  | |- preserves (match ?o with Some _ => _ | None => _ end) => destruct o
  | |- preserves (match ?o with EpollBuild => _ | SelectBuild => _ end) => destruct o
  end.

Ltac preserves_tac := repeat preserves_step.

Lemma preserves_timerEvent (write : bool) : preserves (timerEvent write).
Proof. unfold timerEvent. preserves_tac. Qed.

Lemma preserves_setDeadline (write : bool) (t : Time) :
  preserves (setDeadline write t).
Proof. unfold setDeadline. preserves_tac. Qed.

Lemma preserves_SetDeadline (t : Time) : preserves (SetDeadline t).
Proof.
  unfold SetDeadline, SetReadDeadline, SetWriteDeadline.
  apply preserves_bind; [apply preserves_setDeadline |].
  intros [e |]; [apply preserves_ret | apply preserves_setDeadline].
Qed.

Lemma preserves_Lock : preserves Lock.
Proof. unfold Lock. preserves_tac. Qed.

Lemma preserves_Unlock : preserves Unlock.
Proof. unfold Unlock. preserves_tac. Qed.

Lemma preserves_unregister (bk : backend) : preserves (unregister bk).
Proof.
  unfold unregister, EpollB.unregister, SelectB.unregister. preserves_tac.
Qed.

Lemma preserves_Close (bk : backend) : preserves (Close bk).
Proof.
  unfold Close.
  apply preserves_bind; [apply preserves_Lock |].
  intros [e |]; [apply preserves_ret |].
  apply preserves_bind; [| intros ?; apply preserves_bind;
                           [apply preserves_Unlock | intros ?; apply preserves_ret]].
  apply preserves_bind; [apply preserves_get | intros s0].
  destruct (closed (file s0)); [apply preserves_ret |].
  apply preserves_bind.
  { apply preserves_modify. intros s. repeat split; auto. }
  intros _. apply preserves_bind; [apply preserves_unregister | intros _].
  unfold stop_timer. preserves_tac.
Qed.

Lemma preserves_startTrack (bk : backend) (d : Z) (write : bool) :
  preserves (startTrack bk d write).
Proof.
  unfold startTrack, EpollB.startTrack, SelectB.startTrack.
  destruct bk; [apply preserves_ret |].
  apply preserves_bind; [apply preserves_get | intros s0].
  destruct write; preserves_tac.
Qed.

Lemma preserves_stopTrack (bk : backend) (d : Z) (write : bool) :
  preserves (stopTrack bk d write).
Proof.
  unfold stopTrack, EpollB.stopTrack, SelectB.stopTrack.
  destruct bk; [apply preserves_ret |].
  apply preserves_bind; [apply preserves_get | intros s0].
  destruct write; preserves_tac.
Qed.

Lemma preserves_evReady (bk : backend) (write : bool) :
  preserves (evReady bk write).
Proof.
  unfold evReady, EpollB.epollEv, SelectB.evReady.
  destruct bk.
  - apply preserves_bind; [apply preserves_get | intros s0]. preserves_tac.
  - apply preserves_bind; [apply preserves_get | intros s0].
    destruct write; preserves_tac.
Qed.

Lemma preserves_timer_fire (id : nat) : preserves (timer_fire id).
Proof.
  unfold timer_fire.
  apply preserves_bind; [apply preserves_get | intros s0].
  destruct (timers s0 !! id) as [t |]; [| apply preserves_ret].
  destruct (tm_live t && _); [| apply preserves_ret].
  apply preserves_bind; [apply preserves_timer_Stop | intros _].
  apply preserves_timerEvent.
Qed.

Lemma preserves_run_action (bk : backend) (a : action) :
  preserves (run_action bk a).
Proof.
  destruct a; simpl.
  - apply preserves_modify. intros s. repeat split; auto.
  - apply preserves_bind; [apply preserves_Close | intros; apply preserves_ret].
  - apply preserves_bind; [apply preserves_SetDeadline | intros; apply preserves_ret].
  - apply preserves_bind; [apply preserves_setDeadline | intros; apply preserves_ret].
  - apply preserves_bind; [apply preserves_setDeadline | intros; apply preserves_ret].
  - apply preserves_bind; [apply preserves_Lock | intros; apply preserves_ret].
  - apply preserves_Unlock.
  - apply preserves_timer_fire.
  - apply preserves_timerEvent.
  - apply preserves_evReady.
Qed.

Lemma preserves_run_actions (bk : backend) (l : list action) :
  preserves (run_actions bk l).
Proof.
  induction l as [| a l IH]; simpl; [apply preserves_ret |].
  apply preserves_bind; [apply preserves_run_action | intros _; exact IH].
Qed.

(** [stopTrack] and [startTrack] return, and leave the File alone. *)
Lemma stopTrack_file (bk : backend) (d : Z) (write : bool) (s : World) :
  exists s', stopTrack bk d write s = Ret tt s' /\ file s' = file s.
Proof.
  unfold stopTrack, EpollB.stopTrack, SelectB.stopTrack, SelectB.wakeup,
    bind, get, modify, ret.
  destruct bk; [eexists; split; reflexivity |].
  destruct write; simpl;
    match goal with |- context [bool_decide ?P] => destruct (bool_decide P) end;
    eexists; split; reflexivity.
Qed.

Lemma startTrack_file (bk : backend) (d : Z) (write : bool) (s : World) :
  exists s', startTrack bk d write s = Ret tt s' /\ file s' = file s.
Proof.
  unfold startTrack, EpollB.startTrack, SelectB.startTrack, SelectB.wakeup,
    bind, get, modify, ret.
  destruct bk; [eexists; split; reflexivity |].
  destruct write; simpl;
    match goal with |- context [bool_decide ?P] => destruct (bool_decide P) end;
    eexists; split; reflexivity.
Qed.

(** A sleeper that comes back holds the lock again and has used up a
    batch of [env]. *)
Lemma cond_Wait_spec (bk : backend) (write : bool) (s : World) :
  let o := cond_Wait bk write s in
  syscalls (trace (final o)) = syscalls (trace s) /\
  kern (final o) = kern s /\
  (closed (file s) = true -> closed (file (final o)) = true) /\
  (forall wr, m (fdc wr (file (final o))) = m (fdc wr (file s))) /\
  match o with
  | Ret _ s' =>
      L (cond (fdc write (file s'))) = true /\
      (length (env s') < length (env s))%nat
  | NoFuel _ => False
  | _ => True
  end.
Proof.
  unfold cond_Wait, bind, condL_Unlock, get, modify.
  destruct (L (cond (fdc write (file s)))) eqn:HL; simpl;
    [| repeat split; auto].
  set (s0 := upd_fdc write (fun c => set_cond (set_L false (cond c)) c) s).
  assert (Hq0 : quiet s s0) by (apply quiet_upd_fdc; reflexivity).
  destruct Hq0 as (_ & _ & _ & P4 & P5).
  destruct (env s) as [| batch rest] eqn:He; simpl.
  { repeat split; auto. }
  destruct (preserves_run_actions bk batch (set_env rest s0))
    as [(Q1 & Q2 & Q3 & Q4 & Q5) NF].
  change (run_actions bk batch
            (set_env rest
               (set_file
                  (set_fdc write
                     (set_cond (set_L false (cond (fdc write (file s))))
                        (fdc write (file s))) (file s)) s)))
    with (run_actions bk batch (set_env rest s0)).
  destruct (run_actions bk batch (set_env rest s0))
    as [[] s2 | s2 | s2 | s2] eqn:Hr; cbn [final] in *;
    change (file (set_env rest s0)) with (file s0) in *;
    try (repeat split; auto; intros wr; rewrite Q5; apply P5).
  - destruct (notify (cond (fdc write (file s2))) =? _)%nat; cbn [final].
    + repeat split; auto. intros wr; rewrite Q5; apply P5.
    + unfold condL_Lock.
      destruct (L (cond (fdc write (file s2)))) eqn:HL2; cbn [final].
      * repeat split; auto. intros wr; rewrite Q5; apply P5.
      * destruct (quiet_upd_fdc write
                    (fun c => set_cond (set_L true (cond c)) c) s2)
          as (_ & _ & R3 & R4 & R5); [reflexivity |].
        repeat split; auto.
        -- intros wr. rewrite R5, Q5. apply P5.
        -- unfold upd_fdc. cbn [file set_file]. rewrite fdc_set_fdc.
           reflexivity.
        -- rewrite R3, Q3. simpl. lia.
  - exfalso. apply (NF s2). reflexivity.
Qed.

(** ** The retry loop *)

Lemma error_eqb_EAGAIN (x : Z) : error_eqb (Errno x) EAGAIN = (x =? 11).
Proof. reflexivity. Qed.


(** One turn of the loop, spelled out. *)
Lemma sysrw_loop_eq (fuel : nat) (bk : backend) (write : bool)
    (p : list byte) (errEOF : error) (s : World) :
  sysrw_loop (S fuel) bk write p errEOF s =
    if closed (file s) then Ret (0, Some ErrClosed) s
    else if timeout (fdc write (file s)) then Ret (0, Some ErrTimeout) s
    else
      match rwfun write (fd (file s)) p s with
      | Ret res s1 =>
          match snd res with
          | Some err =>
              if negb (error_eqb err EAGAIN) then Ret (0, Some err) s1
              else
                match startTrack bk (fd (file s)) write s1 with
                | Ret _ s2 =>
                    match cond_Wait bk write s2 with
                    | Ret _ s3 =>
                        match (if closed (file s3) ||
                                  timeout (fdc write (file s3))
                               then stopTrack bk (fd (file s)) write
                               else ret tt) s3 with
                        | Ret _ s4 => sysrw_loop fuel bk write p errEOF s4
                        | Blocked s4 => Blocked s4
                        | Panic s4 => Panic s4
                        | NoFuel s4 => NoFuel s4
                        end
                    | Blocked s3 => Blocked s3
                    | Panic s3 => Panic s3
                    | NoFuel s3 => NoFuel s3
                    end
                | Blocked s2 => Blocked s2
                | Panic s2 => Panic s2
                | NoFuel s2 => NoFuel s2
                end
          | None =>
              if (fst res =? 0) && negb (len p =? 0)
              then Ret (fst res, Some errEOF) s1
              else Ret (fst res, None) s1
          end
      | Blocked s1 => Blocked s1
      | Panic s1 => Panic s1
      | NoFuel s1 => NoFuel s1
      end.
Proof.
  cbn -[rwfun startTrack stopTrack cond_Wait bind].
  unfold bind at 1. unfold get.
  destruct (closed (file s)); [reflexivity |].
  destruct (timeout (fdc write (file s))); [reflexivity |].
  unfold bind at 1.
  destruct (rwfun write (fd (file s)) p s) as [res s1 | | |]; try reflexivity.
  destruct (snd res) as [err |].
  - destruct (negb (error_eqb err EAGAIN)); [reflexivity |].
    unfold bind at 1.
    destruct (startTrack bk (fd (file s)) write s1); reflexivity.
  - destruct ((fst res =? 0) && negb (len p =? 0)); reflexivity.
Qed.

Lemma loop_post_snoc (held write : bool) (p : list byte) (errEOF : error)
    (new : list event) (e : event) (o : outcome (Z * option error)) :
  eagain_ev write p e ->
  loop_post held write p errEOF new o ->
  loop_post held write p errEOF (new ++ [e]) o.
Proof.
  intros He. unfold loop_post.
  assert (Hsn : forall l, Forall (eagain_ev write p) l ->
                          Forall (eagain_ev write p) (l ++ [e])).
  { intros l Hl. apply Forall_app. split; [exact Hl |].
    constructor; [exact He | constructor]. }
  destruct o as [res s' | s' | s' | s']; auto.
  intros [HL [H | [H | [H | H]]]]; (split; [exact HL |]).
  - destruct H as (? & ? & ?). left. auto.
  - destruct H as (? & ? & ? & ?). right; left. auto.
  - destruct H as (x & old & ? & ? & -> & ? & ?). right; right; left.
    exists x, (old ++ [e]). auto 10.
  - destruct H as (k & old & ? & -> & ? & ? & ?). right; right; right.
    exists k, (old ++ [e]). auto 10.
Qed.

(** The loop of [sysrw], entered with the lock held: the calls it issues
    are all made with both flags clear and the lock held, all but the
    last are would-blocks, and the last one decides the result. *)
Lemma sysrw_loop_spec (bk : backend) (write : bool) (p : list byte)
    (errEOF : error) (fuel : nat) (s : World) :
  L (cond (fdc write (file s))) = true ->
  (length (env s) < fuel)%nat ->
  exists new,
    syscalls (trace (final (sysrw_loop fuel bk write p errEOF s))) =
      new ++ syscalls (trace s) /\
    (forall wr, m (fdc wr (file (final (sysrw_loop fuel bk write p errEOF s))))
                = m (fdc wr (file s))) /\
    (closed (file s) = false -> timeout (fdc write (file s)) = false ->
     exists new0 k err,
       new = new0 ++ [EvSyscall write p k err (mkSnap false false true)]) /\
    loop_post true write p errEOF new (sysrw_loop fuel bk write p errEOF s).
Proof.
  revert s. induction fuel as [| fuel IH]; intros s HL Hfuel; [lia |].
  rewrite sysrw_loop_eq.
  destruct (closed (file s)) eqn:Hcl.
  { exists []. simpl. split; [reflexivity |]. split; [reflexivity |].
    split; [discriminate |]. split; [exact HL |]. left. auto. }
  destruct (timeout (fdc write (file s))) eqn:Hto.
  { exists []. simpl. split; [reflexivity |]. split; [reflexivity |].
    split; [intros _ Hx; discriminate Hx |]. split; [exact HL |].
    right; left. auto. }
  unfold rwfun. rewrite Hcl, Hto, HL.
  set (res := match kern s with
              | [] => (-1, Some EAGAIN)
              | k :: _ => kernel_result k p
              end).
  set (ev := EvSyscall write p (fst res) (snd res) (mkSnap false false true)).
  set (s1 := log ev (set_kern (tail (kern s)) s)).
  assert (Hs1 : syscalls (trace s1) = ev :: syscalls (trace s)) by reflexivity.
  assert (HL1 : L (cond (fdc write (file s1))) = true) by exact HL.
  assert (Hfl1 : closed (file s1) = false /\
                 timeout (fdc write (file s1)) = false) by (split; assumption).
  assert (Hres : (exists k, 0 <= k <= len p /\ res = (k, None)) \/
                 (exists x, res = (-1, Some (Errno x)))).
  { subst res. destruct (kern s) as [| [k | x] ks]; simpl.
    - right. exists 11. reflexivity.
    - left. exists (Z.min (Z.of_nat k) (len p)). unfold len.
      split; [lia | reflexivity].
    - right. exists x. reflexivity. }
  destruct Hres as [(k & Hk & Hr) | (x & Hr)].
  - (* the call succeeded *)
    exists [ev]. subst ev. rewrite Hr in *. simpl snd. simpl fst.
    destruct ((k =? 0) && negb (len p =? 0)) eqn:Hz; cbn [final];
      (split; [exact Hs1 |]); (split; [reflexivity |]);
      (split; [intros _ _; exists [], k, None; reflexivity |]);
      (split; [exact HL1 |]);
      right; right; right; exists k, []; rewrite Hz; auto 10.
  - subst ev. rewrite Hr in *. simpl snd in *. simpl fst in *.
    cbv beta iota. rewrite error_eqb_EAGAIN.
    destruct (Z.eqb_spec x 11) as [-> | Hx]; simpl negb; cbv iota.
    + (* would block *)
      set (ev := EvSyscall write p (-1) (Some (Errno 11))
                           (mkSnap false false true)) in *.
      assert (Hev : eagain_ev write p ev) by reflexivity.
      destruct (preserves_startTrack bk (fd (file s)) write s1)
        as [(Q1 & Q2 & Q3 & Q4 & Q5) NF].
      destruct (startTrack bk (fd (file s)) write s1)
        as [[] s2 | s2 | s2 | s2]; cbn [final] in Q1, Q3, Q5 |- *;
        try (exists [ev]; split; [rewrite Q1; exact Hs1 |];
             split; [exact Q5 |];
             split; [intros _ _; exists [], (-1), (Some (Errno 11));
                     reflexivity | repeat constructor]; fail);
        try (exfalso; apply (NF s2); reflexivity).
      destruct (cond_Wait_spec bk write s2) as (C1 & C2 & C3 & C5 & C4).
      destruct (cond_Wait bk write s2)
        as [[] s3 | s3 | s3 | s3]; cbn [final] in C1, C4, C5 |- *;
        try (exists [ev]; split; [rewrite C1, Q1; exact Hs1 |];
             split; [intros wr; rewrite C5; apply Q5 |];
             split; [intros _ _; exists [], (-1), (Some (Errno 11));
                     reflexivity | repeat constructor]; fail);
        try contradiction.
      destruct C4 as [HL3 Henv].
      assert (Hst : exists s4,
                 (if closed (file s3) || timeout (fdc write (file s3))
                  then stopTrack bk (fd (file s)) write
                  else ret tt) s3 = Ret tt s4 /\
                 file s4 = file s3 /\ quiet s3 s4).
      { destruct (closed (file s3) || timeout (fdc write (file s3))).
        - destruct (stopTrack_file bk (fd (file s)) write s3) as (s4 & E & F).
          exists s4. split; [exact E |]. split; [exact F |].
          destruct (preserves_stopTrack bk (fd (file s)) write s3) as [R _].
          rewrite E in R. exact R.
        - exists s3. split; [reflexivity |]. split; [reflexivity |].
          apply quiet_refl. }
      destruct Hst as (s4 & -> & Hf4 & (R1 & R2 & R3 & R4 & R5)).
      destruct (IH s4) as (new & Hnew & Hm & _ & Hpost).
      * rewrite Hf4. exact HL3.
      * rewrite R3. rewrite Q3 in Henv. change (env s1) with (env s) in Henv.
        lia.
      * exists (new ++ [ev]). split; [| split; [| split]].
        -- rewrite Hnew, R1, C1, Q1, Hs1, <- app_assoc. reflexivity.
        -- intros wr. rewrite Hm, R5, C5. apply Q5.
        -- intros _ _. exists new, (-1), (Some (Errno 11)). reflexivity.
        -- apply loop_post_snoc; assumption.
    + (* a real error *)
      exists [EvSyscall write p (-1) (Some (Errno x)) (mkSnap false false true)].
      cbn [final]. split; [exact Hs1 |]. split; [reflexivity |].
      split; [intros _ _; exists [], (-1), (Some (Errno x)); reflexivity |].
      split; [exact HL1 |].
      right; right; left. exists x, []. auto 10.
Qed.

(** [sysrw] spelled out: take the lock, run the loop, give the lock back. *)
Lemma sysrw_eq (bk : backend) (write : bool) (p : list byte) (s : World) :
  sysrw bk write p s =
    if L (cond (fdc write (file s))) then Blocked s
    else
      let s0 := upd_fdc write (fun c => set_cond (set_L true (cond c)) c) s in
      match sysrw_loop (sysrw_fuel s0) bk write p
                       (if write then ErrUnexpectedEOF else EOF) s0 with
      | Ret res s' =>
          if L (cond (fdc write (file s')))
          then Ret res (upd_fdc write
                          (fun c => set_cond (set_L false (cond c)) c) s')
          else Panic s'
      | Blocked s' => Blocked s'
      | Panic s' => Panic s'
      | NoFuel s' => NoFuel s'
      end.
Proof.
  unfold sysrw, bind, condL_Lock, condL_Unlock, get, ret.
  destruct (L (cond (fdc write (file s)))); [reflexivity |].
  cbv zeta.
  destruct (sysrw_loop _ bk write p _ _) as [res s' | | |]; try reflexivity.
  destruct (L (cond (fdc write (file s')))); reflexivity.
Qed.

(** [sysrw] as a whole: it needs the direction's lock, and gives it back
    when it returns. *)
Lemma sysrw_spec (bk : backend) (write : bool) (p : list byte) (s : World) :
  let errEOF := if write then ErrUnexpectedEOF else EOF in
  if L (cond (fdc write (file s))) then sysrw bk write p s = Blocked s
  else exists new,
         syscalls (trace (final (sysrw bk write p s))) =
           new ++ syscalls (trace s) /\
         (forall wr, m (fdc wr (file (final (sysrw bk write p s))))
                     = m (fdc wr (file s))) /\
         (closed (file s) = false -> timeout (fdc write (file s)) = false ->
          exists new0 k err,
            new = new0 ++ [EvSyscall write p k err (mkSnap false false true)])
         /\
         loop_post false write p errEOF new (sysrw bk write p s).
Proof.
  intros errEOF. rewrite sysrw_eq. fold errEOF.
  destruct (L (cond (fdc write (file s)))) eqn:HL; [reflexivity |].
  cbv zeta.
  set (s0 := upd_fdc write (fun c => set_cond (set_L true (cond c)) c) s).
  destruct (sysrw_loop_spec bk write p errEOF (sysrw_fuel s0) s0)
    as (new & Hnew & Hm & Hiss & Hpost).
  { unfold s0, upd_fdc. cbn [file set_file]. rewrite fdc_set_fdc. reflexivity. }
  { unfold sysrw_fuel. lia. }
  assert (Hm0 : forall wr, m (fdc wr (file s0)) = m (fdc wr (file s))).
  { apply (quiet_upd_fdc write _ s). reflexivity. }
  assert (Hiss' : closed (file s) = false ->
                  timeout (fdc write (file s)) = false ->
                  exists new0 k err,
                    new = new0 ++
                          [EvSyscall write p k err (mkSnap false false true)]).
  { intros Hc Ht. apply Hiss; unfold s0, upd_fdc; cbn [file set_file].
    - rewrite closed_set_fdc. exact Hc.
    - rewrite fdc_set_fdc. exact Ht. }
  exists new.
  destruct (sysrw_loop (sysrw_fuel s0) bk write p errEOF s0)
    as [res s' | s' | s' | s']; cbn [final] in *;
    try (split; [exact Hnew |]; split; [| split; [exact Hiss' | exact Hpost]];
         intros wr; rewrite Hm; apply Hm0).
  destruct Hpost as [HL' Hpost].
  rewrite HL'. cbn [final].
  split; [exact Hnew |]. split; [| split; [exact Hiss' |]].
  { intros wr.
    destruct (quiet_upd_fdc write
                (fun c => set_cond (set_L false (cond c)) c) s')
      as (_ & _ & _ & _ & R5); [reflexivity |].
    rewrite R5, Hm. apply Hm0. }
  unfold loop_post, upd_fdc. cbn [file set_file].
  rewrite fdc_set_fdc, closed_set_fdc. cbn [cond set_cond L set_L timeout].
  split; [reflexivity | exact Hpost].
Qed.

Lemma eagain_not_fatal (write : bool) (p : list byte) (errEOF : error)
    (l : list event) (e0 : event) (err : error) :
  Forall (eagain_ev write p) l -> In e0 l ->
  fatal_error errEOF e0 = Some err -> False.
Proof.
  intros Hl Hin Hf. rewrite List.Forall_forall in Hl.
  specialize (Hl e0 Hin). unfold eagain_ev in Hl. subst e0.
  simpl in Hf. discriminate.
Qed.

(** A call that ends the operation is its last, and the operation returns
    that call's error. *)
Lemma loop_post_fatal (held write : bool) (p : list byte) (errEOF : error)
    (new : list event) (o : outcome (Z * option error))
    (e0 : event) (err : error) :
  loop_post held write p errEOF new o ->
  In e0 new -> fatal_error errEOF e0 = Some err ->
  exists s', o = Ret (0, Some err) s'.
Proof.
  intros Hpost Hin Hf.
  destruct o as [res s' | s' | s' | s']; simpl in Hpost;
    try (exfalso; eapply eagain_not_fatal; eassumption);
    try contradiction.
  destruct Hpost as [_ [H | [H | [H | H]]]].
  - destruct H as (_ & _ & Hl). exfalso; eapply eagain_not_fatal; eassumption.
  - destruct H as (_ & _ & _ & Hl).
    exfalso; eapply eagain_not_fatal; eassumption.
  - destruct H as (x & old & _ & Hx & -> & Hl & ->).
    destruct Hin as [<- | Hin];
      [| exfalso; eapply eagain_not_fatal; eassumption].
    simpl in Hf. rewrite (proj2 (Z.eqb_neq x 11) Hx) in Hf.
    injection Hf as <-. eauto.
  - destruct H as (k & old & _ & -> & Hl & Hk & ->).
    destruct Hin as [<- | Hin];
      [| exfalso; eapply eagain_not_fatal; eassumption].
    simpl in Hf.
    destruct ((k =? 0) && negb (len p =? 0)) eqn:Hz; [| discriminate].
    injection Hf as <-.
    apply andb_prop in Hz as [Hz _]. apply Z.eqb_eq in Hz. subst k. eauto.
Qed.

(** Every call of the loop is issued with both flags clear and the lock
    held. *)
Lemma loop_post_flags (held write : bool) (p : list byte) (errEOF : error)
    (new : list event) (o : outcome (Z * option error)) :
  loop_post held write p errEOF new o ->
  Forall (fun e => exists k err,
            e = EvSyscall write p k err (mkSnap false false true)) new.
Proof.
  assert (Hea : forall l, Forall (eagain_ev write p) l ->
            Forall (fun e => exists k err,
              e = EvSyscall write p k err (mkSnap false false true)) l).
  { intros l Hl. eapply List.Forall_impl; [| exact Hl].
    intros e He. unfold eagain_ev in He. subst e. eauto. }
  intros Hpost.
  destruct o as [res s' | s' | s' | s']; simpl in Hpost; auto;
    try contradiction.
  destruct Hpost as [_ [H | [H | [H | H]]]].
  - destruct H as (_ & _ & Hl). auto.
  - destruct H as (_ & _ & _ & Hl). auto.
  - destruct H as (x & old & _ & Hx & -> & Hl & _). constructor; eauto.
  - destruct H as (k & old & _ & -> & Hl & _). constructor; eauto.
Qed.

Lemma written_eagain (p : list byte) (l : list event) :
  Forall (eagain_ev true p) l -> written l = [].
Proof.
  induction 1 as [| e l He _ IH]; [reflexivity |].
  unfold eagain_ev in He. subst e. simpl. exact IH.
Qed.

Lemma written_app (l1 l2 : list event) :
  written (l2 ++ l1) = written l1 ++ written l2.
Proof.
  induction l2 as [| e l2 IH]; simpl.
  - rewrite app_nil_r. reflexivity.
  - destruct e as [[] buf k [err |] sn | | |]; rewrite IH;
      rewrite ?app_assoc; reflexivity.
Qed.

(** What a returning [sysrw] on the write side has written. *)
Lemma loop_post_written (held : bool) (p : list byte) (new : list event)
    (res : Z * option error) (s' : World) :
  loop_post held true p ErrUnexpectedEOF new (Ret res s') ->
  L (cond (w (file s'))) = held /\
  0 <= fst res <= len p /\
  written new = take (Z.to_nat (fst res)) p /\
  (snd res = None -> 0 < fst res \/ len p = 0).
Proof.
  unfold len. intros [HL [H | [H | [H | H]]]]; (split; [exact HL |]).
  - destruct H as (-> & _ & Hl). simpl.
    rewrite (written_eagain p new Hl). repeat split; try lia. discriminate.
  - destruct H as (-> & _ & _ & Hl). simpl.
    rewrite (written_eagain p new Hl). repeat split; try lia. discriminate.
  - destruct H as (x & old & _ & Hx & -> & Hl & ->). simpl.
    rewrite (written_eagain p old Hl). repeat split; try lia. discriminate.
  - destruct H as (k & old & _ & -> & Hl & Hk & ->). simpl.
    rewrite (written_eagain p old Hl). simpl.
    unfold len in *.
    destruct ((k =? 0) && negb (Z.of_nat (length p) =? 0)) eqn:Hz; simpl;
      repeat split; try lia; try discriminate.
Qed.

(** A would-block is never what [sysrw] returns. *)
Lemma loop_post_not_eagain (held write : bool) (p : list byte)
    (new : list event) (res : Z * option error) (s' : World) :
  loop_post held write p (if write then ErrUnexpectedEOF else EOF) new
            (Ret res s') ->
  snd res <> Some EAGAIN.
Proof.
  intros [_ [H | [H | [H | H]]]].
  - destruct H as (-> & _). discriminate.
  - destruct H as (-> & _). discriminate.
  - destruct H as (x & old & _ & Hx & _ & _ & ->). simpl.
    unfold EAGAIN. congruence.
  - destruct H as (k & old & _ & _ & _ & _ & ->). simpl.
    destruct ((k =? 0) && negb (len p =? 0)); destruct write; discriminate.
Qed.

(** ** Read and Write *)

(** [Read] spelled out. *)
Lemma Read_eq (bk : backend) (p : list byte) (s : World) :
  Read bk p s =
    if m (r (file s)) then Blocked s
    else
      match sysrw bk false p (upd_fdc false (set_m true) s) with
      | Ret res s' =>
          if m (r (file s')) then Ret res (upd_fdc false (set_m false) s')
          else Panic s'
      | Blocked s' => Blocked s'
      | Panic s' => Panic s'
      | NoFuel s' => NoFuel s'
      end.
Proof.
  unfold Read, bind, m_Lock, m_Unlock, ret. simpl fdc.
  destruct (m (r (file s))); [reflexivity |].
  destruct (sysrw bk false p _) as [res s' | | |]; try reflexivity.
  destruct (m (r (file s'))); reflexivity.
Qed.

(** [Read] from a state where nobody holds the read side: [sysrw] runs
    once, and its post-condition is the one of [Read]. *)
Lemma Read_spec (bk : backend) (p : list byte) (s : World) :
  m (r (file s)) = false ->
  L (cond (r (file s))) = false ->
  exists new,
    syscalls (trace (final (Read bk p s))) = new ++ syscalls (trace s) /\
    loop_post false false p EOF new (Read bk p s).
Proof.
  intros Hm HL. rewrite Read_eq, Hm.
  set (s0 := upd_fdc false (set_m true) s).
  pose proof (sysrw_spec bk false p s0) as Hs.
  change (L (cond (fdc false (file s0)))) with (L (cond (r (file s)))) in Hs.
  rewrite HL in Hs. destruct Hs as (new & Hnew & Hmm & _ & Hpost).
  exists new.
  destruct (sysrw bk false p s0) as [res s' | s' | s' | s'];
    cbn [final] in *; try (split; [exact Hnew | exact Hpost]).
  specialize (Hmm false). simpl in Hmm. rewrite Hmm. cbn [final].
  split; [exact Hnew |].
  unfold loop_post in *. unfold upd_fdc. cbn [file set_file].
  rewrite fdc_set_fdc, closed_set_fdc. exact Hpost.
Qed.

(** What the other goroutines do between two calls of a [Write]: no
    system call on the descriptor, nothing on the mutexes [m]. *)
Lemma Write_gap_spec (bk : backend) (s : World) :
  let o := Write_gap bk s in
  syscalls (trace (final o)) = syscalls (trace s) /\
  kern (final o) = kern s /\
  (closed (file s) = true -> closed (file (final o)) = true) /\
  (forall wr, m (fdc wr (file (final o))) = m (fdc wr (file s))) /\
  (length (env (final o)) <= length (env s))%nat /\
  match o with
  | NoFuel _ => False
  | _ => True
  end.
Proof.
  unfold Write_gap, bind, get, modify.
  destruct (env s) as [| batch rest] eqn:He.
  { cbn [final ret]. rewrite He. repeat split; auto. }
  destruct (preserves_run_actions bk batch (set_env rest s))
    as [(Q1 & Q2 & Q3 & Q4 & Q5) NF].
  cbn [file set_env trace kern env] in Q1, Q2, Q3, Q4, Q5.
  destruct (run_actions bk batch (set_env rest s))
    as [[] s2 | s2 | s2 | s2] eqn:Hr; cbn [final] in *;
    try (repeat split; auto; rewrite Q3; simpl; lia).
  exfalso. apply (NF s2). reflexivity.
Qed.

(** One turn of the loop of [Write], spelled out. *)
Lemma Write_loop_eq (fuel : nat) (bk : backend) (p : list byte) (n : Z)
    (s : World) :
  Write_loop (S fuel) bk p n s =
    if negb (n =? len p)
    then match slice_from p n with
         | None => Panic s
         | Some q =>
             match sysrw bk true q s with
             | Ret res s1 =>
                 match snd res with
                 | Some err => Ret (n + fst res, Some err) s1
                 | None =>
                     if negb (n + fst res =? len p)
                     then match Write_gap bk s1 with
                          | Ret _ s2 => Write_loop fuel bk p (n + fst res) s2
                          | Blocked s2 => Blocked s2
                          | Panic s2 => Panic s2
                          | NoFuel s2 => NoFuel s2
                          end
                     else Write_loop fuel bk p (n + fst res) s1
                 end
             | Blocked s1 => Blocked s1
             | Panic s1 => Panic s1
             | NoFuel s1 => NoFuel s1
             end
         end
    else Ret (n, None) s.
Proof.
  cbn -[sysrw slice_from Write_gap].
  destruct (negb (n =? len p)); [| reflexivity].
  destruct (slice_from p n) as [q |]; [| reflexivity].
  unfold bind.
  destruct (sysrw bk true q s) as [res s1 | | |]; try reflexivity.
  destruct (snd res); [reflexivity |].
  destruct (negb (n + fst res =? len p)); reflexivity.
Qed.

Lemma take_drop_step (p : list byte) (n a b : nat) :
  take a (drop n p) ++ take b (drop (n + a) p) = take (a + b) (drop n p).
Proof. rewrite <- drop_drop. apply take_take_drop. Qed.

(** The loop of [Write], entered with [n] bytes done; when nothing is
    left to write the write lock is free. *)
Lemma Write_loop_spec (bk : backend) (p : list byte) (fuel : nat) (n : Z)
    (s : World) :
  0 <= n <= len p ->
  (Z.to_nat (len p - n) < fuel)%nat ->
  (n = len p -> L (cond (w (file s))) = false) ->
  exists new,
    syscalls (trace (final (Write_loop fuel bk p n s))) =
      new ++ syscalls (trace s) /\
    (forall wr, m (fdc wr (file (final (Write_loop fuel bk p n s))))
                = m (fdc wr (file s))) /\
    Write_post p n new (Write_loop fuel bk p n s).
Proof.
  revert n s. induction fuel as [| fuel IH]; intros n s Hn Hfuel HL; [lia |].
  rewrite Write_loop_eq.
  destruct (Z.eqb_spec n (len p)) as [-> | Hne]; simpl negb; cbv iota.
  { exists []. cbn [final]. split; [reflexivity |]. split; [reflexivity |].
    split; [constructor |]. split; [intros e0 err []|].
    split; [exact (HL eq_refl) |]. split; [lia |].
    rewrite Z.sub_diag. split; [reflexivity |].
    split; [reflexivity | discriminate]. }
  unfold slice_from.
  replace ((0 <=? n) && (n <=? len p)) with true by lia.
  set (q := drop (Z.to_nat n) p).
  assert (Hlenq : len q = len p - n).
  { unfold q, len. rewrite length_drop. unfold len in *. lia. }
  assert (Hq : q <> []).
  { intros E. rewrite E in Hlenq. simpl in Hlenq. unfold len in *. simpl in *. lia. }
  pose proof (sysrw_spec bk true q s) as Hs.
  change (L (cond (fdc true (file s)))) with (L (cond (w (file s)))) in Hs.
  destruct (L (cond (w (file s)))) eqn:HLs.
  { (* the lock is held: the call waits *)
    rewrite Hs. exists []. cbn [final]. split; [reflexivity |].
    split; [reflexivity |]. split; [constructor |].
    split; [intros e0 err [] | exact I]. }
  destruct Hs as (new1 & Hnew1 & Hm1 & _ & Hpost1).
  pose proof (loop_post_flags _ _ _ _ _ _ Hpost1) as Hfl1.
  assert (Hfl1' : Forall (fun e => exists buf k err,
             e = EvSyscall true buf k err (mkSnap false false true) /\
             buf <> []) new1).
  { eapply List.Forall_impl; [| exact Hfl1].
    intros e (k & err & ->). exists q, k, err. auto. }
  pose proof (fun e0 err => loop_post_fatal _ _ _ _ _ _ e0 err Hpost1) as Hfat1.
  pose proof (fun res s' => loop_post_not_eagain false true q new1 res s')
    as Hne1.
  destruct (sysrw bk true q s) as [res s1 | s1 | s1 | s1]; cbn [final] in *.
  - destruct (loop_post_written _ _ _ _ _ Hpost1) as (HL1 & Hk & Hw & Hpos).
    destruct res as [k [err |]]; simpl fst in *; simpl snd in *.
    + exists new1. cbn [final]. split; [exact Hnew1 |]. split; [exact Hm1 |].
      split; [exact Hfl1' |]. split.
      { intros e0 err0 Hin Hf. destruct (Hfat1 e0 err0 Hin Hf) as (s' & E).
        injection E as -> -> _. eauto. }
      split; [exact HL1 |]. split; [lia |].
      split; [| split; [discriminate | exact (Hne1 _ _ Hpost1)]].
      replace (n + k - n) with k by lia. exact Hw.
    + assert (Hkpos : 0 < k) by (destruct (Hpos eq_refl); unfold len in *; lia).
      (* the state the next turn starts in, and what led to it *)
      assert (Hgap : exists s2,
                 (syscalls (trace s2) = syscalls (trace s1) /\
                  (forall wr, m (fdc wr (file s2)) = m (fdc wr (file s1))) /\
                  (n + k = len p -> L (cond (w (file s2))) = false)) /\
                 ((if negb (n + k =? len p)
                   then match Write_gap bk s1 with
                        | Ret _ s2 => Write_loop fuel bk p (n + k) s2
                        | Blocked s2 => Blocked s2
                        | Panic s2 => Panic s2
                        | NoFuel s2 => NoFuel s2
                        end
                   else Write_loop fuel bk p (n + k) s1) =
                    Write_loop fuel bk p (n + k) s2 \/
                  (exists o : outcome (Z * option error),
                     (if negb (n + k =? len p)
                      then match Write_gap bk s1 with
                           | Ret _ s2 => Write_loop fuel bk p (n + k) s2
                           | Blocked s2 => Blocked s2
                           | Panic s2 => Panic s2
                           | NoFuel s2 => NoFuel s2
                           end
                      else Write_loop fuel bk p (n + k) s1) = o /\
                     final o = s2 /\
                     match o with
                     | Blocked _ | Panic _ => True
                     | _ => False
                     end))).
      { destruct (Z.eqb_spec (n + k) (len p)) as [E | E]; cbn [negb].
        - exists s1. split; [| left; reflexivity].
          split; [reflexivity |]. split; [reflexivity | intros _; exact HL1].
        - destruct (Write_gap_spec bk s1) as (G1 & _ & _ & G4 & _ & G6).
          cbv zeta in *.
          destruct (Write_gap bk s1) as [[] s2 | s2 | s2 | s2];
            cbn [final] in *; [| | | contradiction].
          + exists s2. split; [| left; reflexivity].
            split; [exact G1 |]. split; [exact G4 | intros; contradiction].
          + exists s2. split;
              [split; [exact G1 |]; split; [exact G4 | intros; contradiction]
              |].
            right. exists (Blocked s2). repeat split.
          + exists s2. split;
              [split; [exact G1 |]; split; [exact G4 | intros; contradiction]
              |].
            right. exists (Panic s2). repeat split. }
      destruct Hgap as (s2 & (G1 & G4 & GL) & [Ego | (o & Eo & Fo & Ho)]).
      * rewrite Ego.
        destruct (IH (n + k) s2) as (new2 & Hnew2 & Hm2 & Hpost2);
          [lia | lia | exact GL |].
        exists (new2 ++ new1). split; [| split].
        { rewrite Hnew2, G1, Hnew1, app_assoc. reflexivity. }
        { intros wr. rewrite Hm2, G4. apply Hm1. }
        destruct Hpost2 as (Hfl2 & Hfat2 & Hret2).
        split; [apply Forall_app; split; assumption |].
        split.
        { intros e0 err0 Hin Hf. apply in_app_or in Hin as [Hin | Hin].
          - exact (Hfat2 e0 err0 Hin Hf).
          - destruct (Hfat1 e0 err0 Hin Hf) as (s' & E). discriminate. }
        destruct (Write_loop fuel bk p (n + k) s2)
          as [[n' e] s' | s' | s' | s']; auto.
        destruct Hret2 as (HL2 & Hn' & Hw2 & He).
        split; [exact HL2 |]. split; [lia |]. split; [| exact He].
        rewrite written_app, Hw, Hw2. fold q.
        replace (Z.to_nat (n + k)) with (Z.to_nat n + Z.to_nat k)%nat by lia.
        unfold q. rewrite take_drop_step. f_equal. lia.
      * rewrite Eo. exists new1. rewrite Fo.
        split; [rewrite G1; exact Hnew1 |].
        split; [intros wr; rewrite G4; apply Hm1 |].
        split; [exact Hfl1' |]. split.
        { intros e0 err0 Hin Hf. destruct (Hfat1 e0 err0 Hin Hf) as (s' & E).
          discriminate. }
        destruct o; try contradiction; exact I.
  - exists new1. split; [exact Hnew1 |]. split; [exact Hm1 |].
    split; [exact Hfl1' |]. split; [| exact I].
    intros e0 err0 Hin Hf. destruct (Hfat1 e0 err0 Hin Hf) as (s' & E).
    discriminate.
  - exists new1. split; [exact Hnew1 |]. split; [exact Hm1 |].
    split; [exact Hfl1' |]. split; [| exact I].
    intros e0 err0 Hin Hf. destruct (Hfat1 e0 err0 Hin Hf) as (s' & E).
    discriminate.
  - contradiction.
Qed.

(** [Write] spelled out. *)
Lemma Write_eq (bk : backend) (p : list byte) (s : World) :
  Write bk p s =
    if m (w (file s)) then Blocked s
    else
      match Write_loop (S (length p)) bk p 0 (upd_fdc true (set_m true) s) with
      | Ret res s' =>
          if m (w (file s')) then Ret res (upd_fdc true (set_m false) s')
          else Panic s'
      | Blocked s' => Blocked s'
      | Panic s' => Panic s'
      | NoFuel s' => NoFuel s'
      end.
Proof.
  unfold Write, bind, m_Lock, m_Unlock, ret. simpl fdc.
  destruct (m (w (file s))); [reflexivity |].
  destruct (Write_loop _ bk p 0 _) as [res s' | | |]; try reflexivity.
  destruct (m (w (file s'))); reflexivity.
Qed.

(** [Write] from a state where nobody holds the write side. *)
Lemma Write_spec (bk : backend) (p : list byte) (s : World) :
  m (w (file s)) = false ->
  L (cond (w (file s))) = false ->
  exists new,
    syscalls (trace (final (Write bk p s))) = new ++ syscalls (trace s) /\
    Write_post p 0 new (Write bk p s).
Proof.
  intros Hm HL. rewrite Write_eq, Hm.
  set (s0 := upd_fdc true (set_m true) s).
  destruct (Write_loop_spec bk p (S (length p)) 0 s0)
    as (new & Hnew & Hmm & Hfl & Hfat & Hret).
  { unfold len. lia. }
  { unfold len. lia. }
  { intros _. exact HL. }
  exists new.
  destruct (Write_loop (S (length p)) bk p 0 s0)
    as [[n' e] s' | s' | s' | s']; cbn [final] in *;
    try (split; [exact Hnew |]; split; [exact Hfl |]; split; [| exact Hret];
         intros e0 err Hin Hf; destruct (Hfat e0 err Hin Hf) as (? & ? & E);
         discriminate).
  specialize (Hmm true). simpl in Hmm. rewrite Hmm. cbn [final].
  split; [exact Hnew |]. split; [exact Hfl |]. split.
  - intros e0 err Hin Hf. destruct (Hfat e0 err Hin Hf) as (n1 & s1 & E).
    injection E as -> -> ->. eauto.
  - exact Hret.
Qed.

(** ** The closed File *)

Ltac unfold_all :=
  unfold run_call, Read, Write, Close, sysrw, SetDeadline, SetReadDeadline,
    SetWriteDeadline, setDeadline, Lock, Unlock, timerEvent, timer_fire,
    stop_timer, evReady, EpollB.epollEv, SelectB.evReady, unregister,
    EpollB.unregister, SelectB.unregister, condL_Lock, condL_Unlock,
    m_Lock, m_Unlock, Broadcast, AfterFunc, timer_Stop, timer_Reset,
    sysrw_fuel, bind, ret, get, modify, upd_fdc in *.

(** On a closed, idle File [sysrw] returns [ErrClosed] at once, and the
    World stays as it is. *)
Lemma sysrw_closed (bk : backend) (write : bool) (p : list byte) (s : World) :
  closed (file s) = true ->
  L (cond (fdc write (file s))) = false ->
  sysrw bk write p s = Ret (0, Some ErrClosed) s.
Proof.
  intros Hc HL. rewrite sysrw_eq, HL. cbv zeta. unfold sysrw_fuel.
  rewrite sysrw_loop_eq. destruct_world s.
  destruct write; simpl in *; subst; reflexivity.
Qed.

Lemma Read_closed (bk : backend) (p : list byte) (s : World) :
  closed (file s) = true -> idle s ->
  Read bk p s = Ret (0, Some ErrClosed) s.
Proof.
  intros Hc (Hmr & _ & HLr & _). rewrite Read_eq, Hmr.
  rewrite sysrw_closed; [| exact Hc | exact HLr].
  simpl. f_equal. destruct_world s. simpl in *; subst; reflexivity.
Qed.

(** [Write] of an empty buffer never enters its loop. *)
Lemma Write_nil (bk : backend) (s : World) :
  m (w (file s)) = false -> Write bk [] s = Ret (0, None) s.
Proof.
  intros Hm. rewrite Write_eq, Hm. simpl.
  f_equal. destruct_world s. simpl in *; subst; reflexivity.
Qed.

(** [Close] on an open File whose locks are free goes all the way: the
    File is closed, the locks are free again, and the result is the one of
    the close callback or of the close system call. *)
Lemma Close_open (bk : backend) (s : World) :
  L (cond (r (file s))) = false -> L (cond (w (file s))) = false ->
  closed (file s) = false ->
  exists s1,
    Close bk s = Ret (match closeF (file s) with
                      | Some e => e
                      | None => kclose s
                      end) s1 /\
    closed (file s1) = true /\
    L (cond (r (file s1))) = false /\ L (cond (w (file s1))) = false /\
    m (r (file s1)) = m (r (file s)) /\ m (w (file s1)) = m (w (file s)).
Proof.
  intros HLr HLw Hc. destruct_world s. simpl in HLr, HLw, Hc. subst.
  destruct bk, rt, wt, cf; vm_compute; eexists; (split; [reflexivity |]);
    repeat split; reflexivity.
Qed.

Lemma Lock_blocked (s : World) :
  L (cond (r (file s))) = true \/ L (cond (w (file s))) = true ->
  exists s', Lock s = Blocked s'.
Proof.
  intros H. unfold Lock, bind, condL_Lock. simpl fdc.
  destruct (L (cond (r (file s)))) eqn:HLr; [eauto |].
  destruct H as [H | H]; [discriminate |].
  unfold upd_fdc. simpl. rewrite H. eauto.
Qed.

(** ** The closed File while a Read or a Write is still in progress *)

Lemma Lock_on_closed (s : World) :
  L (cond (r (file s))) = false -> L (cond (w (file s))) = false ->
  closed (file s) = true -> Lock s = Ret (Some ErrClosed) s.
Proof.
  intros HLr HLw Hc. destruct_world s. simpl in HLr, HLw, Hc. subst.
  reflexivity.
Qed.

Lemma Close_on_closed (bk : backend) (s : World) :
  L (cond (r (file s))) = false -> L (cond (w (file s))) = false ->
  closed (file s) = true -> Close bk s = Ret (Some ErrClosed) s.
Proof.
  intros HLr HLw Hc. unfold Close, bind.
  rewrite Lock_on_closed by assumption. reflexivity.
Qed.

(** A call on a closed File whose condition locks are free.  [Read] and
    [Write] first take the mutex [m] of their direction, and wait there
    while an earlier [Read] or [Write] has not returned; every other
    call, and these two once the mutex is theirs, return at once and
    leave the World as it is; only a Write of no bytes does not report
    [ErrClosed]. *)
Lemma run_call_shut (bk : backend) (c : call) (s : World) :
  closed (file s) = true ->
  L (cond (r (file s))) = false -> L (cond (w (file s))) = false ->
  run_call bk c s =
    if holds_m c s then Blocked s
    else Ret (match c with CWrite [] => None | _ => Some ErrClosed end) s.
Proof.
  intros Hc HLr HLw. unfold holds_m.
  destruct c as [p | p | | t | t | t |]; simpl.
  - unfold bind. rewrite Read_eq.
    destruct (m (r (file s))) eqn:Hm; [reflexivity |].
    rewrite sysrw_closed;
      [| destruct_world s; exact Hc | destruct_world s; exact HLr].
    simpl. f_equal. destruct_world s. simpl in *; subst; reflexivity.
  - unfold bind. rewrite Write_eq.
    destruct (m (w (file s))) eqn:Hm; [reflexivity |].
    destruct p as [| b p].
    + simpl. f_equal. destruct_world s. simpl in *; subst; reflexivity.
    + cbn [length]. rewrite Write_loop_eq.
      change (negb (0 =? len (b :: p))) with true. cbv iota.
      change (slice_from (b :: p) 0) with (Some (b :: p)). cbv iota.
      rewrite sysrw_closed;
        [| destruct_world s; exact Hc | destruct_world s; exact HLw].
      simpl. f_equal. destruct_world s. simpl in *; subst; reflexivity.
  - apply Close_on_closed; assumption.
  - unfold SetDeadline, SetReadDeadline, bind.
    rewrite (setDeadline_on_closed false t s HLr Hc). reflexivity.
  - apply (setDeadline_on_closed false t s HLr Hc).
  - apply (setDeadline_on_closed true t s HLw Hc).
  - apply Lock_on_closed; assumption.
Qed.

(** Nothing the other goroutines do reopens a closed File, leaves one of
    its condition locks taken, or touches the mutexes [m]. *)
Lemma run_action_shut (bk : backend) (a : action) (s s' : World) :
  closed (file s) = true ->
  L (cond (r (file s))) = false -> L (cond (w (file s))) = false ->
  run_action bk a s = Ret tt s' ->
  closed (file s') = true /\
  L (cond (r (file s'))) = false /\ L (cond (w (file s'))) = false /\
  m (r (file s')) = m (r (file s)) /\ m (w (file s')) = m (w (file s)).
Proof.
  intros Hc HLr HLw H.
  destruct a as [d | | t | t | t | | | id | write | write]; simpl in H.
  - injection H as <-. auto.
  - unfold bind in H. rewrite Close_on_closed in H by assumption.
    injection H as <-. auto.
  - unfold SetDeadline, SetReadDeadline, bind in H.
    rewrite (setDeadline_on_closed false t s HLr Hc) in H.
    injection H as <-. auto.
  - unfold SetReadDeadline, bind in H.
    rewrite (setDeadline_on_closed false t s HLr Hc) in H.
    injection H as <-. auto.
  - unfold SetWriteDeadline, bind in H.
    rewrite (setDeadline_on_closed true t s HLw Hc) in H.
    injection H as <-. auto.
  - unfold bind in H. rewrite Lock_on_closed in H by assumption.
    injection H as <-. auto.
  - unfold Unlock, bind, condL_Unlock in H. simpl in H.
    rewrite HLw in H. discriminate.
  - destruct_world s.
    simpl in *; subst. unfold_all. simpl in H.
    destruct (tms !! id) as [t |]; [| injection H as <-; repeat split; auto].
    destruct (tm_live t && _);
      [| injection H as <-; repeat split; auto].
    destruct (tm_write t); simpl in H; injection H as <-;
      repeat split; auto.
  - destruct_world s.
    destruct write; simpl in *; subst; unfold_all; simpl in H;
      injection H as <-; repeat split; auto.
  - destruct_world s.
    destruct bk, write; simpl in *; subst; unfold_all; simpl in H;
      repeat match type of H with
             | context [match ?o with Some _ => _ | None => _ end] =>
                 destruct o; simpl in H
             end;
      injection H as <-; repeat split; auto.
Qed.

Lemma later_shut (bk : backend) (s s' : World) :
  later bk s s' ->
  closed (file s) = true ->
  L (cond (r (file s))) = false -> L (cond (w (file s))) = false ->
  closed (file s') = true /\
  L (cond (r (file s'))) = false /\ L (cond (w (file s'))) = false /\
  m (r (file s')) = m (r (file s)) /\ m (w (file s')) = m (w (file s)).
Proof.
  induction 1 as [s | s s1 s2 c e Hc _ IH | s s1 s2 a Ha _ IH];
    intros Hcl HLr HLw.
  - auto.
  - rewrite run_call_shut in Hc by assumption.
    destruct (holds_m c s); [discriminate |].
    injection Hc as _ <-. auto.
  - destruct (run_action_shut bk a s s1 Hcl HLr HLw Ha)
      as (C1 & L1 & L2 & M1 & M2).
    destruct (IH C1 L1 L2) as (C3 & L3 & L4 & M3 & M4).
    repeat split; congruence.
Qed.

(** A [Close] that returns nil found the condition locks free, and
    leaves the File closed with these locks free again; the mutexes [m]
    are not its business. *)
Lemma Close_nil_shut (bk : backend) (s s1 : World) :
  Close bk s = Ret None s1 ->
  closed (file s) = false /\
  closed (file s1) = true /\
  L (cond (r (file s1))) = false /\ L (cond (w (file s1))) = false /\
  m (r (file s1)) = m (r (file s)) /\ m (w (file s1)) = m (w (file s)).
Proof.
  intros H.
  destruct (L (cond (r (file s)))) eqn:HLr.
  { destruct (Lock_blocked s) as (s' & E); [auto |].
    unfold Close, bind in H. rewrite E in H. discriminate. }
  destruct (L (cond (w (file s)))) eqn:HLw.
  { destruct (Lock_blocked s) as (s' & E); [auto |].
    unfold Close, bind in H. rewrite E in H. discriminate. }
  destruct (closed (file s)) eqn:Hc.
  { rewrite Close_on_closed in H by assumption. discriminate. }
  destruct (Close_open bk s HLr HLw Hc) as (s2 & E & Hc2 & L1 & L2 & M1 & M2).
  rewrite E in H. injection H as _ <-.
  repeat split; assumption.
Qed.

(** ** Runs from any state *)

Lemma flags_clear_of (write : bool) (p : list byte) (l : list event) :
  Forall (fun e => exists k err,
            e = EvSyscall write p k err (mkSnap false false true)) l ->
  Forall flags_clear l.
Proof.
  intros H. eapply List.Forall_impl; [| exact H].
  intros e (k & err & ->). reflexivity.
Qed.

(** Whatever the state [sysrw] starts in, every call it issues is made
    with both flags clear and the lock held. *)
Lemma sysrw_flags (bk : backend) (write : bool) (p : list byte) (s : World) :
  exists new,
    syscalls (trace (final (sysrw bk write p s))) = new ++ syscalls (trace s) /\
    Forall flags_clear new.
Proof.
  pose proof (sysrw_spec bk write p s) as H. cbv zeta in H.
  destruct (L (cond (fdc write (file s)))).
  - rewrite H. exists []. split; [reflexivity | constructor].
  - destruct H as (new & Hnew & _ & _ & Hpost). exists new.
    split; [exact Hnew |].
    eapply flags_clear_of, loop_post_flags, Hpost.
Qed.

(** [Read] either finds the read side free and runs [sysrw] once, or
    stops at a lock without a system call. *)
Lemma Read_any (bk : backend) (p : list byte) (s : World) :
  (exists new,
     syscalls (trace (final (Read bk p s))) = new ++ syscalls (trace s) /\
     loop_post false false p EOF new (Read bk p s)) \/
  (syscalls (trace (final (Read bk p s))) = syscalls (trace s) /\
   exists s', Read bk p s = Blocked s').
Proof.
  destruct (m (r (file s))) eqn:Hm.
  { right. rewrite Read_eq, Hm. eauto. }
  destruct (L (cond (r (file s)))) eqn:HL.
  - right. rewrite Read_eq, Hm.
    pose proof (sysrw_spec bk false p (upd_fdc false (set_m true) s)) as H.
    change (L (cond (fdc false (file (upd_fdc false (set_m true) s)))))
      with (L (cond (r (file s)))) in H.
    rewrite HL in H. rewrite H. eauto.
  - left. apply Read_spec; assumption.
Qed.

Lemma Write_loop_flags (bk : backend) (p : list byte) (fuel : nat) (n : Z)
    (s : World) :
  exists new,
    syscalls (trace (final (Write_loop fuel bk p n s))) =
      new ++ syscalls (trace s) /\
    Forall flags_clear new.
Proof.
  revert n s. induction fuel as [| fuel IH]; intros n s.
  { exists []. split; [reflexivity | constructor]. }
  rewrite Write_loop_eq.
  destruct (negb (n =? len p));
    [| exists []; split; [reflexivity | constructor]].
  destruct (slice_from p n) as [q |];
    [| exists []; split; [reflexivity | constructor]].
  destruct (sysrw_flags bk true q s) as (new1 & Hnew1 & Hfl1).
  destruct (sysrw bk true q s) as [res s1 | s1 | s1 | s1]; cbn [final] in *;
    try (exists new1; split; assumption).
  destruct (snd res); [exists new1; split; assumption |].
  destruct (negb (n + fst res =? len p)).
  - destruct (Write_gap_spec bk s1) as (G1 & _ & _ & _ & _ & G6).
    cbv zeta in *.
    destruct (Write_gap bk s1) as [[] s2 | s2 | s2 | s2]; cbn [final] in *;
      try contradiction;
      try (exists new1; split; [rewrite G1 |]; assumption).
    destruct (IH (n + fst res) s2) as (new2 & Hnew2 & Hfl2).
    exists (new2 ++ new1). split.
    + rewrite Hnew2, G1, Hnew1, app_assoc. reflexivity.
    + apply Forall_app. split; assumption.
  - destruct (IH (n + fst res) s1) as (new2 & Hnew2 & Hfl2).
    exists (new2 ++ new1). split.
    + rewrite Hnew2, Hnew1, app_assoc. reflexivity.
    + apply Forall_app. split; assumption.
Qed.

Lemma Read_flags (bk : backend) (p : list byte) (s : World) :
  exists new,
    syscalls (trace (final (Read bk p s))) = new ++ syscalls (trace s) /\
    Forall flags_clear new.
Proof.
  destruct (Read_any bk p s) as [(new & Hnew & Hpost) | [Hnew _]].
  - exists new. split; [exact Hnew |].
    eapply flags_clear_of, loop_post_flags, Hpost.
  - exists []. split; [exact Hnew | constructor].
Qed.

Lemma Write_flags (bk : backend) (p : list byte) (s : World) :
  exists new,
    syscalls (trace (final (Write bk p s))) = new ++ syscalls (trace s) /\
    Forall flags_clear new.
Proof.
  rewrite Write_eq.
  destruct (m (w (file s))); [exists []; split; [reflexivity | constructor] |].
  destruct (Write_loop_flags bk p (S (length p)) 0
              (upd_fdc true (set_m true) s)) as (new & Hnew & Hfl).
  exists new. split; [| exact Hfl].
  destruct (Write_loop _ bk p 0 _) as [res s' | s' | s' | s'];
    cbn [final] in *; try exact Hnew.
  destruct (m (w (file s'))); exact Hnew.
Qed.

(** [Write] either finds the write side free, or issues no system call. *)
Lemma Write_any (bk : backend) (p : list byte) (s : World) :
  (exists new,
     syscalls (trace (final (Write bk p s))) = new ++ syscalls (trace s) /\
     Write_post p 0 new (Write bk p s)) \/
  syscalls (trace (final (Write bk p s))) = syscalls (trace s).
Proof.
  destruct (m (w (file s))) eqn:Hm.
  { right. rewrite Write_eq, Hm. reflexivity. }
  destruct (L (cond (w (file s)))) eqn:HL.
  - right. rewrite Write_eq, Hm. cbn [length]. rewrite Write_loop_eq.
    destruct (negb (0 =? len p)).
    + destruct (slice_from p 0) as [q |]; [| reflexivity].
      pose proof (sysrw_spec bk true q (upd_fdc true (set_m true) s)) as H.
      change (L (cond (fdc true (file (upd_fdc true (set_m true) s)))))
        with (L (cond (w (file s)))) in H.
      rewrite HL in H. rewrite H. reflexivity.
    + simpl. reflexivity.
  - left. apply Write_spec; assumption.
Qed.

(** A zero-length success in a run of the loop is its last call, and
    gives the result: end of stream for a buffer that is not empty, plain
    success for an empty one. *)
Lemma loop_post_zero (held write : bool) (p : list byte) (errEOF : error)
    (new : list event) (o : outcome (Z * option error))
    (wr : bool) (buf : list byte) (sn : snapshot) :
  loop_post held write p errEOF new o ->
  In (EvSyscall wr buf 0 None sn) new ->
  wr = write /\ buf = p /\
  exists s', o = Ret (0, if len p =? 0 then None else Some errEOF) s'.
Proof.
  assert (Hea : forall l, Forall (eagain_ev write p) l ->
                          In (EvSyscall wr buf 0 None sn) l -> False).
  { intros l Hl Hin. rewrite List.Forall_forall in Hl.
    specialize (Hl _ Hin). discriminate Hl. }
  intros Hpost Hin.
  destruct o as [res s' | s' | s' | s']; simpl in Hpost;
    try (exfalso; eapply Hea; eassumption); try contradiction.
  destruct Hpost as [_ [H | [H | [H | H]]]].
  - destruct H as (_ & _ & Hl). exfalso; eapply Hea; eassumption.
  - destruct H as (_ & _ & _ & Hl). exfalso; eapply Hea; eassumption.
  - destruct H as (x & old & _ & _ & -> & Hl & _).
    destruct Hin as [E | Hin]; [discriminate |].
    exfalso; eapply Hea; eassumption.
  - destruct H as (k & old & _ & -> & Hl & _ & ->).
    destruct Hin as [E | Hin]; [| exfalso; eapply Hea; eassumption].
    injection E as <- <- -> _. repeat split.
    exists s'. simpl. destruct (len p =? 0); reflexivity.
Qed.

(** ** Runs the kernel lets through at once *)

(** On an open File whose direction is neither locked nor timed out, a
    kernel that transfers at the first call makes [sysrw] return right
    after that call. *)
Lemma sysrw_xfer (bk : backend) (write : bool) (q : list byte) (s : World)
    (k : nat) (ks : list kresp) :
  L (cond (fdc write (file s))) = false ->
  closed (file s) = false ->
  timeout (fdc write (file s)) = false ->
  kern s = Xfer k :: ks ->
  sysrw bk write q s =
    Ret (Z.min (Z.of_nat k) (len q),
         if (Z.min (Z.of_nat k) (len q) =? 0) && negb (len q =? 0)
         then Some (if write then ErrUnexpectedEOF else EOF) else None)
        (log (EvSyscall write q (Z.min (Z.of_nat k) (len q)) None
                        (mkSnap false false true))
             (set_kern ks s)).
Proof.
  intros HL Hc Ht Hk. rewrite sysrw_eq, HL. cbv zeta. unfold sysrw_fuel.
  rewrite sysrw_loop_eq.
  destruct_world s. simpl in Hk. subst.
  destruct write; simpl in HL, Hc, Ht; subst; cbn;
    destruct ((Z.min (Z.of_nat k) (len q) =? 0) && negb (len q =? 0));
    reflexivity.
Qed.

(** With the direction timed out [sysrw] returns [ErrTimeout] at once. *)
Lemma sysrw_timedout (bk : backend) (write : bool) (p : list byte) (s : World) :
  closed (file s) = false ->
  timeout (fdc write (file s)) = true ->
  L (cond (fdc write (file s))) = false ->
  sysrw bk write p s = Ret (0, Some ErrTimeout) s.
Proof.
  intros Hc Ht HL. rewrite sysrw_eq, HL. cbv zeta. unfold sysrw_fuel.
  rewrite sysrw_loop_eq. destruct_world s.
  destruct write; simpl in *; subst; reflexivity.
Qed.

Lemma Read_xfer (bk : backend) (q : list byte) (s : World)
    (k : nat) (ks : list kresp) :
  m (r (file s)) = false ->
  L (cond (r (file s))) = false ->
  closed (file s) = false ->
  timeout (r (file s)) = false ->
  kern s = Xfer k :: ks ->
  Read bk q s =
    Ret (Z.min (Z.of_nat k) (len q),
         if (Z.min (Z.of_nat k) (len q) =? 0) && negb (len q =? 0)
         then Some EOF else None)
        (log (EvSyscall false q (Z.min (Z.of_nat k) (len q)) None
                        (mkSnap false false true))
             (set_kern ks s)).
Proof.
  intros Hm HL Hc Ht Hk. rewrite Read_eq, Hm.
  rewrite (sysrw_xfer bk false q _ k ks); try assumption.
  simpl. f_equal. destruct_world s. simpl in *. subst. reflexivity.
Qed.

Lemma Read_timedout (bk : backend) (p : list byte) (s : World) :
  closed (file s) = false -> timeout (r (file s)) = true -> idle s ->
  Read bk p s = Ret (0, Some ErrTimeout) s.
Proof.
  intros Hc Ht (Hmr & _ & HLr & _). rewrite Read_eq, Hmr.
  rewrite sysrw_timedout; [| exact Hc | exact Ht | exact HLr].
  simpl. f_equal. destruct_world s. simpl in *; subst; reflexivity.
Qed.

(** ** Between two calls of a Write *)

Lemma Close_open_eq (bk : backend) (s : World) :
  L (cond (r (file s))) = false -> L (cond (w (file s))) = false ->
  closed (file s) = false ->
  Close bk s = Ret (Close_result s) (Close_post s).
Proof.
  intros HLr HLw Hc. destruct_world s. simpl in HLr, HLw, Hc. subst.
  unfold Close_post, Close_result, release_event, stop_of, woken.
  destruct bk, rt, wt, cf; reflexivity.
Qed.

Lemma Close_post_spec (a : World) :
  closed (file (Close_post a)) = true /\
  fd (file (Close_post a)) = fd (file a) /\
  (forall wr,
     L (cond (fdc wr (file (Close_post a)))) = L (cond (fdc wr (file a))) /\
     m (fdc wr (file (Close_post a))) = m (fdc wr (file a)) /\
     timeout (fdc wr (file (Close_post a))) = timeout (fdc wr (file a)) /\
     notify (cond (fdc wr (file (Close_post a)))) =
       S (notify (cond (fdc wr (file a))))) /\
  env (Close_post a) = env a /\ kern (Close_post a) = kern a /\
  fdm (Close_post a) = delete (fd (file a)) (fdm a) /\
  fdTrR (Close_post a) = fdTrR a /\ fdTrW (Close_post a) = fdTrW a /\
  syscalls (trace (Close_post a)) = syscalls (trace a) /\
  releases (trace (Close_post a)) = S (releases (trace a)).
Proof.
  split; [reflexivity |]. split; [reflexivity |].
  split; [intros []; repeat split; reflexivity |].
  split; [reflexivity |]. split; [reflexivity |]. split; [reflexivity |].
  split; [reflexivity |]. split; [reflexivity |].
  unfold Close_post, release_event. cbn [trace log].
  destruct (closeF (file a)); split; reflexivity.
Qed.

(** The handler of a direction whose deadline has passed. *)
Lemma timerEvent_due (write : bool) (s : World) :
  L (cond (fdc write (file s))) = false ->
  closed (file s) = false ->
  timeout (fdc write (file s)) = false ->
  deadline (fdc write (file s)) <> 0 ->
  deadline (fdc write (file s)) <= now s ->
  timerEvent write s = Ret tt (timed_out write s).
Proof.
  intros HL Hc Ht Hd Hn. destruct_world s.
  destruct write; simpl in HL, Hc, Ht, Hd, Hn; subst;
    unfold timed_out, woken; unfold_ops; simpl.
  - destruct (Z.eqb_spec wd 0); [contradiction |].
    destruct (Z.ltb_spec nw wd); [lia |]. reflexivity.
  - destruct (Z.eqb_spec rd 0); [contradiction |].
    destruct (Z.ltb_spec nw rd); [lia |]. reflexivity.
Qed.







(** ** The retry loop checks the flags *)

(** C2: at every turn of the retry loop, with the direction's lock held,
    [closed] is looked at first and [timeout] second: a closed File gives
    [ErrClosed], otherwise a timed-out direction gives [ErrTimeout], and
    the system call is issued only with both flags clear.  This holds at
    the first turn and after every sleep: in every run of [sysrw], [Read]
    and [Write], whatever the other goroutines do in between, each system
    call was issued with both flags clear and the lock held, and a run
    that returns reports the flags as it last found them. *)
Theorem sysrw_checks_flags (bk : backend) (write : bool) (p : list byte)
    (s : World) :
  (closed (file s) = true ->
   forall fuel errEOF,
     sysrw_loop (S fuel) bk write p errEOF s = Ret (0, Some ErrClosed) s) /\
  (closed (file s) = false -> timeout (fdc write (file s)) = true ->
   forall fuel errEOF,
     sysrw_loop (S fuel) bk write p errEOF s = Ret (0, Some ErrTimeout) s) /\
  (closed (file s) = false -> timeout (fdc write (file s)) = false ->
   L (cond (fdc write (file s))) = false ->
   exists new0 k err,
     syscalls (trace (final (sysrw bk write p s))) =
       new0 ++ EvSyscall write p k err (mkSnap false false true)
            :: syscalls (trace s)) /\
  (forall res s',
     sysrw bk write p s = Ret res s' ->
     (closed (file s') = true <-> res = (0, Some ErrClosed)) /\
     (closed (file s') = false /\ timeout (fdc write (file s')) = true <->
      res = (0, Some ErrTimeout))) /\
  (exists new,
     syscalls (trace (final (sysrw bk write p s))) =
       new ++ syscalls (trace s) /\
     Forall flags_clear new) /\
  (exists new,
     syscalls (trace (final (Read bk p s))) = new ++ syscalls (trace s) /\
     Forall flags_clear new) /\
  (exists new,
     syscalls (trace (final (Write bk p s))) = new ++ syscalls (trace s) /\
     Forall flags_clear new).
Proof.
  split; [| split; [| split; [| split; [| split; [| split]]]]].
  - intros Hc fuel errEOF. rewrite sysrw_loop_eq, Hc. reflexivity.
  - intros Hc Ht fuel errEOF. rewrite sysrw_loop_eq, Hc, Ht. reflexivity.
  - intros Hc Ht HL. pose proof (sysrw_spec bk write p s) as H.
    cbv zeta in H. rewrite HL in H.
    destruct H as (new & Hnew & _ & Hiss & _).
    destruct (Hiss Hc Ht) as (new0 & k & err & ->).
    exists new0, k, err. rewrite Hnew, <- app_assoc. reflexivity.
  - intros res s' Hrun. pose proof (sysrw_spec bk write p s) as H.
    cbv zeta in H.
    destruct (L (cond (fdc write (file s)))); [congruence |].
    destruct H as (new & _ & _ & _ & Hpost). rewrite Hrun in Hpost.
    destruct Hpost as [_ [H | [H | [H | H]]]].
    + destruct H as (-> & Hc & _). rewrite Hc.
      split; split; auto; try discriminate. intros [? _]; discriminate.
    + destruct H as (-> & Hc & Ht & _). rewrite Hc, Ht.
      split; split; auto; discriminate.
    + destruct H as (x & old & [Hc Ht] & _ & _ & _ & ->). rewrite Hc, Ht.
      split; split; try discriminate. intros [_ ?]; discriminate.
    + destruct H as (k & old & [Hc Ht] & _ & _ & _ & ->). rewrite Hc, Ht.
      destruct ((k =? 0) && negb (len p =? 0)); destruct write;
        split; split; try discriminate; intros [_ ?]; discriminate.
  - apply sysrw_flags.
  - apply Read_flags.
  - apply Write_flags.
Qed.

(** A Read that sleeps twice; the File is closed during the second
    sleep.  Both calls were made with the flags clear, none after. *)
Lemma sysrw_checks_flags_witness :
  let run := Read EpollBuild [0; 0] (fresh EpollBuild 5 [] [[AReady false]; [AClose]]) in
  run = Ret (0, Some ErrClosed) (final run) /\
  length (syscalls (trace (final run))) = 2%nat /\
  Forall flags_clear (syscalls (trace (final run))).
Proof.
  intros run.
  destruct (sysrw_checks_flags EpollBuild false [0; 0]
              (fresh EpollBuild 5 [] [[AReady false]; [AClose]]))
    as (_ & _ & _ & _ & _ & (new & Hnew & Hfl) & _).
  split; [vm_compute; reflexivity |].
  split; [vm_compute; reflexivity |].
  unfold run. rewrite Hnew.
  change (syscalls (trace (fresh EpollBuild 5 [] [[AReady false]; [AClose]])))
    with (@nil event).
  rewrite app_nil_r. exact Hfl.
Defined.

(** ** End of stream *)

(** C4: a system call that succeeds with a zero-length result ends the
    operation.  When the buffer was not empty this is the end of the
    stream: [Read] returns [EOF] and [Write] returns [ErrUnexpectedEOF].
    When the buffer was empty it is a plain success with no error. *)
Theorem zero_length_result (bk : backend) (p : list byte) (s : World)
    (wr : bool) (buf : list byte) (sn : snapshot) :
  (forall write new,
     syscalls (trace (final (sysrw bk write p s))) =
       new ++ syscalls (trace s) ->
     In (EvSyscall wr buf 0 None sn) new ->
     buf = p /\
     exists s',
       sysrw bk write p s =
         Ret (0, if len p =? 0 then None
                 else Some (if write then ErrUnexpectedEOF else EOF)) s') /\
  (forall new,
     syscalls (trace (final (Read bk p s))) = new ++ syscalls (trace s) ->
     In (EvSyscall wr buf 0 None sn) new ->
     buf = p /\
     exists s',
       Read bk p s = Ret (0, if len p =? 0 then None else Some EOF) s') /\
  (forall new,
     syscalls (trace (final (Write bk p s))) = new ++ syscalls (trace s) ->
     In (EvSyscall wr buf 0 None sn) new ->
     buf <> [] /\
     exists n s', Write bk p s = Ret (n, Some ErrUnexpectedEOF) s').
Proof.
  split; [| split].
  - intros write new Hnew Hin.
    pose proof (sysrw_spec bk write p s) as H. cbv zeta in H.
    destruct (L (cond (fdc write (file s)))).
    + rewrite H in Hnew. cbn [final] in Hnew.
      apply (app_inv_tail _ [] new) in Hnew. subst new. destruct Hin.
    + destruct H as (new' & Hnew' & _ & _ & Hpost).
      rewrite Hnew' in Hnew. apply app_inv_tail in Hnew. subst new'.
      destruct (loop_post_zero _ _ _ _ _ _ _ _ _ Hpost Hin) as (_ & ? & ?).
      auto.
  - intros new Hnew Hin.
    destruct (Read_any bk p s) as [(new' & Hnew' & Hpost) | [Hnew' _]].
    + rewrite Hnew' in Hnew. apply app_inv_tail in Hnew. subst new'.
      destruct (loop_post_zero _ _ _ _ _ _ _ _ _ Hpost Hin) as (_ & ? & ?).
      auto.
    + rewrite Hnew' in Hnew.
      apply (app_inv_tail _ [] new) in Hnew. subst new. destruct Hin.
  - intros new Hnew Hin.
    destruct (Write_any bk p s) as [(new' & Hnew' & Hpost) | Hnew'].
    + rewrite Hnew' in Hnew. apply app_inv_tail in Hnew. subst new'.
      destruct Hpost as (Hfl & Hfat & _).
      rewrite List.Forall_forall in Hfl.
      destruct (Hfl _ Hin) as (buf' & k & err & E & Hbuf).
      injection E as _ <- _ _ _.
      split; [exact Hbuf |].
      apply (Hfat _ ErrUnexpectedEOF Hin). simpl.
      destruct buf; [contradiction | reflexivity].
    + rewrite Hnew' in Hnew.
      apply (app_inv_tail _ [] new) in Hnew. subst new. destruct Hin.
Qed.

Lemma zero_length_result_witness :
  (exists s', Read EpollBuild [7; 7] (fresh EpollBuild 5 [Fail 11; Xfer 0]
                                       [[AReady false]]) =
              Ret (0, Some EOF) s') /\
  (exists n s', Write EpollBuild [7; 7] (fresh EpollBuild 5 [Xfer 1; Xfer 0] []) =
                Ret (n, Some ErrUnexpectedEOF) s') /\
  (exists s', Read EpollBuild [] (fresh EpollBuild 5 [Xfer 0] []) = Ret (0, None) s').
Proof.
  split; [| split].
  - refine (proj2 (proj1 (proj2 (zero_length_result EpollBuild [7; 7]
              (fresh EpollBuild 5 [Fail 11; Xfer 0] [[AReady false]])
              false [7; 7] (mkSnap false false true)))
              [EvSyscall false [7; 7] 0 None (mkSnap false false true);
               EvSyscall false [7; 7] (-1) (Some EAGAIN)
                         (mkSnap false false true)] _ _)).
    + vm_compute. reflexivity.
    + left. reflexivity.
  - refine (proj2 (proj2 (proj2 (zero_length_result EpollBuild [7; 7]
              (fresh EpollBuild 5 [Xfer 1; Xfer 0] [])
              true [7] (mkSnap false false true)))
              [EvSyscall true [7] 0 None (mkSnap false false true);
               EvSyscall true [7; 7] 1 None (mkSnap false false true)] _ _)).
    + vm_compute. reflexivity.
    + left. reflexivity.
  - refine (proj2 (proj1 (proj2 (zero_length_result EpollBuild []
              (fresh EpollBuild 5 [Xfer 0] [])
              false [] (mkSnap false false true)))
              [EvSyscall false [] 0 None (mkSnap false false true)] _ _)).
    + vm_compute. reflexivity.
    + left. reflexivity.
Defined.

(** ** Empty buffers *)

(** C9: [Write] of a zero-length buffer on a closed File returns
    [(0, nil)], not [ErrClosed]: the loop [for n != len(p)] never runs its
    body, so [closed] is never looked at and the World is left as it is.
    [Read] of a zero-length buffer on a closed File does return
    [ErrClosed]. *)
Theorem Write_empty_on_closed (bk : backend) (s : World) :
  closed (file s) = true -> idle s ->
  Write bk [] s = Ret (0, None) s /\
  Read bk [] s = Ret (0, Some ErrClosed) s /\
  (forall s0, m (w (file s0)) = false -> Write bk [] s0 = Ret (0, None) s0).
Proof.
  intros Hc Hi. split; [| split].
  - apply Write_nil. apply Hi.
  - apply Read_closed; assumption.
  - intros s0. apply Write_nil.
Qed.

Lemma idle_closed_world (bk : backend) : idle (closed_world bk).
Proof. destruct bk; repeat split; reflexivity. Qed.

Lemma Write_empty_on_closed_witness :
  Write EpollBuild [] (closed_world EpollBuild) = Ret (0, None) (closed_world EpollBuild) /\
  Read EpollBuild [] (closed_world EpollBuild) =
    Ret (0, Some ErrClosed) (closed_world EpollBuild).
Proof.
  destruct (Write_empty_on_closed EpollBuild (closed_world EpollBuild))
    as (HW & HR & _).
  - reflexivity.
  - apply idle_closed_world.
  - split; [exact HW | exact HR].
Defined.

(** C7, as the code has it.  [Write] of a zero-length buffer issues no
    system call and returns [(0, nil)] whatever state the File is in.
    [Read] of a zero-length buffer goes through the retry loop once like
    any Read: on a closed File it returns [ErrClosed], on a timed-out
    direction [ErrTimeout], and otherwise it issues the read with the
    empty buffer and returns [(0, nil)] when that succeeds.  An empty
    request never gives [EOF] or [ErrUnexpectedEOF]. *)
Theorem empty_buffer (bk : backend) (s : World) :
  (m (w (file s)) = false -> Write bk [] s = Ret (0, None) s) /\
  (idle s -> closed (file s) = true ->
   Read bk [] s = Ret (0, Some ErrClosed) s) /\
  (idle s -> closed (file s) = false -> timeout (r (file s)) = true ->
   Read bk [] s = Ret (0, Some ErrTimeout) s) /\
  (idle s -> closed (file s) = false -> timeout (r (file s)) = false ->
   forall k ks, kern s = Xfer k :: ks ->
     Read bk [] s =
       Ret (0, None)
           (log (EvSyscall false [] 0 None (mkSnap false false true))
                (set_kern ks s))) /\
  (forall n e s', Read bk [] s = Ret (n, e) s' ->
                  e <> Some EOF /\ e <> Some ErrUnexpectedEOF) /\
  (forall n e s', Write bk [] s = Ret (n, e) s' ->
                  e <> Some EOF /\ e <> Some ErrUnexpectedEOF).
Proof.
  split; [| split; [| split; [| split; [| split]]]].
  - apply Write_nil.
  - intros Hi Hc. apply Read_closed; assumption.
  - intros Hi Hc Ht. apply Read_timedout; assumption.
  - intros (Hm & _ & HL & _) Hc Ht k ks Hk.
    rewrite (Read_xfer bk [] s k ks) by assumption.
    change (len []) with 0. rewrite Z.min_r by lia. reflexivity.
  - intros n e s' Hrun.
    destruct (Read_any bk [] s) as [(new & _ & Hpost) | [_ (s0 & E)]];
      [| congruence].
    rewrite Hrun in Hpost. destruct Hpost as [_ [H | [H | [H | H]]]].
    + destruct H as (E & _). injection E as _ ->. split; discriminate.
    + destruct H as (E & _). injection E as _ ->. split; discriminate.
    + destruct H as (x & old & _ & _ & _ & _ & E). injection E as _ ->.
      split; discriminate.
    + destruct H as (k & old & _ & _ & _ & _ & E).
      change (len [] =? 0) with true in E. rewrite andb_false_r in E.
      injection E as _ ->. split; discriminate.
  - intros n e s' Hrun.
    destruct (m (w (file s))) eqn:Hm.
    + rewrite Write_eq, Hm in Hrun. discriminate.
    + rewrite Write_nil in Hrun by exact Hm. injection Hrun as _ <- _.
      split; discriminate.
Qed.

Lemma empty_buffer_witness :
  Write EpollBuild [] (fresh EpollBuild 5 [] []) = Ret (0, None) (fresh EpollBuild 5 [] []) /\
  (exists s', Read EpollBuild [] (fresh EpollBuild 5 [Xfer 4] []) = Ret (0, None) s').
Proof.
  split.
  - apply (proj1 (empty_buffer EpollBuild (fresh EpollBuild 5 [] []))). reflexivity.
  - eexists.
    apply (proj1 (proj2 (proj2 (proj2
             (empty_buffer EpollBuild (fresh EpollBuild 5 [Xfer 4] [])))))
             ltac:(repeat split; reflexivity) eq_refl eq_refl 4%nat []).
    reflexivity.
Defined.

(** C7 as stated fails for [Read]: on a closed File a zero-length Read
    returns [ErrClosed], not [(0, nil)]; and on an open one it waits
    when the kernel answers the empty read with a would-block. *)
Lemma Read_empty_not_nil :
  Read EpollBuild [] (closed_world EpollBuild) =
    Ret (0, Some ErrClosed) (closed_world EpollBuild) /\
  ~ (exists s', Read EpollBuild [] (closed_world EpollBuild) = Ret (0, None) s') /\
  (exists s', Read EpollBuild [] (fresh EpollBuild 5 [Fail 11] []) = Blocked s').
Proof.
  split; [vm_compute; reflexivity |]. split.
  - intros (s' & E).
    assert (H : Read EpollBuild [] (closed_world EpollBuild) =
                Ret (0, Some ErrClosed) (closed_world EpollBuild))
      by (vm_compute; reflexivity).
    rewrite H in E. discriminate.
  - eexists. vm_compute. reflexivity.
Qed.

(** ** After Close *)

(** C1, as the code has it.  After a [Close] that returned nil, whatever
    calls returned and whatever the other goroutines did in between,
    every later call of [Close], of the three deadline setters and of
    [Lock] returns [ErrClosed] and leaves the World as it is.  So does
    [Read] (with any buffer, an empty one too), and [Write] with a buffer
    that is not empty, unless an earlier [Read], respectively [Write],
    that was in progress when [Close] was called has not returned yet:
    [Close] takes the two condition locks only, not the mutexes [m], and
    the new call then waits for the mutex of its direction.  Nothing
    after [Close] takes or releases these mutexes; and as soon as the
    earlier call has released its mutex, the new call returns
    [ErrClosed] as well. *)
Theorem after_Close (bk : backend) (s s1 s2 : World) (c : call) :
  Close bk s = Ret None s1 ->
  later bk s1 s2 ->
  c <> CWrite [] ->
  run_call bk c s2 =
    (if holds_m c s2 then Blocked s2 else Ret (Some ErrClosed) s2) /\
  holds_m c s2 = holds_m c s /\
  closed (file s2) = true /\
  (forall wr s3,
     mutex_of c = Some wr -> m_Unlock wr s2 = Ret tt s3 ->
     run_call bk c s3 = Ret (Some ErrClosed) s3).
Proof.
  intros Hclose Hlater Hc.
  destruct (Close_nil_shut bk s s1 Hclose) as (_ & C1 & Lr1 & Lw1 & Mr1 & Mw1).
  destruct (later_shut bk s1 s2 Hlater C1 Lr1 Lw1)
    as (C2 & Lr2 & Lw2 & Mr2 & Mw2).
  assert (Hres : forall s', (match c with
                             | CWrite [] => None
                             | _ => Some ErrClosed
                             end) = Some ErrClosed ->
                 Ret (match c with
                      | CWrite [] => None
                      | _ => Some ErrClosed
                      end) s' = Ret (Some ErrClosed) s')
    by (intros s' ->; reflexivity).
  assert (Hc' : match c with
                | CWrite [] => None
                | _ => Some ErrClosed
                end = Some ErrClosed).
  { destruct c as [p | [| b p] | | t | t | t |]; try reflexivity.
    contradiction. }
  split; [| split; [| split; [exact C2 |]]].
  - rewrite run_call_shut by assumption.
    destruct (holds_m c s2); [reflexivity | exact (Hres s2 Hc')].
  - unfold holds_m. destruct c; simpl; congruence.
  - intros wr s3 Hwr Hun. unfold m_Unlock in Hun.
    destruct (m (fdc wr (file s2))); [| discriminate].
    injection Hun as <-.
    rewrite run_call_shut.
    + unfold holds_m. rewrite Hwr.
      replace (m (fdc wr (file (upd_fdc wr (set_m false) s2)))) with false
        by (destruct_world s2; destruct wr; reflexivity).
      exact (Hres _ Hc').
    + destruct_world s2; destruct wr; exact C2.
    + destruct_world s2; destruct wr; exact Lr2.
    + destruct_world s2; destruct wr; exact Lw2.
Qed.

Lemma after_Close_witness :
  let s1 := closed_world SelectBuild in
  let s2 := final (run_action SelectBuild (AReady false)
                     (final (run_call SelectBuild (CSetDeadline 500) s1))) in
  let s := upd_fdc false (set_m true) (fresh SelectBuild 5 [] []) in
  let s3 := final (Close SelectBuild s) in
  run_call SelectBuild (CRead []) s2 = Ret (Some ErrClosed) s2 /\
  run_call SelectBuild CClose s2 = Ret (Some ErrClosed) s2 /\
  run_call SelectBuild (CRead [1]) s3 = Blocked s3 /\
  run_call SelectBuild (CWrite [1]) s3 = Ret (Some ErrClosed) s3 /\
  run_call SelectBuild (CRead [1]) (final (m_Unlock false s3)) =
    Ret (Some ErrClosed) (final (m_Unlock false s3)).
Proof.
  intros s1 s2 s s3.
  assert (Hl : later SelectBuild s1 s2).
  { apply (later_call SelectBuild s1
             (final (run_call SelectBuild (CSetDeadline 500) s1)) s2
             (CSetDeadline 500) (Some ErrClosed));
      [vm_compute; reflexivity |].
    apply (later_action SelectBuild
             (final (run_call SelectBuild (CSetDeadline 500) s1)) s2 s2
             (AReady false));
      [vm_compute; reflexivity |].
    apply later_refl. }
  assert (E1 : Close SelectBuild (fresh SelectBuild 5 [] []) = Ret None s1)
    by (vm_compute; reflexivity).
  assert (E3 : Close SelectBuild s = Ret None s3)
    by (vm_compute; reflexivity).
  split; [| split; [| split; [| split]]].
  - exact (proj1 (after_Close SelectBuild (fresh SelectBuild 5 [] []) s1 s2
                    (CRead []) E1 Hl ltac:(discriminate))).
  - exact (proj1 (after_Close SelectBuild (fresh SelectBuild 5 [] []) s1 s2
                    CClose E1 Hl ltac:(discriminate))).
  - exact (proj1 (after_Close SelectBuild s s3 s3 (CRead [1]) E3
                    (later_refl SelectBuild s3) ltac:(discriminate))).
  - exact (proj1 (after_Close SelectBuild s s3 s3 (CWrite [1]) E3
                    (later_refl SelectBuild s3) ltac:(discriminate))).
  - apply (proj2 (proj2 (proj2
             (after_Close SelectBuild s s3 s3 (CRead [1]) E3
                (later_refl SelectBuild s3) ltac:(discriminate))))
             false (final (m_Unlock false s3)));
      [reflexivity | vm_compute; reflexivity].
Defined.

(** C1 as stated fails for a zero-length [Write]: after a successful
    [Close] it returns [(0, nil)]. *)
Lemma Write_empty_after_Close :
  Close EpollBuild (fresh EpollBuild 5 [] []) = Ret None (closed_world EpollBuild) /\
  closed (file (closed_world EpollBuild)) = true /\
  Write EpollBuild [] (closed_world EpollBuild) = Ret (0, None) (closed_world EpollBuild) /\
  run_call EpollBuild (CWrite []) (closed_world EpollBuild) <>
    Ret (Some ErrClosed) (closed_world EpollBuild).
Proof.
  split; [vm_compute; reflexivity |].
  split; [reflexivity |].
  split; [vm_compute; reflexivity |].
  assert (H : run_call EpollBuild (CWrite []) (closed_world EpollBuild) =
              Ret None (closed_world EpollBuild)) by (vm_compute; reflexivity).
  rewrite H. discriminate.
Qed.

(** ** Write writes the whole buffer *)




(** * Further properties of the code *)

(** ** The select backend's interest sets *)

(** [stopTrack(fd, direction)] of the select build always takes [fd] out
    of the interest set of that direction, leaves the other set and the
    File alone, and writes the wakeup byte if and only if [fd] was in the
    set before the call. *)
Theorem stopTrack_select (d : Z) (write : bool) (s : World) :
  exists s',
    stopTrack SelectBuild d write s = Ret tt s' /\
    tracked write s' = delete d (tracked write s) /\
    tracked write s' !! d = None /\
    tracked (negb write) s' = tracked (negb write) s /\
    file s' = file s /\
    trace s' = (if bool_decide (is_Some (tracked write s !! d))
                then EvWakeup :: trace s else trace s) /\
    (wakeups (trace s') = S (wakeups (trace s)) <->
     is_Some (tracked write s !! d)).
Proof.
  unfold stopTrack, SelectB.stopTrack, SelectB.wakeup, tracked, bind, get,
    modify, ret.
  destruct write; simpl.
  all: match goal with
       | |- context [bool_decide (is_Some (?mp !! ?k))] =>
           destruct (mp !! k) as [[]|] eqn:E
       end.
  all: try rewrite bool_decide_eq_true_2 by eauto.
  all: try rewrite bool_decide_eq_false_2 by (intros [x Hx]; discriminate).
  all: simpl; eexists; (split; [reflexivity |]); simpl.
  all: rewrite lookup_delete_eq.
  all: repeat split; eauto; try discriminate; try lia;
       try (intros [x Hx]; discriminate).
  all: unfold wakeups; simpl; lia.
Qed.

(** Tracking a descriptor and then giving it up leaves both interest sets
    as they were when the descriptor was not tracked before, at the price
    of two wakeup bytes; a descriptor that was tracked before ends up
    untracked, with one wakeup byte written. *)
Theorem startTrack_stopTrack (d : Z) (write : bool) (s : World) :
  exists s1 s2,
    startTrack SelectBuild d write s = Ret tt s1 /\
    stopTrack SelectBuild d write s1 = Ret tt s2 /\
    tracked write s2 = delete d (tracked write s) /\
    tracked (negb write) s2 = tracked (negb write) s /\
    file s2 = file s /\
    (tracked write s !! d = None ->
     tracked write s2 = tracked write s /\
     wakeups (trace s2) = S (S (wakeups (trace s)))) /\
    (is_Some (tracked write s !! d) ->
     wakeups (trace s2) = S (wakeups (trace s))).
Proof.
  unfold startTrack, stopTrack, SelectB.startTrack, SelectB.stopTrack,
    SelectB.wakeup, tracked, bind, get, modify, ret.
  destruct write; simpl.
  all: match goal with
       | |- context [bool_decide (is_Some (?mp !! ?k))] =>
           destruct (mp !! k) as [[]|] eqn:E
       end.
  all: try rewrite (bool_decide_eq_true_2 (is_Some (Some ()))) by eauto.
  all: try rewrite (bool_decide_eq_false_2 (is_Some None))
         by (intros [x Hx]; discriminate).
  all: simpl; eexists; eexists; (split; [reflexivity |]); simpl.
  all: rewrite lookup_insert_eq;
       rewrite (bool_decide_eq_true_2 (is_Some (Some ()))) by eauto; simpl.
  all: (split; [reflexivity |]); simpl.
  all: rewrite delete_insert_eq.
  all: repeat split; eauto; try discriminate;
       try (intros [x Hx]; discriminate);
       try (symmetry; apply delete_id; assumption);
       try (apply delete_id; assumption).
Qed.

(** ** Readiness events *)

(** The epoll build's [epollEv]: an event for a descriptor that is not in
    the registry is dropped and changes nothing; for a registered one the
    waiters of the event's direction are woken by one broadcast, and
    nothing else of the World changes. *)
Theorem epollEv_spec (write : bool) (s : World) :
  L (cond (fdc write (file s))) = false ->
  exists s',
    EpollB.epollEv write s = Ret tt s' /\
    (fdm s !! fd (file s) = None -> s' = s) /\
    (is_Some (fdm s !! fd (file s)) ->
     s' = upd_fdc write
            (fun c => set_cond (set_notify (S (notify (cond c))) (cond c)) c)
            s).
Proof.
  intros HL. unfold EpollB.epollEv, bind, get.
  destruct (fdm s !! fd (file s)) as [[] |] eqn:E.
  - destruct_world s.
    destruct write; simpl in HL; subst; unfold_ops; simpl;
      eexists; (split; [reflexivity |]);
      (split; [discriminate | intros _; reflexivity]).
  - exists s. split; [reflexivity |]. split; [reflexivity |].
    intros [x Hx]. discriminate.
Qed.

Lemma epollEv_spec_witness :
  exists s',
    EpollB.epollEv false (fresh EpollBuild 5 [] []) = Ret tt s' /\
    notify (cond (r (file s'))) = 1%nat.
Proof.
  destruct (epollEv_spec false (fresh EpollBuild 5 [] []))
    as (s' & Hrun & _ & Hreg).
  - reflexivity.
  - exists s'. split; [exact Hrun |].
    rewrite Hreg; [reflexivity |].
    exists tt. vm_compute. reflexivity.
Defined.

(** The select build's loop, for a descriptor [Select] reports ready.
    The descriptor leaves the interest set of the direction, if it is
    still there, and the File's waiters of the direction are woken
    whenever the descriptor is in the registry: also when the descriptor
    had left the interest set since the sets of [Select] were built.
    Only an event for a descriptor that is neither tracked nor
    registered changes nothing.  The other direction's interest set and
    all the File's flags stay as they are. *)
Theorem evReady_select (write : bool) (s : World) :
  L (cond (fdc write (file s))) = false ->
  exists s',
    SelectB.evReady write s = Ret tt s' /\
    tracked write s' = delete (fd (file s)) (tracked write s) /\
    tracked (negb write) s' = tracked (negb write) s /\
    (notify (cond (fdc write (file s'))) =
       (if bool_decide (is_Some (fdm s !! fd (file s)))
        then S (notify (cond (fdc write (file s))))
        else notify (cond (fdc write (file s))))) /\
    (is_Some (fdm s !! fd (file s)) -> s' = made_ready write s) /\
    (fdm s !! fd (file s) = None ->
     tracked write s !! fd (file s) = None -> s' = s) /\
    closed (file s') = closed (file s) /\
    timeout (fdc write (file s')) = timeout (fdc write (file s)) /\
    L (cond (fdc write (file s'))) = false /\
    fdc (negb write) (file s') = fdc (negb write) (file s).
Proof.
  intros HL. unfold SelectB.evReady, tracked, made_ready, bind, get.
  cbv zeta.
  destruct (fdm s !! fd (file s)) as [[] |] eqn:Em.
  - rewrite bool_decide_eq_true_2 by eauto.
    destruct_world s.
    destruct write; simpl in HL, Em |- *; subst; unfold_ops; simpl;
      rewrite ?Em; (eexists; split; [reflexivity |]); simpl;
      repeat split; try reflexivity; discriminate.
  - rewrite bool_decide_eq_false_2 by (intros [x Hx]; discriminate).
    destruct_world s.
    destruct write; simpl in HL, Em |- *; subst; unfold_ops; simpl;
      rewrite ?Em; (eexists; split; [reflexivity |]); simpl;
      repeat split; try reflexivity;
      try (intros [x Hx]; discriminate);
      intros _ E; rewrite delete_id by exact E; reflexivity.
Qed.

Lemma evReady_select_witness :
  let s := fresh SelectBuild 5 [] [] in
  exists s',
    SelectB.evReady false s = Ret tt s' /\
    fdTrR s' = fdTrR s /\
    notify (cond (r (file s'))) = 1%nat.
Proof.
  intros s.
  destruct (evReady_select false s) as (s' & Hrun & Htr & _ & Hn & _).
  - reflexivity.
  - exists s'. split; [exact Hrun |]. split.
    + change (fdTrR s') with (tracked false s'). rewrite Htr.
      vm_compute. reflexivity.
    + change (r (file s')) with (fdc false (file s')). rewrite Hn.
      rewrite bool_decide_eq_true_2; [reflexivity |].
      exists tt. vm_compute. reflexivity.
Defined.

(** ** Close *)


Lemma lookup_stop_of (write : bool) (f : File) (l : list Timer) (id : nat) :
  stop_of write f l !! id =
    if bool_decide (timer (fdc write f) = Some id)
    then stopped <$> l !! id else l !! id.
Proof.
  unfold stop_of. destruct (timer (fdc write f)) as [j |].
  - destruct (decide (j = id)) as [-> | Hne].
    + rewrite bool_decide_eq_true_2 by reflexivity.
      apply list_lookup_alter_eq.
    + rewrite bool_decide_eq_false_2 by congruence.
      apply list_lookup_alter_ne. exact Hne.
  - rewrite bool_decide_eq_false_2 by discriminate. reflexivity.
Qed.

(** [Close] on an open File whose two locks are free returns the result of
    [closeF] when the File was made from an [OsFile], of [syscall.Close]
    otherwise, and leaves the File closed, out of the registry, with the
    timers of both directions stopped, the sleepers of both directions
    notified once, and both locks free again.  Deadlines, timeout flags
    and the interest sets of the select build are not touched, and the
    descriptor is released by exactly one call. *)
Theorem Close_effect (bk : backend) (s : World) :
  L (cond (r (file s))) = false -> L (cond (w (file s))) = false ->
  closed (file s) = false ->
  exists s1,
    Close bk s = Ret (Close_result s) s1 /\
    closed (file s1) = true /\
    fdm s1 = delete (fd (file s)) (fdm s) /\
    fdm s1 !! fd (file s1) = None /\
    (forall wr,
       notify (cond (fdc wr (file s1))) =
         S (notify (cond (fdc wr (file s)))) /\
       L (cond (fdc wr (file s1))) = false /\
       m (fdc wr (file s1)) = m (fdc wr (file s)) /\
       deadline (fdc wr (file s1)) = deadline (fdc wr (file s)) /\
       timeout (fdc wr (file s1)) = timeout (fdc wr (file s)) /\
       tracked wr s1 = tracked wr s) /\
    (forall wr id tm,
       timer (fdc wr (file s)) = Some id -> timers s1 !! id = Some tm ->
       tm_live tm = false) /\
    (timers_wf s -> forall wr, live_timers wr s1 = 0%nat) /\
    trace s1 = release_event (file s) :: trace s /\
    releases (trace s1) = S (releases (trace s)).
Proof.
  intros HLr HLw Hc. exists (Close_post s).
  split; [apply Close_open_eq; assumption |].
  assert (Hstop : forall wr id tm,
             timer (fdc wr (file s)) = Some id ->
             timers (Close_post s) !! id = Some tm -> tm_live tm = false).
  { intros wr id tm Hid Htm. unfold Close_post in Htm.
    cbn [timers log set_timers] in Htm.
    rewrite !lookup_stop_of in Htm.
    destruct wr; simpl in Hid.
    - rewrite (bool_decide_eq_true_2 (timer (fdc true (file s)) = Some id))
        in Htm by exact Hid.
      destruct (bool_decide (timer (fdc false (file s)) = Some id));
        destruct (timers s !! id) as [t0 |]; simpl in Htm;
        try discriminate; injection Htm as <-; reflexivity.
    - rewrite (bool_decide_eq_true_2 (timer (fdc false (file s)) = Some id))
        in Htm by exact Hid.
      destruct (bool_decide (timer (fdc true (file s)) = Some id));
        destruct (timers s !! id) as [t0 |]; simpl in Htm;
        try discriminate; injection Htm as <-; reflexivity. }
  split; [reflexivity |].
  split; [reflexivity |].
  split; [apply lookup_delete_eq |].
  split.
  { intros wr. destruct_world s. simpl in HLr, HLw. subst.
    destruct wr; repeat split; reflexivity. }
  split; [exact Hstop |].
  split.
  { intros Wf wr. unfold live_timers.
    apply length_zero_iff_nil. apply filter_none.
    intros id tm Hid.
    assert (Hold : exists t0, timers s !! id = Some t0 /\
                              tm_write tm = tm_write t0).
    { unfold Close_post in Hid. cbn [timers log set_timers] in Hid.
      rewrite !lookup_stop_of in Hid.
      destruct (timers s !! id) as [t0 |] eqn:E.
      - exists t0. split; [reflexivity |].
        repeat match type of Hid with
               | context [bool_decide ?P] => destruct (bool_decide P)
               end; simpl in Hid; injection Hid as <-; reflexivity.
      - repeat match type of Hid with
               | context [bool_decide ?P] => destruct (bool_decide P)
               end; simpl in Hid; discriminate. }
    destruct Hold as (t0 & Ht0 & Hw).
    destruct Wf as [W1 _]. specialize (W1 _ _ Ht0).
    unfold live_for. rewrite (Hstop _ _ _ W1 Hid).
    apply andb_false_r. }
  split; [reflexivity |].
  unfold Close_post, release_event. cbn [trace log].
  destruct (closeF (file s)); reflexivity.
Qed.

Lemma Close_effect_witness :
  exists s1,
    Close SelectBuild (fresh SelectBuild 5 [] []) = Ret None s1 /\
    closed (file s1) = true /\
    fdm s1 !! 5 = None /\
    trace s1 = [EvSysClose 5].
Proof.
  destruct (Close_effect SelectBuild (fresh SelectBuild 5 [] []))
    as (s1 & Hrun & Hc & Hfdm & _ & _ & _ & _ & Htr & _);
    [reflexivity | reflexivity | reflexivity |].
  exists s1. split; [exact Hrun |]. split; [exact Hc |].
  split; [| exact Htr].
  rewrite Hfdm. vm_compute. reflexivity.
Defined.

(** ** The descriptor is released once *)

Lemma evolved_refl (s : World) : evolved s s.
Proof. repeat split; left; split; reflexivity. Qed.

Lemma evolved_trans (s1 s2 s3 : World) :
  evolved s1 s2 -> evolved s2 s3 -> evolved s1 s3.
Proof.
  intros (F1 & N1 & C1 & H1) (F2 & N2 & C2 & H2).
  split; [congruence |]. split; [congruence |]. split; [congruence |].
  destruct H1 as [[Hc1 Hr1] | (Hc1 & Hc1' & Hr1)];
    destruct H2 as [[Hc2 Hr2] | (Hc2 & Hc2' & Hr2)].
  - left. split; congruence.
  - right. repeat split; congruence.
  - right. repeat split; congruence.
  - congruence.
Qed.

Lemma evolved_stay (s s' : World) :
  fd (file s') = fd (file s) -> name (file s') = name (file s) ->
  closeF (file s') = closeF (file s) ->
  closed (file s') = closed (file s) ->
  releases (trace s') = releases (trace s) ->
  evolved s s'.
Proof. intros. repeat split; try assumption. left. split; assumption. Qed.

Lemma evolves_ret {A : Type} (a : A) : evolves (ret a).
Proof. intros s. apply evolved_refl. Qed.

Lemma evolves_get : evolves get.
Proof. intros s. apply evolved_refl. Qed.

Lemma evolves_bind {A B : Type} (c : M A) (k : A -> M B) :
  evolves c -> (forall a, evolves (k a)) -> evolves (bind c k).
Proof.
  intros Hc Hk s. unfold bind. specialize (Hc s).
  destruct (c s) as [a s' | s' | s' | s']; simpl in *; try exact Hc.
  apply evolved_trans with s'; [exact Hc | apply Hk].
Qed.

Lemma evolves_stay {A : Type} (c : M A) :
  (forall s, fd (file (final (c s))) = fd (file s) /\
             name (file (final (c s))) = name (file s) /\
             closeF (file (final (c s))) = closeF (file s) /\
             closed (file (final (c s))) = closed (file s) /\
             releases (trace (final (c s))) = releases (trace s)) ->
  evolves c.
Proof.
  intros H s. destruct (H s) as (? & ? & ? & ? & ?).
  apply evolved_stay; assumption.
Qed.

Lemma evolves_modify (g : World -> World) :
  (forall s, fd (file (g s)) = fd (file s) /\
             name (file (g s)) = name (file s) /\
             closeF (file (g s)) = closeF (file s) /\
             closed (file (g s)) = closed (file s) /\
             releases (trace (g s)) = releases (trace s)) ->
  evolves (modify g).
Proof. intros H. apply evolves_stay. exact H. Qed.

Lemma evolves_blocked {A : Type} : evolves (fun s => @Blocked A s).
Proof. intros s. apply evolved_refl. Qed.

Lemma evolves_panic {A : Type} : evolves (fun s => @Panic A s).
Proof. intros s. apply evolved_refl. Qed.

Lemma evolves_nofuel {A : Type} : evolves (fun s => @NoFuel A s).
Proof. intros s. apply evolved_refl. Qed.

Lemma closed_upd_fdc (write : bool) (g : fdCtl -> fdCtl) (s : World) :
  fd (file (upd_fdc write g s)) = fd (file s) /\
  name (file (upd_fdc write g s)) = name (file s) /\
  closeF (file (upd_fdc write g s)) = closeF (file s) /\
  closed (file (upd_fdc write g s)) = closed (file s) /\
  releases (trace (upd_fdc write g s)) = releases (trace s).
Proof. destruct write; repeat split; reflexivity. Qed.

Lemma evolves_upd_fdc (write : bool) (g : fdCtl -> fdCtl) :
  evolves (modify (upd_fdc write g)).
Proof. apply evolves_modify. intros s. apply closed_upd_fdc. Qed.

Lemma evolves_condL_Lock (write : bool) : evolves (condL_Lock write).
Proof.
  apply evolves_stay. intros s. unfold condL_Lock.
  destruct (L _); simpl; [repeat split; reflexivity | apply closed_upd_fdc].
Qed.

Lemma evolves_condL_Unlock (write : bool) : evolves (condL_Unlock write).
Proof.
  apply evolves_stay. intros s. unfold condL_Unlock.
  destruct (L _); simpl; [apply closed_upd_fdc | repeat split; reflexivity].
Qed.

Lemma evolves_m_Lock (write : bool) : evolves (m_Lock write).
Proof.
  apply evolves_stay. intros s. unfold m_Lock.
  destruct (m _); simpl; [repeat split; reflexivity | apply closed_upd_fdc].
Qed.

Lemma evolves_m_Unlock (write : bool) : evolves (m_Unlock write).
Proof.
  apply evolves_stay. intros s. unfold m_Unlock.
  destruct (m _); simpl; [apply closed_upd_fdc | repeat split; reflexivity].
Qed.

Lemma evolves_rwfun (write : bool) (d : Z) (p : list byte) :
  evolves (rwfun write d p).
Proof. apply evolves_stay. intros s. repeat split; reflexivity. Qed.

Lemma evolves_AfterFunc (d : Z) (write : bool) :
  evolves (AfterFunc d write).
Proof. apply evolves_stay. intros s. repeat split; reflexivity. Qed.

Ltac evolves_step :=
  match goal with
  | |- evolves (bind _ _) => apply evolves_bind; [| intros ?]
  | |- evolves (ret _) => apply evolves_ret
  | |- evolves get => apply evolves_get
  | |- evolves (fun s => Blocked s) => apply evolves_blocked
  | |- evolves (fun s => Panic s) => apply evolves_panic
  | |- evolves (condL_Lock _) => apply evolves_condL_Lock
  | |- evolves (condL_Unlock _) => apply evolves_condL_Unlock
  | |- evolves (m_Lock _) => apply evolves_m_Lock
  | |- evolves (m_Unlock _) => apply evolves_m_Unlock
  | |- evolves (rwfun _ _ _) => apply evolves_rwfun
  | |- evolves (AfterFunc _ _) => apply evolves_AfterFunc
  | |- evolves (modify (upd_fdc _ _)) => apply evolves_upd_fdc
  | |- evolves (modify _) =>
      apply evolves_modify; intros ?; repeat split; reflexivity
  | |- evolves (if ?b then _ else _) => destruct b
  | |- evolves (match ?o with Some _ => _ | None => _ end) => destruct o
  | |- evolves (match ?o with EpollBuild => _ | SelectBuild => _ end) =>
      destruct o
  | |- evolves (match ?o with [] => _ | _ :: _ => _ end) => destruct o
  end.

Ltac evolves_tac := repeat evolves_step.

Lemma evolves_timerEvent (write : bool) : evolves (timerEvent write).
Proof.
  unfold timerEvent, Broadcast.
  apply evolves_bind; [apply evolves_condL_Lock | intros _].
  apply evolves_bind; [apply evolves_get | intros s0].
  evolves_tac.
Qed.

Lemma evolves_setDeadline (write : bool) (t : Time) :
  evolves (setDeadline write t).
Proof.
  unfold setDeadline, timer_Stop, timer_Reset.
  apply evolves_bind; [apply evolves_condL_Lock | intros _].
  apply evolves_bind; [apply evolves_get | intros s0].
  evolves_tac.
Qed.

Lemma evolves_SetDeadline (t : Time) : evolves (SetDeadline t).
Proof.
  unfold SetDeadline, SetReadDeadline, SetWriteDeadline.
  apply evolves_bind; [apply evolves_setDeadline | intros [e |]];
    [apply evolves_ret | apply evolves_setDeadline].
Qed.

Lemma evolves_Lock : evolves Lock.
Proof.
  unfold Lock.
  apply evolves_bind; [apply evolves_condL_Lock | intros _].
  apply evolves_bind; [apply evolves_condL_Lock | intros _].
  apply evolves_bind; [apply evolves_get | intros s0].
  evolves_tac.
Qed.

Lemma evolves_Unlock : evolves Unlock.
Proof. unfold Unlock. evolves_tac. Qed.

Lemma Close_of_Lock (bk : backend) (s s' : World) :
  (Lock s = Blocked s' -> Close bk s = Blocked s') /\
  (forall e, Lock s = Ret (Some e) s' -> Close bk s = Ret (Some e) s').
Proof.
  split; [intros H | intros e H]; unfold Close, bind; rewrite H; reflexivity.
Qed.


Lemma evolves_Close (bk : backend) : evolves (Close bk).
Proof.
  intros s.
  destruct (L (cond (r (file s)))) eqn:HLr;
    [| destruct (L (cond (w (file s)))) eqn:HLw].
  - destruct (Lock_blocked s) as [s' E]; [left; exact HLr |].
    rewrite (proj1 (Close_of_Lock bk s s') E).
    pose proof (evolves_Lock s) as H. rewrite E in H. exact H.
  - destruct (Lock_blocked s) as [s' E]; [right; exact HLw |].
    rewrite (proj1 (Close_of_Lock bk s s') E).
    pose proof (evolves_Lock s) as H. rewrite E in H. exact H.
  - destruct (closed (file s)) eqn:Hc.
    + rewrite (proj2 (Close_of_Lock bk s s) ErrClosed
                 (Lock_on_closed s HLr HLw Hc)).
      apply evolved_refl.
    + rewrite Close_open_eq by assumption. cbn [final].
      destruct (Close_post_spec s)
        as (Pc & Pfd & _ & _ & _ & _ & _ & _ & _ & Prel).
      split; [exact Pfd |]. split; [reflexivity |]. split; [reflexivity |].
      right. split; [exact Hc |]. split; [exact Pc | exact Prel].
Qed.

Lemma evolves_startTrack (bk : backend) (d : Z) (write : bool) :
  evolves (startTrack bk d write).
Proof.
  unfold startTrack, EpollB.startTrack, SelectB.startTrack, SelectB.wakeup.
  destruct bk; [apply evolves_ret |].
  apply evolves_bind; [apply evolves_get | intros s0].
  destruct write; evolves_tac.
Qed.

Lemma evolves_stopTrack (bk : backend) (d : Z) (write : bool) :
  evolves (stopTrack bk d write).
Proof.
  unfold stopTrack, EpollB.stopTrack, SelectB.stopTrack, SelectB.wakeup.
  destruct bk; [apply evolves_ret |].
  apply evolves_bind; [apply evolves_get | intros s0].
  destruct write; evolves_tac.
Qed.

Lemma evolves_evReady (bk : backend) (write : bool) :
  evolves (evReady bk write).
Proof.
  unfold evReady, EpollB.epollEv, SelectB.evReady, Broadcast.
  destruct bk.
  - apply evolves_bind; [apply evolves_get | intros s0]. evolves_tac.
  - apply evolves_bind; [apply evolves_get | intros s0].
    destruct write; evolves_tac.
Qed.

Lemma evolves_run_action (bk : backend) (a : action) :
  evolves (run_action bk a).
Proof.
  destruct a; simpl; unfold SetReadDeadline, SetWriteDeadline, timer_fire.
  - evolves_tac.
  - apply evolves_bind; [apply evolves_Close | intros; apply evolves_ret].
  - apply evolves_bind;
      [apply evolves_SetDeadline | intros; apply evolves_ret].
  - apply evolves_bind;
      [apply evolves_setDeadline | intros; apply evolves_ret].
  - apply evolves_bind;
      [apply evolves_setDeadline | intros; apply evolves_ret].
  - apply evolves_bind; [apply evolves_Lock | intros; apply evolves_ret].
  - apply evolves_Unlock.
  - apply evolves_bind; [apply evolves_get | intros s0].
    destruct (timers s0 !! id) as [t |]; [| apply evolves_ret].
    destruct (tm_live t && _); [| apply evolves_ret].
    apply evolves_bind; [| intros _; apply evolves_timerEvent].
    unfold timer_Stop. evolves_tac.
  - apply evolves_timerEvent.
  - apply evolves_evReady.
Qed.

Lemma evolves_run_actions (bk : backend) (l : list action) :
  evolves (run_actions bk l).
Proof.
  induction l as [| a l IH]; simpl; [apply evolves_ret |].
  apply evolves_bind; [apply evolves_run_action | intros _; exact IH].
Qed.

Lemma evolves_cond_Wait (bk : backend) (write : bool) :
  evolves (cond_Wait bk write).
Proof.
  unfold cond_Wait.
  apply evolves_bind; [apply evolves_condL_Unlock | intros _].
  apply evolves_bind; [apply evolves_get | intros s0].
  destruct (env s0) as [| batch rest]; [apply evolves_blocked |].
  apply evolves_bind; [evolves_tac | intros _].
  apply evolves_bind; [apply evolves_run_actions | intros _].
  apply evolves_bind; [apply evolves_get | intros s1].
  evolves_tac.
Qed.

Lemma evolves_sysrw_loop (fuel : nat) (bk : backend) (write : bool)
    (p : list byte) (errEOF : error) :
  evolves (sysrw_loop fuel bk write p errEOF).
Proof.
  induction fuel as [| fuel IH]; [intros s; apply evolved_refl |].
  cbn -[rwfun startTrack stopTrack cond_Wait bind].
  apply evolves_bind; [apply evolves_get | intros s0].
  destruct (closed (file s0)); [apply evolves_ret |].
  destruct (timeout (fdc write (file s0))); [apply evolves_ret |].
  apply evolves_bind; [apply evolves_rwfun | intros res].
  destruct (snd res) as [err |]; [| evolves_tac].
  destruct (negb (error_eqb err EAGAIN)); [apply evolves_ret |].
  apply evolves_bind; [apply evolves_startTrack | intros _].
  apply evolves_bind; [apply evolves_cond_Wait | intros _].
  apply evolves_bind; [apply evolves_get | intros s1].
  apply evolves_bind; [| intros _; exact IH].
  destruct (closed (file s1) || timeout (fdc write (file s1)));
    [apply evolves_stopTrack | apply evolves_ret].
Qed.

Lemma evolves_sysrw (bk : backend) (write : bool) (p : list byte) :
  evolves (sysrw bk write p).
Proof.
  unfold sysrw.
  apply evolves_bind; [apply evolves_condL_Lock | intros _].
  apply evolves_bind; [apply evolves_get | intros s0].
  apply evolves_bind; [apply evolves_sysrw_loop | intros res].
  evolves_tac.
Qed.

Lemma evolves_Write_gap (bk : backend) : evolves (Write_gap bk).
Proof.
  unfold Write_gap.
  apply evolves_bind; [apply evolves_get | intros s0].
  destruct (env s0) as [| batch rest]; [apply evolves_ret |].
  apply evolves_bind; [evolves_tac | intros _].
  apply evolves_run_actions.
Qed.

Lemma evolves_Write_loop (fuel : nat) (bk : backend) (p : list byte) (n : Z) :
  evolves (Write_loop fuel bk p n).
Proof.
  revert n. induction fuel as [| fuel IH]; intros n; [intros s; apply evolved_refl |].
  cbn -[sysrw slice_from Write_gap].
  destruct (negb (n =? len p)); [| apply evolves_ret].
  destruct (slice_from p n) as [q |]; [| intros s; apply evolved_refl].
  apply evolves_bind; [apply evolves_sysrw | intros res].
  destruct (snd res); [apply evolves_ret |].
  apply evolves_bind; [| intros _; apply IH].
  destruct (negb (n + fst res =? len p));
    [apply evolves_Write_gap | apply evolves_ret].
Qed.

Lemma evolves_run_call (bk : backend) (c : call) : evolves (run_call bk c).
Proof.
  destruct c; simpl; unfold Read, Write, SetReadDeadline, SetWriteDeadline.
  - apply evolves_bind; [| intros; apply evolves_ret].
    apply evolves_bind; [apply evolves_m_Lock | intros _].
    apply evolves_bind; [apply evolves_sysrw | intros res].
    evolves_tac.
  - apply evolves_bind; [| intros; apply evolves_ret].
    apply evolves_bind; [apply evolves_m_Lock | intros _].
    apply evolves_bind; [apply evolves_Write_loop | intros res].
    evolves_tac.
  - apply evolves_Close.
  - apply evolves_SetDeadline.
  - apply evolves_setDeadline.
  - apply evolves_setDeadline.
  - apply evolves_Lock.
Qed.

Lemma evolved_released (s s' : World) :
  evolved s s' -> released_iff_closed s -> released_iff_closed s'.
Proof.
  unfold released_iff_closed.
  intros (_ & _ & _ & [[Hc Hr] | (Hc & Hc' & Hr)]) Hs.
  - rewrite Hc, Hr. exact Hs.
  - rewrite Hc', Hr, Hs, Hc. reflexivity.
Qed.

Lemma later_evolved (bk : backend) (s s' : World) :
  later bk s s' -> evolved s s'.
Proof.
  induction 1 as [s | s s1 s2 c e Hc _ IH | s s1 s2 a Ha _ IH].
  - apply evolved_refl.
  - apply evolved_trans with s1; [| exact IH].
    pose proof (evolves_run_call bk c s) as H. rewrite Hc in H. exact H.
  - apply evolved_trans with s1; [| exact IH].
    pose proof (evolves_run_action bk a s) as H. rewrite Ha in H. exact H.
Qed.

(** From a state where the descriptor was released exactly if the File is
    closed (a new File is such a state), whatever calls return and
    whatever the other goroutines do, also while a Read or a Write of the
    File sleeps, this stays so: the descriptor is released at most once, a
    closed File's descriptor was released, and an open File's descriptor
    never was.  It holds as well in the state any further call ends in,
    returned or not. *)
Theorem released_once (bk : backend) (s s' : World) :
  later bk s s' -> released_iff_closed s ->
  released_iff_closed s' /\
  (releases (trace s') <= 1)%nat /\
  forall c, released_iff_closed (final (run_call bk c s')).
Proof.
  intros Hl Hs.
  assert (Hs' : released_iff_closed s')
    by (apply (evolved_released s s'); [apply (later_evolved bk) |];
        assumption).
  split; [exact Hs' |]. split.
  - unfold released_iff_closed in Hs'. rewrite Hs'.
    destruct (closed (file s')); lia.
  - intros c. apply (evolved_released s'); [| exact Hs'].
    apply evolves_run_call.
Qed.

(** What never changes.  Over any sequence of calls that return and of
    steps of the other goroutines, and up to the state any further call
    ends in, returned or not: the descriptor, the name and the [closeF]
    of a File stay what they were when it was made, so that [Fd] and
    [Name] always answer the same; the closed flag, once set, is never
    cleared; and releases of the descriptor are never undone. *)
Theorem File_identity (bk : backend) (s s' : World) (c : call) :
  later bk s s' ->
  let s'' := final (run_call bk c s') in
  (fd (file s') = fd (file s) /\ fd (file s'') = fd (file s)) /\
  (name (file s') = name (file s) /\ name (file s'') = name (file s)) /\
  (closeF (file s') = closeF (file s) /\
   closeF (file s'') = closeF (file s)) /\
  (closed (file s) = true ->
   closed (file s') = true /\ closed (file s'') = true) /\
  (releases (trace s) <= releases (trace s') <= releases (trace s''))%nat.
Proof.
  intros Hl s''.
  pose proof (later_evolved bk s s' Hl) as (F1 & N1 & C1 & H1).
  pose proof (evolves_run_call bk c s') as (F2 & N2 & C2 & H2).
  fold s'' in F2, N2, C2, H2.
  split; [split; congruence |]. split; [split; congruence |].
  split; [split; congruence |].
  split.
  - intros Hc.
    assert (Hc' : closed (file s') = true).
    { destruct H1 as [[E _] | (E & _)]; congruence. }
    split; [exact Hc' |].
    destruct H2 as [[E _] | (E & _)]; congruence.
  - destruct H1 as [[_ E1] | (_ & _ & E1)];
      destruct H2 as [[_ E2] | (_ & _ & E2)]; lia.
Qed.

Lemma File_identity_witness :
  fd (file (closed_world SelectBuild)) = 5 /\
  closed (file (final (run_call SelectBuild (CRead [0])
                         (closed_world SelectBuild)))) = true.
Proof.
  destruct (File_identity SelectBuild (fresh SelectBuild 5 [] [])
              (closed_world SelectBuild) (CRead [0]))
    as ((F1 & _) & _ & _ & _ & _).
  - apply (later_call SelectBuild (fresh SelectBuild 5 [] [])
             (closed_world SelectBuild) (closed_world SelectBuild)
             CClose None); [vm_compute; reflexivity | apply later_refl].
  - split; [exact F1 |].
    destruct (File_identity SelectBuild (closed_world SelectBuild)
                (closed_world SelectBuild) (CRead [0]))
      as (_ & _ & _ & Hc & _); [apply later_refl |].
    apply Hc. reflexivity.
Defined.

Lemma released_once_witness :
  released_iff_closed (closed_world SelectBuild) /\
  releases (trace (closed_world SelectBuild)) = 1%nat.
Proof.
  destruct (released_once SelectBuild (fresh SelectBuild 5 [] [])
              (closed_world SelectBuild)) as (H1 & _ & _).
  - apply (later_call SelectBuild (fresh SelectBuild 5 [] [])
             (closed_world SelectBuild) (closed_world SelectBuild)
             CClose None); [vm_compute; reflexivity | apply later_refl].
  - reflexivity.
  - split; [exact H1 | vm_compute; reflexivity].
Defined.

(** ** What wakes a sleeping Read or Write *)

Lemma lockL_unlockL (write : bool) (s : World) :
  L (cond (fdc write (file s))) = false ->
  file (unlockL write (lockL write s)) = file s.
Proof.
  intros HL. destruct_world s.
  destruct write; simpl in HL; subst; reflexivity.
Qed.

Lemma file_unlockL_frame (write : bool) (s s' : World) :
  file s' = file s -> file (unlockL write s') = file (unlockL write s).
Proof. intros H. unfold unlockL, upd_fdc. simpl. rewrite H. reflexivity. Qed.

(** What [startTrack] and [stopTrack] leave alone. *)
Lemma startTrack_frame (bk : backend) (d : Z) (write : bool) (s : World) :
  exists s',
    startTrack bk d write s = Ret tt s' /\
    file s' = file s /\ now s' = now s /\ timers s' = timers s /\
    fdm s' = fdm s /\ kern s' = kern s /\ kclose s' = kclose s /\
    env s' = env s /\ syscalls (trace s') = syscalls (trace s) /\
    releases (trace s') = releases (trace s) /\
    (bk = SelectBuild -> tracked write s' !! d = Some tt).
Proof.
  destruct bk.
  - exists s. repeat split; try reflexivity. discriminate.
  - unfold startTrack, SelectB.startTrack, SelectB.wakeup, tracked, bind,
      get, modify, ret.
    destruct write; simpl;
      match goal with
      | |- context [bool_decide ?P] => destruct (bool_decide P)
      end; simpl; eexists; (split; [reflexivity |]); simpl;
      repeat split; try reflexivity; intros _; apply lookup_insert_eq.
Qed.

Lemma stopTrack_frame (bk : backend) (d : Z) (write : bool) (s : World) :
  exists s',
    stopTrack bk d write s = Ret tt s' /\
    file s' = file s /\ now s' = now s /\ timers s' = timers s /\
    fdm s' = fdm s /\ kern s' = kern s /\ kclose s' = kclose s /\
    env s' = env s /\ syscalls (trace s') = syscalls (trace s) /\
    releases (trace s') = releases (trace s) /\
    (bk = SelectBuild -> tracked write s' !! d = None).
Proof.
  destruct bk.
  - exists s. repeat split; try reflexivity. discriminate.
  - unfold stopTrack, SelectB.stopTrack, SelectB.wakeup, tracked, bind,
      get, modify, ret.
    destruct write; simpl;
      match goal with
      | |- context [bool_decide ?P] => destruct (bool_decide P)
      end; simpl; eexists; (split; [reflexivity |]); simpl;
      repeat split; try reflexivity; intros _; apply lookup_delete_eq.
Qed.

Lemma would_block_rwfun (write : bool) (d : Z) (p : list byte) (s : World) :
  would_block (kern s) = true ->
  closed (file s) = false -> timeout (fdc write (file s)) = false ->
  L (cond (fdc write (file s))) = true ->
  rwfun write d p s =
    Ret (-1, Some EAGAIN)
        (log (eagain_event write p) (set_kern (tail (kern s)) s)).
Proof.
  intros Hk Hc Ht HL. unfold rwfun, eagain_event. rewrite Hc, Ht, HL.
  destruct (kern s) as [| [k | e] ks]; simpl in Hk; try discriminate.
  - reflexivity.
  - apply Z.eqb_eq in Hk. subst. reflexivity.
Qed.

(** The state of the sleeper. *)
Lemma asleep_spec (bk : backend) (write : bool) (p : list byte) (s : World) :
  L (cond (fdc write (file s))) = false ->
  file (asleep bk write p s) = file s /\
  now (asleep bk write p s) = now s /\
  timers (asleep bk write p s) = timers s /\
  fdm (asleep bk write p s) = fdm s /\
  kern (asleep bk write p s) = tail (kern s) /\
  kclose (asleep bk write p s) = kclose s /\
  env (asleep bk write p s) = tail (env s) /\
  syscalls (trace (asleep bk write p s)) =
    eagain_event write p :: syscalls (trace s) /\
  releases (trace (asleep bk write p s)) = releases (trace s) /\
  (bk = SelectBuild ->
   tracked write (asleep bk write p s) !! fd (file s) = Some tt).
Proof.
  intros HL. unfold asleep. cbv zeta.
  destruct (startTrack_frame bk (fd (file s)) write
              (log (eagain_event write p)
                   (set_kern (tail (kern (lockL write s))) (lockL write s))))
    as (s2 & E & Hf & Hn & Htm & Hfdm & Hk & Hkc & He & Hsys & Hrel & Htr).
  rewrite E. cbn [final].
  split.
  { change (file (unlockL write s2) = file s).
    rewrite (file_unlockL_frame write (lockL write s) s2).
    - apply lockL_unlockL. exact HL.
    - rewrite Hf. reflexivity. }
  split; [exact Hn |]. split; [exact Htm |]. split; [exact Hfdm |].
  split; [exact Hk |]. split; [exact Hkc |]. split; [reflexivity |].
  split; [exact Hsys |]. split; [exact Hrel |].
  intros Hbk. specialize (Htr Hbk).
  destruct write; exact Htr.
Qed.

Lemma lockL_spec (write : bool) (s : World) :
  closed (file (lockL write s)) = closed (file s) /\
  fd (file (lockL write s)) = fd (file s) /\
  timeout (fdc write (file (lockL write s))) = timeout (fdc write (file s)) /\
  notify (cond (fdc write (file (lockL write s)))) =
    notify (cond (fdc write (file s))) /\
  L (cond (fdc write (file (lockL write s)))) = true /\
  env (lockL write s) = env s /\ kern (lockL write s) = kern s.
Proof. destruct write; repeat split; reflexivity. Qed.

Lemma unlockL_spec (write : bool) (s : World) :
  closed (file (unlockL write s)) = closed (file s) /\
  fd (file (unlockL write s)) = fd (file s) /\
  timeout (fdc write (file (unlockL write s))) =
    timeout (fdc write (file s)) /\
  notify (cond (fdc write (file (unlockL write s)))) =
    notify (cond (fdc write (file s))) /\
  L (cond (fdc write (file (unlockL write s)))) = false /\
  fdc (negb write) (file (unlockL write s)) = fdc (negb write) (file s) /\
  m (fdc write (file (unlockL write s))) = m (fdc write (file s)) /\
  env (unlockL write s) = env s /\ kern (unlockL write s) = kern s /\
  trace (unlockL write s) = trace s /\
  fdTrR (unlockL write s) = fdTrR s /\ fdTrW (unlockL write s) = fdTrW s.
Proof. destruct write; repeat split; reflexivity. Qed.

(** One sleep of [sysrw].  A call that gets a would-block sleeps; when the
    other goroutines' batch ends with a broadcast on the direction and
    the lock free, the sleeper wakes, and returns [ErrClosed] on a closed
    File, [ErrTimeout] on a timed-out direction, and otherwise goes on as
    a call made in the World the others left. *)
Lemma sysrw_sleep (bk : backend) (write : bool) (p : list byte)
    (s s3 : World) (batch : list action) (rest : list (list action)) :
  L (cond (fdc write (file s))) = false ->
  closed (file s) = false ->
  timeout (fdc write (file s)) = false ->
  would_block (kern s) = true ->
  env s = batch :: rest ->
  run_actions bk batch (asleep bk write p s) = Ret tt s3 ->
  notify (cond (fdc write (file s3))) <>
    notify (cond (fdc write (file s))) ->
  L (cond (fdc write (file s3))) = false ->
  sysrw bk write p s =
    if closed (file s3)
    then Ret (0, Some ErrClosed) (given_up bk write (fd (file s)) s3)
    else if timeout (fdc write (file s3))
         then Ret (0, Some ErrTimeout) (given_up bk write (fd (file s)) s3)
         else sysrw bk write p s3.
Proof.
  intros HL Hc Ht Hk He Hrun Hn HL3.
  assert (He3 : env s3 = rest).
  { destruct (preserves_run_actions bk batch (asleep bk write p s))
      as [(_ & _ & Q & _) _].
    rewrite Hrun in Q. cbn [final] in Q. rewrite Q.
    destruct (asleep_spec bk write p s HL)
      as (_ & _ & _ & _ & _ & _ & E & _).
    rewrite E, He. reflexivity. }
  rewrite sysrw_eq, HL. cbv zeta.
  fold (lockL write s).
  destruct (lockL_spec write s) as (Lc & Lfd & Lt & Ln & LL & Le & Lk).
  unfold sysrw_fuel. rewrite Le, He. cbn [length].
  rewrite sysrw_loop_eq. rewrite Lc, Hc, Lt, Ht.
  rewrite would_block_rwfun;
    [| rewrite Lk; exact Hk | rewrite Lc; exact Hc | rewrite Lt; exact Ht
     | exact LL].
  cbn [snd]. change (error_eqb EAGAIN EAGAIN) with true. cbn [negb].
  rewrite Lfd.
  assert (Ha : asleep bk write p s =
               set_env rest
                 (unlockL write
                    (final (startTrack bk (fd (file s)) write
                              (log (eagain_event write p)
                                   (set_kern (tail (kern (lockL write s)))
                                             (lockL write s))))))).
  { unfold asleep. cbv zeta. rewrite He. reflexivity. }
  destruct (startTrack_frame bk (fd (file s)) write
              (log (eagain_event write p)
                   (set_kern (tail (kern (lockL write s))) (lockL write s))))
    as (s2 & E2 & Hf2 & _ & _ & _ & _ & _ & He2 & _).
  rewrite E2 in Ha |- *. cbn [final] in Ha.
  cbn [file log set_kern env] in Hf2, He2.
  (* the sleep *)
  unfold cond_Wait, bind, condL_Unlock, get, modify.
  rewrite Hf2, LL. fold (unlockL write s2).
  destruct (unlockL_spec write s2) as (_ & _ & _ & Un & _ & _ & _ & Ue & _).
  rewrite Ue, He2, Le, He. rewrite <- Ha, Hrun.
  rewrite Un, Hf2, Ln.
  destruct (Nat.eqb_spec (notify (cond (fdc write (file s3))))
              (notify (cond (fdc write (file s))))) as [E | _];
    [contradiction |].
  unfold condL_Lock. rewrite HL3. fold (lockL write s3).
  destruct (lockL_spec write s3) as (Lc3 & _ & Lt3 & _ & LL3 & Le3 & _).
  rewrite Lc3, Lt3.
  destruct (closed (file s3)) eqn:Hc3; cbn [orb].
  - unfold given_up.
    destruct (stopTrack_frame bk (fd (file s)) write (lockL write s3))
      as (s4 & E4 & Hf4 & _).
    rewrite E4. cbn [final]. rewrite sysrw_loop_eq.
    rewrite Hf4, Lc3. cbv iota. rewrite Hf4, LL3. reflexivity.
  - destruct (timeout (fdc write (file s3))) eqn:Ht3.
    + unfold given_up.
      destruct (stopTrack_frame bk (fd (file s)) write (lockL write s3))
        as (s4 & E4 & Hf4 & _).
      rewrite E4. cbn [final]. rewrite sysrw_loop_eq.
      rewrite Hf4, Lc3, Lt3. cbv iota. rewrite Hf4, LL3. reflexivity.
    + unfold ret. rewrite (sysrw_eq bk write p s3), HL3. cbv zeta.
      unfold sysrw_fuel. fold (lockL write s3). rewrite Le3, He3.
      reflexivity.
Qed.







(** ** Timers and readiness events reaching a sleeper *)

(** A sleeper nobody notifies stays asleep. *)
Lemma sysrw_sleep_on (bk : backend) (write : bool) (p : list byte)
    (s s3 : World) (batch : list action) (rest : list (list action)) :
  L (cond (fdc write (file s))) = false ->
  closed (file s) = false ->
  timeout (fdc write (file s)) = false ->
  would_block (kern s) = true ->
  env s = batch :: rest ->
  run_actions bk batch (asleep bk write p s) = Ret tt s3 ->
  notify (cond (fdc write (file s3))) =
    notify (cond (fdc write (file s))) ->
  sysrw bk write p s = Blocked s3.
Proof.
  intros HL Hc Ht Hk He Hrun Hn.
  rewrite sysrw_eq, HL. cbv zeta.
  fold (lockL write s).
  destruct (lockL_spec write s) as (Lc & Lfd & Lt & Ln & LL & Le & Lk).
  unfold sysrw_fuel. rewrite Le, He. cbn [length].
  rewrite sysrw_loop_eq. rewrite Lc, Hc, Lt, Ht.
  rewrite would_block_rwfun;
    [| rewrite Lk; exact Hk | rewrite Lc; exact Hc | rewrite Lt; exact Ht
     | exact LL].
  cbn [snd]. change (error_eqb EAGAIN EAGAIN) with true. cbn [negb].
  rewrite Lfd.
  assert (Ha : asleep bk write p s =
               set_env rest
                 (unlockL write
                    (final (startTrack bk (fd (file s)) write
                              (log (eagain_event write p)
                                   (set_kern (tail (kern (lockL write s)))
                                             (lockL write s))))))).
  { unfold asleep. cbv zeta. rewrite He. reflexivity. }
  destruct (startTrack_frame bk (fd (file s)) write
              (log (eagain_event write p)
                   (set_kern (tail (kern (lockL write s))) (lockL write s))))
    as (s2 & E2 & Hf2 & _ & _ & _ & _ & _ & He2 & _).
  rewrite E2 in Ha |- *. cbn [final] in Ha.
  cbn [file log set_kern env] in Hf2, He2.
  unfold cond_Wait, bind, condL_Unlock, get, modify.
  rewrite Hf2, LL. fold (unlockL write s2).
  destruct (unlockL_spec write s2) as (_ & _ & _ & Un & _ & _ & _ & Ue & _).
  rewrite Ue, He2, Le, He. rewrite <- Ha, Hrun.
  rewrite Un, Hf2, Ln, Hn, Nat.eqb_refl. reflexivity.
Qed.



Lemma run_timer_batch (bk : backend) (write : bool) (d id : nat) (tm : Timer)
    (a : World) :
  L (cond (fdc write (file a))) = false ->
  closed (file a) = false ->
  timeout (fdc write (file a)) = false ->
  deadline (fdc write (file a)) <> 0 ->
  deadline (fdc write (file a)) <= now a + Z.of_nat d ->
  timers a !! id = Some tm ->
  tm_write tm = write ->
  tm_live tm = true ->
  tm_armed tm + tm_d tm <= now a + Z.of_nat d ->
  run_actions bk [ATick d; ATimerFire id] a = Ret tt (fired write d id a).
Proof.
  intros HL Hc Ht Hd Hn Htm Hw Hlive Hdue.
  unfold run_actions, run_action, timer_fire, timer_Stop, bind, modify, get.
  cbn [timers set_now now]. rewrite Htm, Hlive, Hw.
  replace (tm_armed tm + tm_d tm <=? now a + Z.of_nat d) with true by lia.
  cbn [andb]. rewrite timerEvent_due; [reflexivity | | | | |];
    cbn [file set_timers set_now now]; assumption.
Qed.


Lemma fired_spec (write : bool) (d id : nat) (a : World) :
  closed (file (fired write d id a)) = closed (file a) /\
  timeout (fdc write (file (fired write d id a))) = true /\
  notify (cond (fdc write (file (fired write d id a)))) =
    S (notify (cond (fdc write (file a)))) /\
  L (cond (fdc write (file (fired write d id a)))) =
    L (cond (fdc write (file a))) /\
  m (fdc write (file (fired write d id a))) = m (fdc write (file a)) /\
  fdc (negb write) (file (fired write d id a)) = fdc (negb write) (file a) /\
  now (fired write d id a) = now a + Z.of_nat d /\
  timers (fired write d id a) = alter stopped id (timers a) /\
  env (fired write d id a) = env a /\
  syscalls (trace (fired write d id a)) = syscalls (trace a).
Proof. destruct write; repeat split; reflexivity. Qed.



Lemma wake_eq (write : bool) (a : World) :
  L (cond (fdc write (file a))) = false ->
  (condL_Lock write ;;; Broadcast write ;;; condL_Unlock write) a =
    Ret tt (upd_fdc write woken a).
Proof.
  intros HL. destruct_world a.
  destruct write; simpl in HL; subst; reflexivity.
Qed.

Lemma evReady_registered (bk : backend) (write : bool) (a : World) :
  L (cond (fdc write (file a))) = false ->
  is_Some (fdm a !! fd (file a)) ->
  evReady bk write a =
    Ret tt (match bk with
            | EpollBuild => upd_fdc write woken a
            | SelectBuild => made_ready write a
            end).
Proof.
  intros HL [[] Hreg]. destruct bk.
  - unfold evReady, EpollB.epollEv, bind at 1, get. rewrite Hreg.
    apply wake_eq. exact HL.
  - unfold evReady, SelectB.evReady, bind at 1, get. cbv zeta.
    rewrite Hreg. unfold made_ready.
    destruct write; unfold bind at 1, modify; cbv zeta.
    + rewrite wake_eq by (destruct_world a; exact HL).
      destruct_world a; reflexivity.
    + rewrite wake_eq by (destruct_world a; exact HL).
      destruct_world a; reflexivity.
Qed.

Lemma evReady_unregistered (bk : backend) (write : bool) (a : World) :
  fdm a !! fd (file a) = None ->
  exists s3, evReady bk write a = Ret tt s3 /\ file s3 = file a.
Proof.
  intros Hreg. destruct bk.
  - unfold evReady, EpollB.epollEv, bind, get. rewrite Hreg.
    exists a. split; reflexivity.
  - unfold evReady, SelectB.evReady, bind, get. cbv zeta. rewrite Hreg.
    destruct write; unfold modify, ret; eexists; split; reflexivity.
Qed.

(** A [sysrw] that sleeps on a would-block while the backend's loop
    reports the descriptor ready in its direction: when the File is in
    the registry, the sleeper is woken, calls the kernel again and
    returns what this second call gives; on the select build the
    descriptor has left the interest set.  When the descriptor is not in
    the registry the event is dropped and the sleeper stays asleep. *)
Theorem ready_wakes_sleeper (bk : backend) (write : bool) (p : list byte)
    (s : World) (k : nat) (ks : list kresp) (rest : list (list action)) :
  L (cond (fdc write (file s))) = false ->
  closed (file s) = false ->
  timeout (fdc write (file s)) = false ->
  kern s = Fail 11 :: Xfer k :: ks ->
  env s = [AReady write] :: rest ->
  let n := Z.min (Z.of_nat k) (len p) in
  (is_Some (fdm s !! fd (file s)) ->
   exists s',
     sysrw bk write p s =
       Ret (n, if (n =? 0) && negb (len p =? 0)
               then Some (if write then ErrUnexpectedEOF else EOF)
               else None) s' /\
     kern s' = ks /\ env s' = rest /\
     syscalls (trace s') =
       EvSyscall write p n None (mkSnap false false true)
         :: eagain_event write p :: syscalls (trace s) /\
     L (cond (fdc write (file s'))) = false /\
     notify (cond (fdc write (file s'))) =
       S (notify (cond (fdc write (file s)))) /\
     (bk = SelectBuild -> tracked write s' !! fd (file s) = None)) /\
  (fdm s !! fd (file s) = None ->
   exists s', sysrw bk write p s = Blocked s').
Proof.
  intros HL Hc Ht Hk He n.
  assert (Hwb : would_block (kern s) = true) by (rewrite Hk; reflexivity).
  destruct (asleep_spec bk write p s HL)
    as (Af & _ & _ & Afdm & Ak & _ & Ae & Asys & _ & Atr).
  set (a := asleep bk write p s) in *.
  assert (HLa : L (cond (fdc write (file a))) = false) by congruence.
  split.
  - intros Hreg.
    set (s3 := match bk with
               | EpollBuild => upd_fdc write woken a
               | SelectBuild => made_ready write a
               end).
    assert (Hrun : run_actions bk [AReady write] a = Ret tt s3).
    { unfold run_actions, run_action, bind.
      rewrite evReady_registered; [reflexivity | exact HLa |].
      rewrite Afdm, Af. exact Hreg. }
    assert (S3 : file s3 = file (upd_fdc write woken a) /\
                 kern s3 = kern a /\ env s3 = env a /\
                 trace s3 = trace a /\
                 (bk = SelectBuild ->
                  tracked write s3 !! fd (file a) = None)).
    { unfold s3, made_ready. destruct bk.
      - repeat split; try reflexivity. discriminate.
      - destruct write; repeat split; try reflexivity; intros _;
          apply lookup_delete_eq. }
    destruct S3 as (S3f & S3k & S3e & S3t & S3tr).
    assert (W : closed (file (upd_fdc write woken a)) = closed (file a) /\
                timeout (fdc write (file (upd_fdc write woken a))) =
                  timeout (fdc write (file a)) /\
                L (cond (fdc write (file (upd_fdc write woken a)))) =
                  L (cond (fdc write (file a))) /\
                notify (cond (fdc write (file (upd_fdc write woken a)))) =
                  S (notify (cond (fdc write (file a))))).
    { destruct write; repeat split; reflexivity. }
    destruct W as (Wc & Wt & WL & Wn).
    rewrite <- S3f in Wc, Wt, WL, Wn. rewrite Af in Wc, Wt, WL, Wn.
    assert (P5 : notify (cond (fdc write (file s3))) <>
                 notify (cond (fdc write (file s)))) by (rewrite Wn; lia).
    assert (P6 : L (cond (fdc write (file s3))) = false) by congruence.
    rewrite (sysrw_sleep bk write p s s3 [AReady write] rest
               HL Hc Ht Hwb He Hrun P5 P6).
    rewrite Wc, Hc, Wt, Ht.
    rewrite (sysrw_xfer bk write p s3 k ks); try congruence.
    2: { rewrite S3k, Ak, Hk. reflexivity. }
    fold n. eexists. split; [reflexivity |].
    cbn [kern env log set_kern trace].
    split; [reflexivity |].
    split; [rewrite S3e, Ae, He; reflexivity |].
    split.
    { unfold syscalls at 1. cbn [List.filter is_syscall].
      fold (syscalls (trace s3)). rewrite S3t, Asys. reflexivity. }
    split; [exact P6 |]. split; [exact Wn |].
    intros Hbk. specialize (S3tr Hbk). rewrite Af in S3tr.
    destruct write; exact S3tr.
  - intros Hreg.
    destruct (evReady_unregistered bk write a) as (s3 & E3 & F3).
    { rewrite Afdm, Af. exact Hreg. }
    exists s3.
    apply (sysrw_sleep_on bk write p s s3 [AReady write] rest);
      try assumption.
    + change (run_actions bk [AReady write] a = Ret tt s3).
      unfold run_actions, run_action, bind. rewrite E3. reflexivity.
    + rewrite F3, Af. reflexivity.
Qed.

Lemma ready_wakes_sleeper_witness :
  exists s',
    sysrw SelectBuild false [0; 0]
          (fresh SelectBuild 5 [Fail 11; Xfer 3] [[AReady false]]) =
      Ret (2, None) s' /\
    kern s' = [].
Proof.
  destruct (ready_wakes_sleeper SelectBuild false [0; 0]
              (fresh SelectBuild 5 [Fail 11; Xfer 3] [[AReady false]])
              3 [] []) as [H _];
    [reflexivity | reflexivity | reflexivity | reflexivity | reflexivity |].
  destruct H as (s' & E & Hk & _).
  - exists tt. vm_compute. reflexivity.
  - exists s'. split; [exact E | exact Hk].
Defined.

Lemma setDeadline_post_spec (write : bool) (t : Time) (s : World) :
  let s1 := setDeadline_post write t s in
  closed (file s1) = closed (file s) /\
  fd (file s1) = fd (file s) /\
  (forall wr, L (cond (fdc wr (file s1))) = L (cond (fdc wr (file s))) /\
              m (fdc wr (file s1)) = m (fdc wr (file s)) /\
              notify (cond (fdc wr (file s1))) =
                notify (cond (fdc wr (file s)))) /\
  timeout (fdc write (file s1)) = false /\
  deadline (fdc write (file s1)) = t /\
  timeout (fdc (negb write) (file s1)) = timeout (fdc (negb write) (file s)) /\
  deadline (fdc (negb write) (file s1)) =
    deadline (fdc (negb write) (file s)) /\
  timer (fdc (negb write) (file s1)) = timer (fdc (negb write) (file s)) /\
  kern s1 = kern s /\ env s1 = env s /\ trace s1 = trace s /\
  fdm s1 = fdm s /\ now s1 = now s.
Proof.
  cbv zeta. unfold setDeadline_post.
  destruct (t =? 0); destruct (timer (fdc write (file s)));
    destruct write; repeat split; try reflexivity; destruct wr; reflexivity.
Qed.

(** A timed-out direction stays timed out until its deadline is set
    again: [sysrw] returns [ErrTimeout] at once, with no system call and
    the World unchanged; after [setDeadline] with any time, zero
    included, the flag is clear and the same call reaches the kernel and
    returns what it transfers. *)
Theorem timeout_until_reset (bk : backend) (write : bool) (q : list byte)
    (s : World) (t : Time) (k : nat) (ks : list kresp) :
  L (cond (fdc write (file s))) = false ->
  closed (file s) = false ->
  timeout (fdc write (file s)) = true ->
  kern s = Xfer k :: ks ->
  let n := Z.min (Z.of_nat k) (len q) in
  sysrw bk write q s = Ret (0, Some ErrTimeout) s /\
  exists s1,
    setDeadline write t s = Ret None s1 /\
    timeout (fdc write (file s1)) = false /\
    deadline (fdc write (file s1)) = t /\
    sysrw bk write q s1 =
      Ret (n, if (n =? 0) && negb (len q =? 0)
              then Some (if write then ErrUnexpectedEOF else EOF)
              else None)
          (log (EvSyscall write q n None (mkSnap false false true))
               (set_kern ks s1)).
Proof.
  intros HL Hc Ht Hk n.
  split; [apply sysrw_timedout; assumption |].
  exists (setDeadline_post write t s).
  destruct (setDeadline_post_spec write t s)
    as (Pc & _ & PL & Pt & Pd & _ & _ & _ & Pk & _).
  cbv zeta in *. destruct (PL write) as (PLw & _).
  split; [apply setDeadline_open; assumption |].
  split; [exact Pt |]. split; [exact Pd |].
  apply sysrw_xfer; congruence.
Qed.

Lemma timeout_until_reset_witness :
  let s := final (run_actions EpollBuild
                    [ASetReadDeadline 150; ATick 60; ATimerFire 0]
                    (fresh EpollBuild 5 [Xfer 3] [])) in
  sysrw EpollBuild false [0; 0] s = Ret (0, Some ErrTimeout) s /\
  exists s1,
    setDeadline false 0 s = Ret None s1 /\
    fst (match sysrw EpollBuild false [0; 0] s1 with
         | Ret res _ => res
         | _ => (0, None)
         end) = 2.
Proof.
  intros s.
  destruct (timeout_until_reset EpollBuild false [0; 0] s 0 3 [])
    as (H1 & s1 & H2 & _ & _ & H3);
    [reflexivity | reflexivity | reflexivity | reflexivity |].
  split; [exact H1 |].
  exists s1. split; [exact H2 |]. rewrite H3. reflexivity.
Defined.

(** ** Lock and Unlock *)

Lemma Lock_open_eq (s : World) :
  L (cond (r (file s))) = false -> L (cond (w (file s))) = false ->
  closed (file s) = false ->
  Lock s = Ret None (lockL true (lockL false s)) /\
  Unlock (lockL true (lockL false s)) = Ret tt s.
Proof.
  intros HLr HLw Hc. destruct_world s. simpl in HLr, HLw, Hc. subst.
  split; reflexivity.
Qed.

Lemma sysrw_locked (bk : backend) (write : bool) (p : list byte) (s : World) :
  L (cond (fdc write (file s))) = true -> sysrw bk write p s = Blocked s.
Proof. intros HL. rewrite sysrw_eq, HL. reflexivity. Qed.

Lemma timerEvent_locked (write : bool) (s : World) :
  L (cond (fdc write (file s))) = true -> timerEvent write s = Blocked s.
Proof.
  intros HL. unfold timerEvent, bind, condL_Lock. rewrite HL. reflexivity.
Qed.

(** [Lock] on an open File whose two locks are free returns nil holding
    both, and [Unlock] then gives back the very state [Lock] started
    from.  In between, nothing of the File gets past the locks: Read,
    Write of a non-empty buffer, the deadline setters, a timer handler, a
    second [Lock] and [Close] all wait, so a goroutine that calls one of
    the last four while it holds the lock waits for itself.  [Unlock] on
    a File that is not locked is a fatal error. *)
Theorem Lock_Unlock (bk : backend) (s : World) :
  L (cond (r (file s))) = false -> L (cond (w (file s))) = false ->
  closed (file s) = false ->
  exists s1,
    Lock s = Ret None s1 /\
    (forall wr, L (cond (fdc wr (file s1))) = true) /\
    Unlock s1 = Ret tt s /\
    (forall p, exists s2, Read bk p s1 = Blocked s2) /\
    (forall p, p <> [] -> exists s2, Write bk p s1 = Blocked s2) /\
    (forall wr t, setDeadline wr t s1 = Blocked s1) /\
    (forall t, SetDeadline t s1 = Blocked s1) /\
    (forall wr, timerEvent wr s1 = Blocked s1) /\
    Lock s1 = Blocked s1 /\
    Close bk s1 = Blocked s1 /\
    Unlock s = Panic s.
Proof.
  intros HLr HLw Hc.
  destruct (Lock_open_eq s HLr HLw Hc) as [E1 E2].
  set (s1 := lockL true (lockL false s)) in *.
  assert (HL1 : forall wr, L (cond (fdc wr (file s1))) = true)
    by (intros []; reflexivity).
  exists s1. split; [exact E1 |]. split; [exact HL1 |].
  split; [exact E2 |].
  split.
  { intros p. rewrite Read_eq.
    destruct (m (r (file s1))); [eauto |].
    rewrite sysrw_locked by reflexivity. eauto. }
  split.
  { intros p Hp. rewrite Write_eq.
    destruct (m (w (file s1))); [eauto |].
    rewrite Write_loop_eq.
    assert (Hlen : (0 =? len p) = false).
    { destruct p; [congruence | unfold len; simpl; lia]. }
    assert (Hsl : slice_from p 0 = Some p).
    { unfold slice_from. destruct (0 <=? len p) eqn:El;
        [reflexivity | exfalso; apply Z.leb_gt in El; unfold len in El; lia]. }
    rewrite Hlen. cbn [negb]. rewrite Hsl.
    rewrite sysrw_locked by reflexivity. eauto. }
  split; [intros wr t; apply setDeadline_blocked; apply HL1 |].
  split.
  { intros t. unfold SetDeadline, SetReadDeadline, bind.
    rewrite setDeadline_blocked by apply HL1. reflexivity. }
  split; [intros wr; apply timerEvent_locked; apply HL1 |].
  assert (HLock : Lock s1 = Blocked s1).
  { unfold Lock, bind, condL_Lock. rewrite (HL1 false). reflexivity. }
  split; [exact HLock |].
  split; [apply Close_of_Lock; exact HLock |].
  unfold Unlock, bind, condL_Unlock. simpl. rewrite HLw. reflexivity.
Qed.

Lemma Lock_Unlock_witness :
  exists s1,
    Lock (fresh EpollBuild 5 [] []) = Ret None s1 /\
    Unlock s1 = Ret tt (fresh EpollBuild 5 [] []) /\
    Close EpollBuild s1 = Blocked s1.
Proof.
  destruct (Lock_Unlock EpollBuild (fresh EpollBuild 5 [] []))
    as (s1 & H1 & _ & H2 & _ & _ & _ & _ & _ & _ & H3 & _);
    [reflexivity | reflexivity | reflexivity |].
  exists s1. repeat split; assumption.
Defined.

(** ** Deadlines *)

Lemma setDeadline_post_timer (write : bool) (t : Time) (s : World) :
  timers_wf s -> t <> 0 ->
  exists id,
    timer (fdc write (file (setDeadline_post write t s))) = Some id /\
    timers (setDeadline_post write t s) !! id =
      Some (mkTimer write (Sub t (now s)) (now s) true).
Proof.
  intros [W1 W2] Ht. unfold setDeadline_post.
  destruct (Z.eqb_spec t 0) as [| _]; [contradiction |].
  destruct (timer (fdc write (file s))) as [id |] eqn:E.
  - exists id. destruct (W2 write id E) as (tm & Htm & Hw).
    split; [destruct write; simpl in *; exact E |].
    cbn [timers set_timers]. rewrite !list_lookup_alter_eq, Htm.
    simpl. unfold rearmed, stopped. simpl. rewrite Hw. reflexivity.
  - exists (length (timers s)).
    split; [destruct write; reflexivity |].
    assert (Htms : timers (upd_fdc write (set_timer (Some (length (timers s))))
                     (set_timers
                        (timers s ++
                           [mkTimer write (Sub t (now s)) (now s) true])
                        (upd_fdc write
                           (fun c => set_timeout false (set_deadline t c)) s)))
                   = timers s ++ [mkTimer write (Sub t (now s)) (now s) true])
      by (destruct write; reflexivity).
    rewrite Htms. rewrite lookup_app_r by lia.
    rewrite Nat.sub_diag. reflexivity.
Qed.

(** From [setDeadline] to the timeout.  After [setDeadline(write, t)] on
    an open File, with [t] not zero and at most the longest Duration
    away, the direction has a pending timer; when the runtime looks at
    it [d] nanoseconds later, the direction is timed out, with one
    broadcast and the timer spent, exactly if [t] is not after the clock
    then; before that the handler is not run and only the clock has
    moved. *)
Theorem deadline_expires (bk : backend) (write : bool) (t : Time) (s : World)
    (d : nat) :
  L (cond (fdc write (file s))) = false ->
  closed (file s) = false ->
  timers_wf s ->
  t <> 0 ->
  t - now s <= maxDuration ->
  exists s1 id s2,
    setDeadline write t s = Ret None s1 /\
    timer (fdc write (file s1)) = Some id /\
    run_actions bk [ATick d; ATimerFire id] s1 = Ret tt s2 /\
    (timeout (fdc write (file s2)) = true <-> t <= now s + Z.of_nat d) /\
    (t <= now s + Z.of_nat d ->
     notify (cond (fdc write (file s2))) =
       S (notify (cond (fdc write (file s)))) /\
     timers s2 !! id =
       Some (mkTimer write (Sub t (now s)) (now s) false)) /\
    (now s + Z.of_nat d < t -> s2 = set_now (now s + Z.of_nat d) s1).
Proof.
  intros HL Hc Wf Ht Hmax.
  destruct (setDeadline_post_timer write t s Wf Ht) as (id & Hid & Htm).
  destruct (setDeadline_post_spec write t s)
    as (Pc & _ & PL & Pt & Pd & _ & _ & _ & _ & _ & _ & _ & Pnow).
  cbv zeta in *. destruct (PL write) as (PLw & _ & Pn).
  set (s1 := setDeadline_post write t s) in *.
  exists s1, id.
  assert (Hsub : now s + Sub t (now s) <= now s + Z.of_nat d <->
                 t <= now s + Z.of_nat d).
  { unfold Sub. unfold maxDuration, minDuration in *.
    destruct (Z.ltb_spec (2 ^ 63 - 1) (t - now s)); [lia |].
    destruct (Z.ltb_spec (t - now s) (- 2 ^ 63)); lia. }
  destruct (Z.le_gt_cases t (now s + Z.of_nat d)) as [Hdue | Hnot].
  - exists (fired write d id s1).
    split; [apply setDeadline_open; assumption |].
    split; [exact Hid |].
    split.
    { assert (Q1 : L (cond (fdc write (file s1))) = false) by congruence.
      assert (Q2 : closed (file s1) = false) by congruence.
      assert (Q3 : deadline (fdc write (file s1)) <> 0) by congruence.
      assert (Q4 : deadline (fdc write (file s1)) <= now s1 + Z.of_nat d)
        by (rewrite Pd, Pnow; exact Hdue).
      assert (Q5 : tm_armed (mkTimer write (Sub t (now s)) (now s) true) +
                   tm_d (mkTimer write (Sub t (now s)) (now s) true) <=
                   now s1 + Z.of_nat d)
        by (cbn [tm_armed tm_d]; rewrite Pnow; apply Hsub; exact Hdue).
      exact (run_timer_batch bk write d id
               (mkTimer write (Sub t (now s)) (now s) true) s1
               Q1 Q2 Pt Q3 Q4 Htm eq_refl eq_refl Q5). }
    destruct (fired_spec write d id s1)
      as (_ & Ft & Fn & _ & _ & _ & _ & Ftm & _).
    split; [split; [intros _; exact Hdue | intros _; exact Ft] |].
    split; [| lia].
    intros _. split; [rewrite Fn, Pn; reflexivity |].
    rewrite Ftm, list_lookup_alter_eq, Htm. reflexivity.
  - exists (set_now (now s + Z.of_nat d) s1).
    split; [apply setDeadline_open; assumption |].
    split; [exact Hid |].
    split.
    { unfold run_actions, run_action, timer_fire, bind, modify, get.
      cbn [timers set_now now]. rewrite Htm. cbn [tm_live tm_armed tm_d].
      rewrite Pnow.
      replace (now s + Sub t (now s) <=? now s + Z.of_nat d) with false
        by lia.
      reflexivity. }
    split.
    { split; [| lia]. intros H.
      assert (timeout (fdc write (file (set_now (now s + Z.of_nat d) s1)))
              = timeout (fdc write (file s1))) as E by reflexivity.
      rewrite E, Pt in H. discriminate. }
    split; [lia | reflexivity].
Qed.

Lemma deadline_expires_witness :
  exists s1 s2,
    setDeadline false 150 (fresh EpollBuild 5 [] []) = Ret None s1 /\
    run_actions EpollBuild [ATick 60; ATimerFire 0] s1 = Ret tt s2 /\
    timeout (r (file s2)) = true.
Proof.
  destruct (deadline_expires EpollBuild false 150 (fresh EpollBuild 5 [] [])
              60) as (s1 & id & s2 & H1 & H2 & H3 & H4 & _);
    [reflexivity | reflexivity | apply timers_wf_fresh | discriminate
    | vm_compute; discriminate |].
  exists s1, s2. split; [exact H1 |].
  assert (Hid : id = 0%nat).
  { destruct (setDeadline_post_timer false 150 (fresh EpollBuild 5 [] [])
                (timers_wf_fresh _ _ _ _)) as (id' & Hid' & _);
      [discriminate |].
    rewrite setDeadline_open in H1 by reflexivity.
    injection H1 as <-. rewrite H2 in Hid'. injection Hid' as <-.
    vm_compute in H2. injection H2 as <-. reflexivity. }
  subst id. split; [exact H3 |].
  apply H4. vm_compute. discriminate.
Defined.

(** ** SetDeadline *)

Lemma setDeadline_post_live (write : bool) (t : Time) (s : World) :
  timers_wf s ->
  live_timers write (setDeadline_post write t s) =
    if t =? 0 then 0%nat else 1%nat.
Proof.
  intros W.
  rewrite (live_timers_wf _ _ (setDeadline_post_wf write t s W)).
  destruct (Z.eqb_spec t 0) as [-> | Ht].
  - destruct W as [W1 W2]. unfold setDeadline_post. simpl.
    destruct (timer (fdc write (file s))) as [id |] eqn:E.
    + assert (Hp : timer (fdc write
                     (file (set_timers (alter stopped id (timers s))
                        (upd_fdc write
                           (fun c => set_timeout false (set_deadline 0 c))
                           s)))) = Some id)
        by (destruct write; simpl in *; exact E).
      rewrite Hp. cbn [timers set_timers].
      rewrite list_lookup_alter_eq.
      destruct (timers s !! id); reflexivity.
    + assert (Hp : timer (fdc write
                     (file (upd_fdc write
                              (fun c => set_timeout false (set_deadline 0 c))
                              s))) = None)
        by (destruct write; simpl in *; exact E).
      rewrite Hp. reflexivity.
  - destruct (setDeadline_post_timer write t s W Ht) as (id & -> & ->).
    reflexivity.
Qed.

Lemma setDeadline_post_other_live (write : bool) (t : Time) (s : World) :
  timers_wf s ->
  live_timers (negb write) (setDeadline_post write t s) =
    live_timers (negb write) s.
Proof.
  intros W.
  destruct (setDeadline_post_spec write t s)
    as (_ & _ & _ & _ & _ & _ & _ & Ptm & _).
  cbv zeta in Ptm.
  apply live_timers_other;
    [exact W | apply setDeadline_post_wf; exact W | exact Ptm |].
  intros j Hj. unfold setDeadline_post.
  destruct (t =? 0);
    destruct (timer (fdc write (file s))) as [id |] eqn:Ht.
  - cbn [timers set_timers]. apply list_lookup_alter_ne.
    apply (timers_wf_distinct write s); assumption.
  - destruct write; reflexivity.
  - cbn [timers set_timers].
    rewrite !list_lookup_alter_ne; [destruct write; reflexivity | |];
      apply (timers_wf_distinct write s); assumption.
  - assert (Htms : timers (upd_fdc write
                     (set_timer (Some (length (timers s))))
                     (set_timers
                        (timers s ++
                           [mkTimer write (Sub t (now s)) (now s) true])
                        (upd_fdc write
                           (fun c => set_timeout false (set_deadline t c)) s)))
                   = timers s ++ [mkTimer write (Sub t (now s)) (now s) true])
      by (destruct write; reflexivity).
    rewrite Htms.
    destruct W as [_ W2]. destruct (W2 _ _ Hj) as (tm & Htm & _).
    apply lookup_app_l. apply lookup_lt_Some in Htm. exact Htm.
Qed.

(** [SetDeadline(t)] on an open File is [SetReadDeadline(t)] followed by
    [SetWriteDeadline(t)].  With both locks free it returns nil with the
    deadline of both directions equal to [t], both timeout flags clear,
    and, when the timers and the pointers agree, one pending timer per
    direction if [t] is not zero and none if it is.  It is not atomic:
    when only the write direction's lock is held, the call waits with
    the read deadline already changed. *)
Theorem SetDeadline_both (t : Time) (s : World) :
  L (cond (r (file s))) = false ->
  closed (file s) = false ->
  (L (cond (w (file s))) = false ->
   exists s2,
     SetDeadline t s = Ret None s2 /\
     s2 = setDeadline_post true t (setDeadline_post false t s) /\
     (forall wr, deadline (fdc wr (file s2)) = t /\
                 timeout (fdc wr (file s2)) = false /\
                 L (cond (fdc wr (file s2))) = false /\
                 notify (cond (fdc wr (file s2))) =
                   notify (cond (fdc wr (file s)))) /\
     (timers_wf s ->
      timers_wf s2 /\
      forall wr, live_timers wr s2 = if t =? 0 then 0%nat else 1%nat)) /\
  (L (cond (w (file s))) = true ->
   SetDeadline t s = Blocked (setDeadline_post false t s) /\
   deadline (r (file (setDeadline_post false t s))) = t /\
   deadline (w (file (setDeadline_post false t s))) = deadline (w (file s))).
Proof.
  intros HLr Hc.
  destruct (setDeadline_post_spec false t s)
    as (Pc & _ & PL & Pt & Pd & Pto & Pdo & _).
  cbv zeta in *. set (s1 := setDeadline_post false t s) in *.
  assert (E1 : setDeadline false t s = Ret None s1)
    by (apply setDeadline_open; assumption).
  split.
  - intros HLw.
    destruct (setDeadline_post_spec true t s1)
      as (Qc & _ & QL & Qt & Qd & Qto & Qdo & _).
    cbv zeta in *. set (s2 := setDeadline_post true t s1) in *.
    exists s2.
    split.
    { unfold SetDeadline, SetReadDeadline, SetWriteDeadline, bind.
      rewrite E1. apply setDeadline_open.
      - destruct (PL true) as (-> & _). exact HLw.
      - rewrite Pc. exact Hc. }
    split; [reflexivity |].
    split.
    { intros wr. destruct (QL wr) as (QLw & _ & Qn).
      destruct (PL wr) as (PLw & _ & Pn).
      destruct wr; simpl in *.
      - repeat split; congruence.
      - repeat split; congruence. }
    intros W.
    assert (W1 : timers_wf s1) by (apply setDeadline_post_wf; exact W).
    split; [apply setDeadline_post_wf; exact W1 |].
    intros [].
    + apply setDeadline_post_live. exact W1.
    + change false with (negb true).
      unfold s2. rewrite setDeadline_post_other_live by exact W1.
      apply setDeadline_post_live. exact W.
  - intros HLw.
    split; [| split; [exact Pd | exact Pdo]].
    unfold SetDeadline, SetReadDeadline, SetWriteDeadline, bind.
    rewrite E1. apply setDeadline_blocked.
    destruct (PL true) as (-> & _). exact HLw.
Qed.

Lemma SetDeadline_both_witness :
  exists s2,
    SetDeadline 150 (fresh SelectBuild 5 [] []) = Ret None s2 /\
    live_timers false s2 = 1%nat /\ live_timers true s2 = 1%nat.
Proof.
  destruct (SetDeadline_both 150 (fresh SelectBuild 5 [] []))
    as [H _]; [reflexivity | reflexivity |].
  destruct (H eq_refl) as (s2 & E & _ & _ & Hw).
  destruct (Hw (timers_wf_fresh _ _ _ _)) as [_ Hl].
  exists s2. split; [exact E |].
  split; [exact (Hl false) | exact (Hl true)].
Defined.

(** ** Making a File *)

(** A File made by [NewFromFile] is closed through the [Close] of the
    [OsFile] it was made from, whose result [Close] returns, and never
    through [syscall.Close]; a File made by [NewFile] is closed by
    [syscall.Close] on its descriptor.  Either way the registry is left
    without an entry for the descriptor. *)
Theorem NewFromFile_Close (bk : backend) (d : Z) (nm : string)
    (ofClose : option error) (s : World) :
  (exists s1 s2,
     NewFromFile bk d nm ofClose None None s = Ret None s1 /\
     Close bk s1 = Ret ofClose s2 /\
     trace s2 = EvCloseF :: trace s /\
     closed (file s2) = true /\
     fdm s2 = delete d (fdm s)) /\
  (exists s1 s2,
     NewFile bk d nm None None s = Ret None s1 /\
     Close bk s1 = Ret (kclose s) s2 /\
     trace s2 = EvSysClose d :: trace s /\
     closed (file s2) = true /\
     fdm s2 = delete d (fdm s)).
Proof.
  split.
  - assert (E : exists s1,
               NewFromFile bk d nm ofClose None None s = Ret None s1 /\
               file s1 = mkFile false d nm (Some ofClose) fdCtl0 fdCtl0 /\
               fdm s1 = <[d := tt]> (fdm s) /\ trace s1 = trace s /\
               kclose s1 = kclose s).
    { destruct bk; eexists; (split; [reflexivity |]); repeat split. }
    destruct E as (s1 & E1 & Hf & Hfdm & Htr & Hk).
    exists s1, (Close_post s1). split; [exact E1 |].
    split.
    { rewrite Close_open_eq by (rewrite Hf; reflexivity).
      unfold Close_result. rewrite Hf. reflexivity. }
    split.
    { unfold Close_post, release_event. cbn [trace log set_timers set_fdm
        set_file]. rewrite Hf, Htr. reflexivity. }
    split; [reflexivity |].
    unfold Close_post. cbn [fdm log set_timers set_fdm].
    rewrite Hf, Hfdm. apply delete_insert_eq.
  - assert (E : exists s1,
               NewFile bk d nm None None s = Ret None s1 /\
               file s1 = mkFile false d nm None fdCtl0 fdCtl0 /\
               fdm s1 = <[d := tt]> (fdm s) /\ trace s1 = trace s /\
               kclose s1 = kclose s).
    { destruct bk; eexists; (split; [reflexivity |]); repeat split. }
    destruct E as (s1 & E1 & Hf & Hfdm & Htr & Hk).
    exists s1, (Close_post s1). split; [exact E1 |].
    split.
    { rewrite Close_open_eq by (rewrite Hf; reflexivity).
      unfold Close_result. rewrite Hf, Hk. reflexivity. }
    split.
    { unfold Close_post, release_event. cbn [trace log set_timers set_fdm
        set_file]. rewrite Hf, Htr. reflexivity. }
    split; [reflexivity |].
    unfold Close_post. cbn [fdm log set_timers set_fdm].
    rewrite Hf, Hfdm. apply delete_insert_eq.
Qed.

(** ** What Read returns *)

Lemma Read_releases_m (bk : backend) (p : list byte) (s s' : World)
    (res : Z * option error) :
  Read bk p s = Ret res s' -> m (r (file s')) = false.
Proof.
  rewrite Read_eq. destruct (m (r (file s))); [discriminate |].
  destruct (sysrw bk false p (upd_fdc false (set_m true) s))
    as [res1 s1 | s1 | s1 | s1]; try discriminate.
  destruct (m (r (file s1))); [| discriminate].
  intros H. injection H as _ <-. reflexivity.
Qed.

(** The result [(n, err)] of a [Read] that returns, on a File no other
    Read holds: [n] is between 0 and [len(p)], and is 0 whenever [err] is
    not nil; [err] is never the would-block error nor
    [ErrUnexpectedEOF]; it is [ErrClosed] exactly when the File is closed
    at the return, and [ErrTimeout] exactly when the File is open and the
    read direction timed out; [EOF] comes only with a non-empty buffer,
    and a nil error with [n = 0] only with an empty one.  All the locks
    of the read direction are released. *)
Theorem Read_result (bk : backend) (p : list byte) (s s' : World)
    (n : Z) (err : option error) :
  m (r (file s)) = false ->
  L (cond (r (file s))) = false ->
  Read bk p s = Ret (n, err) s' ->
  0 <= n <= len p /\
  (err <> None -> n = 0) /\
  err <> Some EAGAIN /\
  err <> Some ErrUnexpectedEOF /\
  (err = Some ErrClosed <-> closed (file s') = true) /\
  (err = Some ErrTimeout <->
   closed (file s') = false /\ timeout (r (file s')) = true) /\
  (err = Some EOF -> p <> []) /\
  (err = None -> n = 0 -> p = []) /\
  m (r (file s')) = false /\
  L (cond (r (file s'))) = false.
Proof.
  intros Hm HL E.
  pose proof (Read_releases_m bk p s s' (n, err) E) as Hm'.
  destruct (Read_spec bk p s Hm HL) as (new & _ & Hpost).
  rewrite E in Hpost. simpl in Hpost.
  assert (Hlen0 : len p = 0 -> p = []).
  { unfold len. destruct p; [reflexivity | simpl; lia]. }
  destruct Hpost as
    (HL' & [(Hr & Hc & _) | [(Hr & Hc & Ht & _) |
            [(x & old & (Hc & Ht) & Hx & _ & _ & Hr) |
             (k & old & (Hc & Ht) & _ & _ & Hk & Hr)]]]).
  - injection Hr as -> ->. unfold len.
    repeat split; try discriminate; try lia; try congruence.
    intros [H _]; congruence.
  - injection Hr as -> ->. unfold len.
    repeat split; try discriminate; try lia; try congruence.
  - injection Hr as -> ->. unfold len.
    repeat split; try discriminate; try lia; try congruence.
    + intros H. injection H as H. contradiction.
    + intros [_ H]; congruence.
  - injection Hr as Hn He. rewrite Hn, He. clear Hn He E.
    destruct (Z.eqb_spec k 0) as [-> | Hk0];
      destruct (Z.eqb_spec (len p) 0) as [Hp0 | Hp0]; simpl;
      repeat split; try discriminate; try lia; try congruence;
      try (intros [_ H]; congruence); try (intros; apply Hlen0; lia).
    intros _ ->. unfold len in Hp0. simpl in Hp0. lia.
Qed.

Lemma Read_result_witness :
  let s := fresh EpollBuild 5 [Xfer 2] [] in
  let s' := final (Read EpollBuild [0; 0; 0] s) in
  Read EpollBuild [0; 0; 0] s = Ret (2, None) s' /\
  0 <= 2 <= len [0; 0; 0] /\ closed (file s') = false.
Proof.
  intros s s'.
  assert (E : Read EpollBuild [0; 0; 0] s = Ret (2, None) s')
    by (vm_compute; reflexivity).
  destruct (Read_result EpollBuild [0; 0; 0] s s' 2 None eq_refl eq_refl E)
    as (H1 & _).
  split; [exact E |]. split; [exact H1 | reflexivity].
Defined.

(** ** The bit sets of the select backend *)

Lemma FD_BITS_pos (a : arch) : 32 <= FD_BITS a <= 64.
Proof. destruct a; simpl; lia. Qed.

Lemma int_ok_sign_extended (a : arch) (x : Z) :
  int_ok a x <-> sign_extended a x.
Proof.
  pose proof (FD_BITS_pos a) as HW.
  set (W := FD_BITS a) in *.
  unfold int_ok, sign_extended. fold W. split.
  - intros [Hlo Hhi] i Hi.
    destruct (Z.le_gt_cases 0 x) as [Hx | Hx].
    + assert (Hb : forall j, W - 1 <= j -> Z.testbit x j = false).
      { intros j Hj. destruct (Z.eq_dec x 0) as [-> | Hx0];
          [apply Z.bits_0 |].
        apply Z.bits_above_log2; [lia |].
        apply Z.lt_le_trans with (W - 1); [| exact Hj].
        apply Z.log2_lt_pow2; lia. }
      rewrite (Hb i Hi), (Hb (W - 1)) by lia. reflexivity.
    + assert (Hb : forall j, W - 1 <= j -> Z.testbit x j = true).
      { intros j Hj. apply Z.bits_above_log2_neg; [lia |].
        destruct (Z.eq_dec (Z.pred (- x)) 0) as [-> | Hp0];
          [simpl; lia |].
        apply Z.lt_le_trans with (W - 1); [| exact Hj].
        apply Z.log2_lt_pow2; lia. }
      rewrite (Hb i Hi), (Hb (W - 1)) by lia. reflexivity.
  - intros Hs.
    destruct (Z.testbit x (W - 1)) eqn:Hb.
    + (* negative *)
      assert (Hneg : x < 0).
      { apply (Z.bits_iff_neg x (Z.max (W - 1) (Z.log2 (Z.abs x) + 1)));
          [lia |]. rewrite Hs by lia. reflexivity. }
      split; [| apply Z.lt_trans with 0; [exact Hneg |
                                            apply Z.pow_pos_nonneg; lia]].
      destruct (Z.le_gt_cases (- 2 ^ (W - 1)) x) as [H | H]; [exact H |].
      exfalso.
      assert (Hy : 2 ^ (W - 1) <= Z.lnot x) by (unfold Z.lnot; lia).
      assert (Hy0 : 0 < Z.lnot x)
        by (pose proof (Z.pow_pos_nonneg 2 (W - 1)); lia).
      assert (Hl : W - 1 <= Z.log2 (Z.lnot x)).
      { apply Z.log2_le_pow2; [exact Hy0 | exact Hy]. }
      pose proof (Z.bit_log2 (Z.lnot x) Hy0) as Hbit.
      rewrite Z.lnot_spec in Hbit by lia.
      rewrite Hs in Hbit by exact Hl. discriminate.
    + assert (Hpos : 0 <= x).
      { apply (Z.bits_iff_nonneg x (Z.max (W - 1) (Z.log2 (Z.abs x) + 1)));
          [lia |]. rewrite Hs by lia. reflexivity. }
      split; [pose proof (Z.pow_pos_nonneg 2 (W - 1)); lia |].
      destruct (Z.le_gt_cases (2 ^ (W - 1)) x) as [H | H]; [| lia].
      exfalso.
      assert (Hx0 : 0 < x) by (pose proof (Z.pow_pos_nonneg 2 (W - 1)); lia).
      assert (Hl : W - 1 <= Z.log2 x).
      { apply Z.log2_le_pow2; [exact Hx0 | exact H]. }
      pose proof (Z.bit_log2 x Hx0) as Hbit.
      rewrite Hs in Hbit by exact Hl. discriminate.
Qed.

(** The mask of a descriptor in range, as an [int]: the one bit
    [d mod FD_BITS], which for the top bit is the smallest [int]. *)
Lemma mask_value (a : arch) (d : Z) :
  0 <= d < FD_SETSIZE ->
  to_int a (mask a d) =
    if d mod FD_BITS a <? FD_BITS a - 1 then 2 ^ (d mod FD_BITS a)
    else - 2 ^ (FD_BITS a - 1).
Proof.
  intros Hd. pose proof (FD_BITS_pos a) as HW.
  unfold to_int, mask, to_uint.
  assert (H1 : 1 mod 2 ^ FD_BITS a = 1) by (destruct a; reflexivity).
  assert (HWm : FD_BITS a mod 2 ^ FD_BITS a = FD_BITS a)
    by (destruct a; reflexivity).
  assert (Hdm : d mod 2 ^ FD_BITS a = d).
  { apply Z.mod_small. unfold FD_SETSIZE in Hd.
    split; [lia |]. apply Z.lt_le_trans with (2 ^ 32); [lia |].
    apply Z.pow_le_mono_r; lia. }
  rewrite H1, HWm, Hdm, Z.shiftl_1_l.
  set (j := d mod FD_BITS a).
  assert (Hj : 0 <= j < FD_BITS a) by (apply Z.mod_pos_bound; lia).
  assert (Hlt : 0 < 2 ^ j < 2 ^ FD_BITS a).
  { split; [apply Z.pow_pos_nonneg; lia | apply Z.pow_lt_mono_r; lia]. }
  rewrite !(Z.mod_small (2 ^ j)) by lia.
  destruct (Z.ltb_spec j (FD_BITS a - 1)) as [Hlo | Hhi].
  - assert (2 ^ j < 2 ^ (FD_BITS a - 1)) by (apply Z.pow_lt_mono_r; lia).
    destruct (Z.ltb_spec (2 ^ j) (2 ^ (FD_BITS a - 1))); [reflexivity | lia].
  - assert (Hje : j = FD_BITS a - 1) by lia. rewrite Hje.
    destruct (Z.ltb_spec (2 ^ (FD_BITS a - 1)) (2 ^ (FD_BITS a - 1)));
      [lia |].
    replace (FD_BITS a) with (Z.succ (FD_BITS a - 1)) at 2 by lia.
    rewrite Z.pow_succ_r by lia. lia.
Qed.

Lemma testbit_neg_pow2 (k i : Z) :
  0 <= k -> 0 <= i -> Z.testbit (- 2 ^ k) i = (k <=? i).
Proof.
  intros Hk Hi.
  replace (- 2 ^ k) with (Z.lnot (Z.ones k))
    by (rewrite Z.ones_equiv; unfold Z.lnot; lia).
  rewrite Z.lnot_spec by exact Hi.
  rewrite Z.testbit_ones_nonneg by assumption. lia.
Qed.

(** The bits of the mask: within the word it is the bit of the
    descriptor alone; the mask is an [int]. *)
Lemma mask_bits (a : arch) (d : Z) :
  0 <= d < FD_SETSIZE ->
  let mk := to_int a (mask a d) in
  let j := d mod FD_BITS a in
  0 <= j < FD_BITS a /\
  (forall i, 0 <= i < FD_BITS a -> Z.testbit mk i = (i =? j)) /\
  (forall i, 0 <= i -> Z.testbit mk i = true ->
             i = j \/ (j = FD_BITS a - 1 /\ FD_BITS a - 1 <= i)) /\
  sign_extended a mk.
Proof.
  intros Hd mk j. pose proof (FD_BITS_pos a) as HW.
  assert (Hj : 0 <= j < FD_BITS a) by (apply Z.mod_pos_bound; lia).
  unfold mk. rewrite (mask_value a d Hd). fold j.
  split; [exact Hj |].
  destruct (Z.ltb_spec j (FD_BITS a - 1)) as [Hlo | Hhi].
  - split; [| split].
    + intros i Hi. rewrite Z.pow2_bits_eqb by lia. apply Z.eqb_sym.
    + intros i Hi Hb. rewrite Z.pow2_bits_eqb in Hb by lia.
      left. symmetry. apply Z.eqb_eq. exact Hb.
    + intros i Hi. rewrite !Z.pow2_bits_eqb by lia.
      destruct (Z.eqb_spec j i), (Z.eqb_spec j (FD_BITS a - 1)); lia.
  - assert (Hje : j = FD_BITS a - 1) by lia.
    split; [| split].
    + intros i Hi. rewrite testbit_neg_pow2 by lia. lia.
    + intros i Hi Hb. rewrite testbit_neg_pow2 in Hb by lia.
      right. split; [exact Hje | lia].
    + intros i Hi. rewrite !testbit_neg_pow2 by lia. lia.
Qed.

(** The index of a descriptor in range. *)
Lemma index_in_range (a : arch) (d : Z) :
  0 <= d < FD_SETSIZE ->
  index a d = Some (Z.to_nat (d / FD_BITS a)) /\
  0 <= d / FD_BITS a < nwords a.
Proof.
  intros Hd. pose proof (FD_BITS_pos a) as HW.
  unfold index. rewrite Z.quot_div_nonneg by lia.
  assert (Hq : 0 <= d / FD_BITS a < nwords a).
  { split; [apply Z.div_pos; lia |].
    unfold nwords, FD_SETSIZE in *.
    apply Z.div_lt_upper_bound; [lia |].
    destruct a; simpl FD_BITS in *;
      [change (1024 / 32) with 32 | change (1024 / 64) with 16]; lia. }
  split; [| exact Hq].
  replace ((0 <=? d / FD_BITS a) && (d / FD_BITS a <? nwords a)) with true
    by lia.
  reflexivity.
Qed.

Lemma word_int_ok (a : arch) (fds : FdSet) (i : nat) :
  FdSet_wf a fds -> sign_extended a (word fds i).
Proof.
  intros [_ Hall]. unfold word.
  destruct (bits fds !! i) as [x |] eqn:E; simpl.
  - apply int_ok_sign_extended.
    rewrite Forall_lookup in Hall. exact (Hall i x E).
  - intros j Hj. rewrite !Z.bits_0. reflexivity.
Qed.

(** [IsSet] reads the bit of the descriptor. *)
Lemma IsSet_testbit (a : arch) (fds : FdSet) (d : Z) :
  FdSet_wf a fds -> 0 <= d < FD_SETSIZE ->
  IsSet a fds d =
    Some (Z.testbit (word fds (Z.to_nat (d / FD_BITS a))) (d mod FD_BITS a)).
Proof.
  intros Wf Hd. unfold IsSet.
  destruct (index_in_range a d Hd) as [-> _].
  set (wd := word fds (Z.to_nat (d / FD_BITS a))).
  pose proof (word_int_ok a fds (Z.to_nat (d / FD_BITS a)) Wf) as Hs.
  fold wd in Hs.
  destruct (mask_bits a d Hd) as (Hj & Hin & Hout & _).
  cbv zeta in *.
  set (mk := to_int a (mask a d)) in *. set (j := d mod FD_BITS a) in *.
  f_equal.
  destruct (Z.testbit wd j) eqn:Hb.
  - destruct (Z.eqb_spec (Z.land wd mk) 0) as [E | _]; [| reflexivity].
    exfalso.
    assert (Hbit : Z.testbit (Z.land wd mk) j = true).
    { rewrite Z.land_spec, Hb, Hin by lia. rewrite Z.eqb_refl. reflexivity. }
    rewrite E, Z.bits_0 in Hbit. discriminate.
  - assert (E : Z.land wd mk = 0).
    { apply Z.bits_inj'. intros i Hi. rewrite Z.land_spec, Z.bits_0.
      destruct (Z.testbit mk i) eqn:Hm; [| apply andb_false_r].
      destruct (Hout i Hi Hm) as [-> | [Hje Hge]].
      - rewrite Hb. reflexivity.
      - rewrite (Hs i Hge), <- Hje, Hb. reflexivity. }
    rewrite E. reflexivity.
Qed.

(** A word-wise bit operation with the mask of [d] on the word of [d]
    changes the bit of [d] and no other descriptor's. *)
Lemma word_update (a : arch) (fds : FdSet) (d : Z)
    (op : Z -> Z -> Z) (f : bool -> bool -> bool) :
  (forall x y i, Z.testbit (op x y) i = f (Z.testbit x i) (Z.testbit y i)) ->
  (forall b, f b false = b) ->
  FdSet_wf a fds -> 0 <= d < FD_SETSIZE ->
  let q := Z.to_nat (d / FD_BITS a) in
  let fds1 :=
    mkFdSet (<[q := op (word fds q) (to_int a (mask a d))]> (bits fds)) in
  FdSet_wf a fds1 /\
  forall d', 0 <= d' < FD_SETSIZE ->
    IsSet a fds1 d' =
      Some (if d' =? d
            then f (Z.testbit (word fds q) (d mod FD_BITS a)) true
            else Z.testbit (word fds (Z.to_nat (d' / FD_BITS a)))
                           (d' mod FD_BITS a)).
Proof.
  intros Hop Hf Wf Hd q fds1. pose proof (FD_BITS_pos a) as HW.
  destruct (index_in_range a d Hd) as [_ Hq].
  destruct (mask_bits a d Hd) as (Hj & Hin & _ & Hsm). cbv zeta in *.
  pose proof (word_int_ok a fds q Wf) as Hsw.
  assert (Wf1 : FdSet_wf a fds1).
  { destruct Wf as [Hlen Hall]. split.
    - unfold fds1. simpl. rewrite length_insert. exact Hlen.
    - unfold fds1. simpl. apply Forall_insert; [exact Hall |].
      apply int_ok_sign_extended. intros i Hi.
      rewrite !Hop, (Hsw i Hi), (Hsm i Hi). reflexivity. }
  split; [exact Wf1 |].
  intros d' Hd'. rewrite (IsSet_testbit a fds1 d' Wf1 Hd'). f_equal.
  destruct (index_in_range a d' Hd') as [_ Hq'].
  assert (Hj' : 0 <= d' mod FD_BITS a < FD_BITS a)
    by (apply Z.mod_pos_bound; lia).
  destruct (Nat.eq_dec (Z.to_nat (d' / FD_BITS a)) q) as [Eq | Nq].
  - rewrite Eq. unfold word at 1. unfold fds1. simpl.
    rewrite list_lookup_insert_eq
      by (destruct Wf as [Hlen _]; rewrite Hlen; unfold q; lia).
    simpl. rewrite Hop, Hin by exact Hj'.
    assert (Hqq : d' / FD_BITS a = d / FD_BITS a) by (unfold q in Eq; lia).
    destruct (Z.eqb_spec d' d) as [-> | Hne].
    + rewrite Z.eqb_refl. reflexivity.
    + destruct (Z.eqb_spec (d' mod FD_BITS a) (d mod FD_BITS a)) as [Ej | _].
      * exfalso. apply Hne.
        rewrite (Z.div_mod d' (FD_BITS a)), (Z.div_mod d (FD_BITS a)) by lia.
        rewrite Hqq, Ej. reflexivity.
      * apply Hf.
  - unfold word at 1. unfold fds1. simpl.
    rewrite list_lookup_insert_ne by (intros E; apply Nq; symmetry; exact E).
    destruct (Z.eqb_spec d' d) as [-> | _]; [contradiction Nq; reflexivity |].
    reflexivity.
Qed.

Lemma Reset_wf (a : arch) (fds : FdSet) :
  length (bits fds) = Z.to_nat (nwords a) ->
  FdSet_wf a (Reset fds) /\
  forall d, 0 <= d < FD_SETSIZE -> IsSet a (Reset fds) d = Some false.
Proof.
  intros Hlen. pose proof (FD_BITS_pos a) as HW.
  assert (Wf : FdSet_wf a (Reset fds)).
  { split.
    - unfold Reset. simpl. rewrite length_replicate. exact Hlen.
    - unfold Reset. simpl. apply Forall_replicate. unfold int_ok.
      pose proof (Z.pow_pos_nonneg 2 (FD_BITS a - 1)). lia. }
  split; [exact Wf |].
  intros d Hd. rewrite (IsSet_testbit a _ d Wf Hd). f_equal.
  unfold word, Reset. simpl.
  destruct (replicate (length (bits fds)) 0 !! Z.to_nat (d / FD_BITS a))
    as [x |] eqn:E; simpl; [| apply Z.bits_0].
  apply lookup_replicate in E as [-> _]. apply Z.bits_0.
Qed.

(** [Set], [UnSet], [IsSet] and [Reset] implement a set of the
    descriptors 0 to 1023.  On an [FdSet] whose array has the declared
    length and holds [int]s, for descriptors [d] and [d'] in range: none
    of the operations panics; after [Set(d)], [d] is in the set, after
    [UnSet(d)] it is not, and either way every other descriptor is in the
    set exactly if it was before; after [Reset] no descriptor is in the
    set.  The array of the result is again of that kind (the top bit of a
    word makes the word negative, never out of an [int]). *)
Theorem FdSet_is_a_set (a : arch) (fds : FdSet) (d d' : Z) :
  FdSet_wf a fds ->
  0 <= d < FD_SETSIZE ->
  0 <= d' < FD_SETSIZE ->
  exists fds1 fds2 b,
    IsSet a fds d' = Some b /\
    Set_ a fds d = Some fds1 /\ FdSet_wf a fds1 /\
    IsSet a fds1 d' = Some (if d' =? d then true else b) /\
    UnSet a fds d = Some fds2 /\ FdSet_wf a fds2 /\
    IsSet a fds2 d' = Some (if d' =? d then false else b) /\
    FdSet_wf a (Reset fds) /\
    IsSet a (Reset fds) d' = Some false.
Proof.
  intros Wf Hd Hd'.
  destruct (index_in_range a d Hd) as [Hi _].
  destruct (word_update a fds d Z.lor orb Z.lor_spec orb_false_r Wf Hd)
    as [Wf1 H1].
  destruct (word_update a fds d Z.ldiff (fun x y => x && negb y)
              Z.ldiff_spec andb_true_r Wf Hd) as [Wf2 H2].
  destruct (Reset_wf a fds (proj1 Wf)) as [Wf0 H0].
  eexists _, _, _.
  split; [apply IsSet_testbit; assumption |].
  split; [unfold Set_; rewrite Hi; reflexivity |].
  split; [exact Wf1 |].
  split.
  { rewrite (H1 d' Hd'). rewrite orb_true_r. reflexivity. }
  split; [unfold UnSet; rewrite Hi; reflexivity |].
  split; [exact Wf2 |].
  split.
  { rewrite (H2 d' Hd'). rewrite andb_false_r. reflexivity. }
  split; [exact Wf0 | exact (H0 d' Hd')].
Qed.

Lemma FdSet_zero_wf (a : arch) : FdSet_wf a (FdSet_zero a).
Proof.
  pose proof (FD_BITS_pos a) as HW. split.
  - unfold FdSet_zero. simpl. apply length_replicate.
  - unfold FdSet_zero. simpl. apply Forall_replicate. unfold int_ok.
    pose proof (Z.pow_pos_nonneg 2 (FD_BITS a - 1)). lia.
Qed.

Lemma FdSet_is_a_set_witness :
  exists fds1,
    Set_ Arch64 (FdSet_zero Arch64) 63 = Some fds1 /\
    IsSet Arch64 fds1 63 = Some true /\
    IsSet Arch64 fds1 62 = Some false.
Proof.
  destruct (FdSet_is_a_set Arch64 (FdSet_zero Arch64) 63 63
              (FdSet_zero_wf Arch64))
    as (fds1 & _ & b & _ & H1 & _ & H2 & _);
    [unfold FD_SETSIZE; lia | unfold FD_SETSIZE; lia |].
  exists fds1. split; [exact H1 |]. split; [exact H2 |].
  vm_compute in H1. injection H1 as <-. reflexivity.
Defined.

Lemma Set_effect (a : arch) (fds : FdSet) (d : Z) :
  FdSet_wf a fds -> 0 <= d < FD_SETSIZE ->
  exists fds1,
    Set_ a fds d = Some fds1 /\ FdSet_wf a fds1 /\
    forall x b, 0 <= x < FD_SETSIZE -> IsSet a fds x = Some b ->
                IsSet a fds1 x = Some (if x =? d then true else b).
Proof.
  intros Wf Hd.
  destruct (index_in_range a d Hd) as [Hi _].
  destruct (word_update a fds d Z.lor orb Z.lor_spec orb_false_r Wf Hd)
    as [Wf1 H1].
  eexists. split; [unfold Set_; rewrite Hi; reflexivity |].
  split; [exact Wf1 |].
  intros x b Hx Hb. rewrite (H1 x Hx), orb_true_r.
  rewrite (IsSet_testbit a fds x Wf Hx) in Hb. injection Hb as <-.
  reflexivity.
Qed.

Lemma bool_decide_of_iff (b : bool) (P : Prop) `{Decision P} :
  (b = true <-> P) -> b = bool_decide P.
Proof.
  intros Hiff. destruct (decide P) as [HP | HP].
  - rewrite bool_decide_eq_true_2 by exact HP. apply Hiff. exact HP.
  - rewrite bool_decide_eq_false_2 by exact HP.
    destruct b; [exfalso; apply HP, Hiff; reflexivity | reflexivity].
Qed.

(** Filling a set from a list of descriptors in range. *)
Lemma set_each_spec (a : arch) (ks : list Z) :
  forall fds top,
    FdSet_wf a fds ->
    (forall k, k ∈ ks -> 0 <= k < FD_SETSIZE) ->
    exists fds' top',
      SelectB.set_each a fds top ks = Some (fds', top') /\
      FdSet_wf a fds' /\
      (forall x b, 0 <= x < FD_SETSIZE -> IsSet a fds x = Some b ->
                   IsSet a fds' x = Some (bool_decide (x ∈ ks) || b)) /\
      top <= top' /\
      (forall k, k ∈ ks -> k <= top') /\
      (top' = top \/ top' ∈ ks).
Proof.
  induction ks as [| k ks IH]; intros fds top Wf Hks;
    cbn [SelectB.set_each].
  - exists fds, top. split; [reflexivity |]. split; [exact Wf |].
    split.
    { intros x b _ Hb. rewrite bool_decide_eq_false_2 by apply not_elem_of_nil.
      exact Hb. }
    split; [lia |]. split; [| left; reflexivity].
    intros k Hk. inversion Hk.
  - destruct (Set_effect a fds k Wf) as (fds1 & E1 & Wf1 & H1).
    { apply Hks. left. }
    rewrite E1.
    destruct (IH fds1 (if top <? k then k else top) Wf1)
      as (fds' & top' & E & Wf' & Hset & Hle & Hall & Htop).
    { intros k' Hk'. apply Hks. right. exact Hk'. }
    exists fds', top'. split; [exact E |]. split; [exact Wf' |].
    split.
    { intros x b Hx Hb. rewrite (Hset x _ Hx (H1 x b Hx Hb)). f_equal.
      destruct (Z.eqb_spec x k) as [-> | Hne].
      - rewrite orb_true_r.
        rewrite bool_decide_eq_true_2 by left. reflexivity.
      - f_equal. apply bool_decide_ext. rewrite elem_of_cons.
        split; [intros H; right; exact H | intros [H | H];
                                            [contradiction | exact H]]. }
    split; [destruct (Z.ltb_spec top k); lia |].
    split.
    { intros k' Hk'. apply elem_of_cons in Hk' as [-> | Hk'].
      - destruct (Z.ltb_spec top k); lia.
      - apply Hall. exact Hk'. }
    destruct Htop as [-> | Hin].
    + destruct (Z.ltb_spec top k); [right; left | left; reflexivity].
    + right. right. exact Hin.
Qed.

(** The head of a turn of the select loop.  With the wakeup pipe and all
    the tracked descriptors in 0..1023, building the two sets does not
    panic; the read set holds exactly the wakeup pipe and the
    descriptors tracked for reading, the write set exactly those tracked
    for writing, whatever the sets held before; and [topFd] is the
    largest of the wakeup pipe and the tracked descriptors, so that
    [topFd + 1] is the count [Select] needs. *)
Theorem evLoop_sets_exact (a : arch) (wupFd : Z) (fdR fdW : FdSet)
    (s : World) :
  length (bits fdR) = Z.to_nat (nwords a) ->
  length (bits fdW) = Z.to_nat (nwords a) ->
  0 <= wupFd < FD_SETSIZE ->
  (forall k, is_Some (fdTrR s !! k) \/ is_Some (fdTrW s !! k) ->
             0 <= k < FD_SETSIZE) ->
  exists r1 w1 topFd,
    SelectB.evLoop_sets a wupFd fdR fdW s = Some (r1, w1, topFd) /\
    (forall x, 0 <= x < FD_SETSIZE ->
       IsSet a r1 x =
         Some (bool_decide (x = wupFd \/ is_Some (fdTrR s !! x))) /\
       IsSet a w1 x = Some (bool_decide (is_Some (fdTrW s !! x)))) /\
    wupFd <= topFd < FD_SETSIZE /\
    (forall k, is_Some (fdTrR s !! k) \/ is_Some (fdTrW s !! k) ->
               k <= topFd) /\
    (topFd = wupFd \/ is_Some (fdTrR s !! topFd) \/
     is_Some (fdTrW s !! topFd)).
Proof.
  intros HlenR HlenW Hw Hks.
  destruct (Reset_wf a fdR HlenR) as [WfR0 HR0].
  destruct (Reset_wf a fdW HlenW) as [WfW0 HW0].
  destruct (Set_effect a (Reset fdR) wupFd WfR0 Hw) as (r0 & E0 & Wf0 & H0).
  destruct (set_each_spec a (map_to_list (fdTrR s)).*1 r0 wupFd Wf0)
    as (r1 & top1 & E1 & Wf1 & H1 & Hle1 & Hall1 & Htop1).
  { intros k Hk. apply Hks. left. apply elem_of_keys. exact Hk. }
  destruct (set_each_spec a (map_to_list (fdTrW s)).*1 (Reset fdW) top1 WfW0)
    as (w1 & top2 & E2 & Wf2 & H2 & Hle2 & Hall2 & Htop2).
  { intros k Hk. apply Hks. right. apply elem_of_keys. exact Hk. }
  exists r1, w1, top2.
  split.
  { unfold SelectB.evLoop_sets. rewrite E0, E1, E2. reflexivity. }
  assert (Hlast : top2 = wupFd \/ is_Some (fdTrR s !! top2) \/
                  is_Some (fdTrW s !! top2)).
  { destruct Htop2 as [-> | Hin];
      [| right; right; apply elem_of_keys; exact Hin].
    destruct Htop1 as [-> | Hin];
      [left; reflexivity | right; left; apply elem_of_keys; exact Hin]. }
  split.
  { intros x Hx. split.
    - rewrite (H1 x _ Hx (H0 x false Hx (HR0 x Hx))). f_equal.
      apply bool_decide_of_iff. rewrite orb_true_iff, bool_decide_eq_true.
      rewrite elem_of_keys.
      destruct (Z.eqb_spec x wupFd) as [-> | Hne].
      + split; [intros _; left; reflexivity | intros _; right; reflexivity].
      + split; [intros [H | H]; [right; exact H | discriminate] |
                intros [H | H]; [contradiction | left; exact H]].
    - rewrite (H2 x false Hx (HW0 x Hx)). f_equal.
      rewrite orb_false_r. apply bool_decide_ext. apply elem_of_keys. }
  split.
  { split; [lia |].
    destruct Hlast as [-> | [H | H]]; [lia | |]; apply Hks; auto. }
  split; [| exact Hlast].
  intros k [Hk | Hk].
  - apply Z.le_trans with top1; [| exact Hle2].
    apply Hall1. apply elem_of_keys. exact Hk.
  - apply Hall2. apply elem_of_keys. exact Hk.
Qed.

Lemma evLoop_sets_exact_witness :
  let s := final (startTrack SelectBuild 5 false
                    (fresh SelectBuild 5 [] [])) in
  exists r1 w1,
    SelectB.evLoop_sets Arch64 3 (FdSet_zero Arch64) (FdSet_zero Arch64) s =
      Some (r1, w1, 5) /\
    IsSet Arch64 r1 5 = Some true /\ IsSet Arch64 r1 4 = Some false.
Proof.
  intros s.
  destruct (evLoop_sets_exact Arch64 3 (FdSet_zero Arch64)
              (FdSet_zero Arch64) s)
    as (r1 & w1 & topFd & E & _); [reflexivity | reflexivity
                                   | unfold FD_SETSIZE; lia | |].
  - assert (HR : fdTrR s = <[5 := tt]> ∅) by reflexivity.
    assert (HW : fdTrW s = ∅) by reflexivity.
    intros k [[x Hk] | [x Hk]].
    + destruct (Z.eq_dec k 5) as [-> | Hne]; [unfold FD_SETSIZE; lia |].
      exfalso. rewrite HR, lookup_insert_ne in Hk by congruence.
      rewrite lookup_empty in Hk. discriminate.
    + exfalso. rewrite HW, lookup_empty in Hk. discriminate.
  - vm_compute in E. injection E as <- <- <-.
    eexists _, _. split; [vm_compute; reflexivity |].
    split; vm_compute; reflexivity.
Defined.

(** ** The dispatch of epoll events *)

Lemma land_lor_eqb0 (x a b : Z) :
  (Z.land x (Z.lor a b) =? 0) = (Z.land x a =? 0) && (Z.land x b =? 0).
Proof.
  rewrite Z.land_lor_distr_r.
  destruct (Z.eqb_spec (Z.lor (Z.land x a) (Z.land x b)) 0) as [E | E].
  - apply Z.lor_eq_0_iff in E as [-> ->]. reflexivity.
  - destruct (Z.eqb_spec (Z.land x a) 0) as [Ea | Ea];
      destruct (Z.eqb_spec (Z.land x b) 0) as [Eb | Eb]; try reflexivity.
    exfalso. apply E. apply Z.lor_eq_0_iff. split; assumption.
Qed.

Lemma epollEv_other (ev : EpollLoop.EpollEvent) (write : bool) (s : World) :
  fdm s !! EpollLoop.Fd ev = None \/ EpollLoop.Fd ev <> fd (file s) ->
  EpollLoop.epollEv ev write s = Ret tt s.
Proof.
  intros H. unfold EpollLoop.epollEv, bind, get.
  destruct (fdm s !! EpollLoop.Fd ev) as [[] |] eqn:E; [| reflexivity].
  destruct H as [H | H]; [discriminate |].
  destruct (Z.eqb_spec (EpollLoop.Fd ev) (fd (file s))); [contradiction |].
  reflexivity.
Qed.

Lemma epollEv_own (ev : EpollLoop.EpollEvent) (write : bool) (s : World) :
  EpollLoop.Fd ev = fd (file s) ->
  is_Some (fdm s !! EpollLoop.Fd ev) ->
  L (cond (fdc write (file s))) = false ->
  EpollLoop.epollEv ev write s = Ret tt (upd_fdc write woken s).
Proof.
  intros Hfd [[] Hreg] HL. unfold EpollLoop.epollEv, bind at 1, get.
  rewrite Hreg, Hfd, Z.eqb_refl. apply wake_eq. exact HL.
Qed.

(** An event of the epoll loop is handed to the readers of the File when
    it carries one of EPOLLIN, EPOLLRDHUP, EPOLLHUP, EPOLLERR, and to the
    writers when it carries one of EPOLLOUT, EPOLLHUP, EPOLLERR: a
    hang-up or an error wakes both directions, input only the readers,
    output only the writers, and an event with none of these bits
    nobody.  Each hand-over is one broadcast and changes nothing else;
    an event whose descriptor is not in the registry, or is not the
    File's, leaves the File alone. *)
Theorem evLoop_event_spec (ev : EpollLoop.EpollEvent) (s : World) :
  let has b := negb (Z.land (EpollLoop.Events ev) b =? 0) in
  let rd := has EpollLoop.EPOLLIN || has EpollLoop.EPOLLRDHUP ||
            has EpollLoop.EPOLLHUP || has EpollLoop.EPOLLERR in
  let wr := has EpollLoop.EPOLLOUT || has EpollLoop.EPOLLHUP ||
            has EpollLoop.EPOLLERR in
  (fdm s !! EpollLoop.Fd ev = None \/ EpollLoop.Fd ev <> fd (file s) ->
   EpollLoop.evLoop_event ev s = Ret tt s) /\
  (EpollLoop.Fd ev = fd (file s) ->
   is_Some (fdm s !! EpollLoop.Fd ev) ->
   L (cond (r (file s))) = false -> L (cond (w (file s))) = false ->
   EpollLoop.evLoop_event ev s =
     Ret tt ((if wr then upd_fdc true woken else fun x => x)
               ((if rd then upd_fdc false woken else fun x => x) s)) /\
   (has EpollLoop.EPOLLHUP = true \/ has EpollLoop.EPOLLERR = true ->
    rd = true /\ wr = true)).
Proof.
  intros has rd wr.
  assert (Hrd : negb (Z.land (EpollLoop.Events ev) EpollLoop.read_events
                      =? 0) = rd).
  { unfold EpollLoop.read_events, rd, has. rewrite !land_lor_eqb0.
    rewrite !negb_andb. reflexivity. }
  assert (Hwr : negb (Z.land (EpollLoop.Events ev) EpollLoop.write_events
                      =? 0) = wr).
  { unfold EpollLoop.write_events, wr, has. rewrite !land_lor_eqb0.
    rewrite !negb_andb. reflexivity. }
  unfold EpollLoop.evLoop_event. rewrite Hrd, Hwr.
  split.
  - intros Hother. unfold bind, ret.
    destruct rd, wr; cbv beta iota;
      rewrite ?(epollEv_other ev false s Hother); cbv beta iota;
      rewrite ?(epollEv_other ev true s Hother); reflexivity.
  - intros Hfd Hreg HLr HLw. split.
    + assert (Hown : EpollLoop.epollEv ev true (upd_fdc false woken s) =
                     Ret tt (upd_fdc true woken (upd_fdc false woken s))).
      { apply epollEv_own; destruct_world s; assumption. }
      unfold bind, ret.
      destruct rd, wr; cbv beta iota;
        rewrite ?(epollEv_own ev false s Hfd Hreg HLr); cbv beta iota;
        rewrite ?Hown, ?(epollEv_own ev true s Hfd Hreg HLw); reflexivity.
    + intros [H | H]; unfold rd, wr; rewrite H;
        rewrite ?orb_true_r; split; reflexivity.
Qed.

(** ** The dispatch of the select loop *)

Lemma IsSet_in_range (a : arch) (fds : FdSet) (x : Z) :
  0 <= x < FD_SETSIZE ->
  IsSet a fds x = Some (is_ready a fds x).
Proof.
  intros Hx. unfold is_ready, IsSet.
  destruct (index_in_range a x Hx) as [-> _].
  destruct (negb _); reflexivity.
Qed.

Lemma wake_file_eq (x : Z) (write : bool) (t : World) :
  L (cond (fdc write (file t))) = false ->
  SelectLoop.wake_file x write t =
    Ret tt (if bool_decide (is_Some (fdm t !! x)) && (x =? fd (file t))
            then upd_fdc write woken t else t).
Proof.
  intros HL. unfold SelectLoop.wake_file, bind at 1, get.
  destruct (fdm t !! x) as [[] |] eqn:E.
  - rewrite bool_decide_eq_true_2 by eauto. cbn [andb].
    destruct (x =? fd (file t)); [apply wake_eq; exact HL | reflexivity].
  - rewrite bool_decide_eq_false_2 by (intros [y Hy]; discriminate).
    reflexivity.
Qed.

Lemma serve_eq (write : bool) (x : Z) (t : World) :
  L (cond (fdc write (file t))) = false ->
  ((if write
    then modify (fun s => set_fdTrW (delete x (fdTrW s)) s)
    else modify (fun s => set_fdTrR (delete x (fdTrR s)) s)) ;;;
   SelectLoop.wake_file x write) t = Ret tt (served write x t).
Proof.
  intros HL. unfold served. destruct write; unfold bind, modify.
  - rewrite wake_file_eq by exact HL. reflexivity.
  - rewrite wake_file_eq by exact HL. reflexivity.
Qed.

(** What serving a descriptor changes. *)
Lemma served_spec (write : bool) (x : Z) (t : World) :
  loop_frame t (served write x t) /\
  (forall wr k,
     tracked wr (served write x t) !! k =
       if Bool.eqb wr write && (k =? x) then None else tracked wr t !! k) /\
  (forall wr,
     notify (cond (fdc wr (file (served write x t)))) =
       if Bool.eqb wr write && bool_decide (is_Some (fdm t !! x)) &&
          (x =? fd (file t))
       then S (notify (cond (fdc wr (file t))))
       else notify (cond (fdc wr (file t)))).
Proof.
  unfold served, loop_frame.
  destruct (bool_decide (is_Some (fdm t !! x)) && (x =? fd (file t)))
    eqn:Hw.
  - split; [| split].
    + destruct write; repeat split; try reflexivity;
        destruct wr; reflexivity.
    + intros wr k.
      destruct write, wr; simpl; try reflexivity;
        (destruct (Z.eqb_spec k x) as [-> | Hne];
         [apply lookup_delete_eq | apply lookup_delete_ne; congruence]).
    + intros wr. rewrite <- andb_assoc, Hw.
      destruct write, wr; reflexivity.
  - split; [| split].
    + destruct write; repeat split; try reflexivity.
    + intros wr k.
      destruct write, wr; simpl; try reflexivity;
        (destruct (Z.eqb_spec k x) as [-> | Hne];
         [apply lookup_delete_eq | apply lookup_delete_ne; congruence]).
    + intros wr. rewrite <- andb_assoc, Hw, andb_false_r.
      destruct write; reflexivity.
Qed.

Lemma dispatch_fd_eq (a : arch) (fdR fdW : FdSet) (x n : Z) (t : World) :
  0 <= x < FD_SETSIZE ->
  L (cond (r (file t))) = false -> L (cond (w (file t))) = false ->
  SelectLoop.dispatch_fd a fdR fdW x n t =
    Ret (n - ready_bits a fdR fdW x)
        ((if is_ready a fdW x then served true x else fun s => s)
           ((if is_ready a fdR x then served false x else fun s => s) t)).
Proof.
  intros Hx HLr HLw. unfold SelectLoop.dispatch_fd, ready_bits.
  rewrite !(IsSet_in_range a _ x Hx).
  assert (HLw' : L (cond (w (file (served false x t)))) = false).
  { destruct (served_spec false x t) as ((_ & _ & _ & _ & _ & F) & _).
    exact (eq_trans (proj1 (F true)) HLw). }
  pose proof (serve_eq false x t HLr) as ER. cbv beta iota in ER.
  pose proof (serve_eq true x t HLw) as EW. cbv beta iota in EW.
  pose proof (serve_eq true x (served false x t) HLw') as EW'.
  cbv beta iota in EW'.
  unfold bind, modify in ER, EW, EW' |- *. unfold ret.
  destruct (is_ready a fdR x), (is_ready a fdW x); simpl Z.b2z.
  - rewrite ER, EW'. f_equal; lia.
  - rewrite ER. f_equal; lia.
  - rewrite EW. f_equal; lia.
  - f_equal; lia.
Qed.

Lemma loop_frame_refl (s : World) : loop_frame s s.
Proof. repeat split; reflexivity. Qed.

Lemma loop_frame_trans (s1 s2 s3 : World) :
  loop_frame s1 s2 -> loop_frame s2 s3 -> loop_frame s1 s3.
Proof.
  intros (A1 & A2 & A3 & A4 & A5 & A6) (B1 & B2 & B3 & B4 & B5 & B6).
  repeat split; try congruence;
    destruct (A6 wr) as (? & ? & ? & ? & ?);
    destruct (B6 wr) as (? & ? & ? & ? & ?); congruence.
Qed.

Lemma ready_bits_nonneg (a : arch) (fdR fdW : FdSet) (x : Z) :
  0 <= ready_bits a fdR fdW x <= 2.
Proof.
  unfold ready_bits. destruct (is_ready a fdR x), (is_ready a fdW x);
    simpl; lia.
Qed.

Lemma ready_below_mono (a : arch) (fdR fdW : FdSet) (i j : nat) :
  (i <= j)%nat -> ready_below a fdR fdW i <= ready_below a fdR fdW j.
Proof.
  induction 1 as [| j _ IH]; [lia |]. simpl.
  pose proof (ready_bits_nonneg a fdR fdW (Z.of_nat j)). lia.
Qed.

Lemma ready_below_succ (a : arch) (fdR fdW : FdSet) (x : Z) :
  0 <= x ->
  ready_below a fdR fdW (Z.to_nat (x + 1)) =
    ready_below a fdR fdW (Z.to_nat x) + ready_bits a fdR fdW x.
Proof.
  intros Hx. replace (Z.to_nat (x + 1)) with (S (Z.to_nat x)) by lia.
  simpl. rewrite Z2Nat.id by exact Hx. reflexivity.
Qed.

(** One turn of the loop. *)
Lemma turn_spec (a : arch) (fdR fdW : FdSet) (x : Z) (s : World) :
  let t := (if is_ready a fdW x then served true x else fun s => s)
             ((if is_ready a fdR x then served false x else fun s => s) s) in
  loop_frame s t /\
  (forall wr k,
     tracked wr t !! k =
       if (k =? x) && is_ready a (if wr then fdW else fdR) x
       then None else tracked wr s !! k) /\
  (forall wr,
     notify (cond (fdc wr (file t))) =
       if is_ready a (if wr then fdW else fdR) x &&
          bool_decide (is_Some (fdm s !! x)) && (x =? fd (file s))
       then S (notify (cond (fdc wr (file s))))
       else notify (cond (fdc wr (file s)))).
Proof.
  cbv zeta.
  destruct (served_spec false x s) as (RF & RT & RN).
  destruct (is_ready a fdR x) eqn:ER; destruct (is_ready a fdW x) eqn:EW.
  - destruct (served_spec true x (served false x s)) as (WF & WT & WN).
    pose proof RF as (Rfdm & Rtr & Rtm & Rfd & Rc & RL).
    split; [apply loop_frame_trans with (served false x s);
            [exact RF | exact WF] |].
    split.
    + intros wr k. rewrite WT, RT.
      destruct wr; simpl; rewrite ?ER, ?EW; destruct (k =? x); reflexivity.
    + intros wr. rewrite WN, RN, Rfdm, Rfd.
      destruct wr; simpl; rewrite ?ER, ?EW;
        destruct (bool_decide (is_Some (fdm s !! x)));
        destruct (x =? fd (file s)); reflexivity.
  - split; [exact RF |]. split.
    + intros wr k. rewrite RT.
      destruct wr; simpl; rewrite ?ER, ?EW; destruct (k =? x); reflexivity.
    + intros wr. rewrite RN. destruct wr; simpl; rewrite ?ER, ?EW; reflexivity.
  - destruct (served_spec true x s) as (WF & WT & WN).
    split; [exact WF |]. split.
    + intros wr k. rewrite WT.
      destruct wr; simpl; rewrite ?ER, ?EW; destruct (k =? x); reflexivity.
    + intros wr. rewrite WN. destruct wr; simpl; rewrite ?ER, ?EW; reflexivity.
  - split; [apply loop_frame_refl |]. split.
    + intros wr k. destruct wr; simpl; rewrite ?ER, ?EW, andb_false_r;
        reflexivity.
    + intros wr. destruct wr; simpl; rewrite ?ER, ?EW; reflexivity.
Qed.

Lemma dispatch_spec (a : arch) (fdR fdW : FdSet) (topFd : Z) (fuel : nat) :
  forall (x n : Z) (s : World),
    0 <= x -> topFd < FD_SETSIZE ->
    (Z.to_nat (topFd + 1 - x) < fuel)%nat ->
    L (cond (r (file s))) = false -> L (cond (w (file s))) = false ->
    exists s',
      SelectLoop.dispatch fuel a fdR fdW topFd x n s = Ret tt s' /\
      dispatched a fdR fdW topFd x n s s'.
Proof.
  induction fuel as [| fuel IH]; intros x n s Hx Htop Hfuel HLr HLw; [lia |].
  cbn [SelectLoop.dispatch].
  destruct ((x <=? topFd) && (0 <? n)) eqn:Hgo.
  - assert (Hxr : 0 <= x < FD_SETSIZE) by lia.
    unfold bind. rewrite (dispatch_fd_eq a fdR fdW x n s Hxr HLr HLw).
    destruct (turn_spec a fdR fdW x s) as (TF & TT & TN). cbv zeta in *.
    set (t := (if is_ready a fdW x then served true x else fun s => s)
                ((if is_ready a fdR x then served false x else fun s => s) s))
      in *.
    pose proof TF as (Tfdm & Ttr & Ttm & Tfd & Tc & TL).
    destruct (IH (x + 1) (n - ready_bits a fdR fdW x) t)
      as (s' & E & (DF & DT & DN)); try lia.
    { exact (eq_trans (proj1 (TL false)) HLr). }
    { exact (eq_trans (proj1 (TL true)) HLw). }
    exists s'. split; [exact E |].
    pose proof (ready_below_succ a fdR fdW x Hx) as Hsucc.
    assert (Hreach : forall k,
               k <> x ->
               reached a fdR fdW topFd (x + 1)
                       (n - ready_bits a fdR fdW x) k =
               reached a fdR fdW topFd x n k).
    { intros k Hk. unfold reached. rewrite Hsucc. lia. }
    assert (Hself : reached a fdR fdW topFd (x + 1)
                            (n - ready_bits a fdR fdW x) x = false /\
                    reached a fdR fdW topFd x n x = true).
    { unfold reached. split; lia. }
    split; [apply loop_frame_trans with t; [exact TF | exact DF] |].
    split.
    + intros wr k. rewrite DT, TT.
      destruct (Z.eqb_spec k x) as [-> | Hne].
      * destruct Hself as [-> ->]. cbn [andb].
        destruct (is_ready a (if wr then fdW else fdR) x); reflexivity.
      * rewrite (Hreach k Hne). cbn [andb]. reflexivity.
    + intros wr. rewrite DN, TN, Tfd, Tfdm.
      destruct (Z.eqb_spec x (fd (file s))) as [<- | Hne].
      * destruct Hself as [-> ->]. cbn [andb]. rewrite andb_true_r.
        reflexivity.
      * rewrite (Hreach (fd (file s))) by congruence.
        rewrite andb_false_r. reflexivity.
  - exists s. split; [reflexivity |].
    split; [apply loop_frame_refl |].
    assert (Hno : forall k, reached a fdR fdW topFd x n k = false).
    { intros k. unfold reached.
      destruct (Z.leb_spec x k) as [Hle | Hgt]; [| reflexivity].
      pose proof (ready_below_mono a fdR fdW (Z.to_nat x) (Z.to_nat k)).
      lia. }
    split.
    + intros wr k. rewrite Hno. reflexivity.
    + intros wr. rewrite Hno. reflexivity.
Qed.

Lemma after_Select_eq (a : arch) (wupFd topFd : Z) (fdR fdW : FdSet)
    (n : Z) (s : World) :
  0 <= wupFd < FD_SETSIZE ->
  SelectLoop.after_Select a wupFd topFd fdR fdW n s =
    SelectLoop.dispatch (S (Z.to_nat (topFd + 1))) a fdR fdW topFd 0
      (if is_ready a fdR wupFd then n - 1 else n) s.
Proof.
  intros Hw. unfold SelectLoop.after_Select, bind.
  rewrite (IsSet_in_range a fdR wupFd Hw).
  destruct (is_ready a fdR wupFd); reflexivity.
Qed.

(** The rest of a turn of the select loop after [Select] returned [n]
    and the sets of ready descriptors.  With the wakeup pipe in range,
    [topFd] below 1024 and the File's locks free, the turn ends, and what
    it has done is settled by how far the count lets the loop go: the
    loop gets to descriptor [k] exactly if [k <= topFd] and fewer than
    [n] reports (less one if the wakeup pipe is among them) are for
    descriptors below [k]; a descriptor the loop got to leaves the
    interest set of each direction it is reported in, and the File, if
    registered, gets one broadcast for each such direction; nothing else
    changes, so a descriptor that was not reported, or that the loop did
    not get to, stays tracked.

    With [n] the number of reports, as [Select] gives it: when the wakeup
    pipe is not ready every report is served; when it is ready its
    report is counted twice (once before the loop and once in it), and
    the last report, if it is the only one for its descriptor, is not
    served in this turn: the descriptor stays tracked and is reported
    again at the next turn. *)
Theorem select_dispatch (a : arch) (wupFd topFd : Z) (fdR fdW : FdSet)
    (n : Z) (s : World) :
  0 <= wupFd < FD_SETSIZE ->
  topFd < FD_SETSIZE ->
  L (cond (r (file s))) = false -> L (cond (w (file s))) = false ->
  let n1 := if is_ready a fdR wupFd then n - 1 else n in
  let total := ready_below a fdR fdW (Z.to_nat (topFd + 1)) in
  exists s',
    SelectLoop.after_Select a wupFd topFd fdR fdW n s = Ret tt s' /\
    dispatched a fdR fdW topFd 0 n1 s s' /\
    (is_ready a fdR wupFd = false -> total <= n ->
     forall (wr : bool) (k : Z),
       0 <= k <= topFd ->
       is_ready a (if wr then fdW else fdR) k = true ->
       tracked wr s' !! k = None) /\
    (is_ready a fdR wupFd = true -> n = total ->
     forall k, 0 <= k <= topFd ->
               ready_bits a fdR fdW k = 1 ->
               ready_below a fdR fdW (Z.to_nat (k + 1)) = total ->
               forall wr,
                 tracked wr s' !! k = tracked wr s !! k /\
                 (k = fd (file s) ->
                  notify (cond (fdc wr (file s'))) =
                    notify (cond (fdc wr (file s))))).
Proof.
  intros Hw Htop HLr HLw n1 total.
  rewrite (after_Select_eq a wupFd topFd fdR fdW n s Hw). fold n1.
  destruct (dispatch_spec a fdR fdW topFd (S (Z.to_nat (topFd + 1))) 0 n1 s)
    as (s' & E & D); try assumption; try lia.
  exists s'. split; [exact E |]. split; [exact D |].
  destruct D as (_ & DT & DN).
  assert (H0 : ready_below a fdR fdW (Z.to_nat 0) = 0) by reflexivity.
  split.
  - intros Hnw Hn wr k Hk Hr. rewrite DT, Hr.
    assert (Hreach : reached a fdR fdW topFd 0 n1 k = true).
    { unfold reached. rewrite H0. unfold n1. rewrite Hnw.
      pose proof (ready_below_succ a fdR fdW k (proj1 Hk)) as Hs.
      pose proof (ready_below_mono a fdR fdW (Z.to_nat (k + 1))
                    (Z.to_nat (topFd + 1))) as Hm.
      assert (Hb : 1 <= ready_bits a fdR fdW k).
      { unfold ready_bits. destruct wr; rewrite Hr;
          [destruct (is_ready a fdR k) | destruct (is_ready a fdW k)];
          simpl; lia. }
      fold total in Hm. lia. }
    rewrite Hreach. reflexivity.
  - intros Hwr Hn k Hk Hb Hlast wr.
    assert (Hreach : reached a fdR fdW topFd 0 n1 k = false).
    { unfold reached. rewrite H0. unfold n1. rewrite Hwr.
      pose proof (ready_below_succ a fdR fdW k (proj1 Hk)) as Hs. lia. }
    split.
    + rewrite DT, Hreach. reflexivity.
    + intros ->. rewrite DN, Hreach. reflexivity.
Qed.

Lemma select_dispatch_witness :
  let s := final (startTrack SelectBuild 5 false
                    (fresh SelectBuild 5 [] [])) in
  let fdR := mkFdSet (40 :: replicate 15 0) in
  exists s',
    SelectLoop.after_Select Arch64 3 5 fdR (FdSet_zero Arch64) 2 s =
      Ret tt s' /\
    is_ready Arch64 fdR 5 = true /\
    fdTrR s' !! 5 = Some tt /\
    notify (cond (r (file s'))) = 0%nat.
Proof.
  intros s fdR.
  destruct (select_dispatch Arch64 3 5 fdR (FdSet_zero Arch64) 2 s)
    as (s' & E & _ & _ & Hq);
    [unfold FD_SETSIZE; lia | unfold FD_SETSIZE; lia | reflexivity
    | reflexivity |].
  exists s'. split; [exact E |]. split; [reflexivity |].
  assert (H5 : 0 <= 5 <= 5) by lia.
  destruct (Hq eq_refl eq_refl 5 H5 eq_refl eq_refl false) as [Ht Hn].
  split; [exact Ht | apply Hn; reflexivity].
Defined.
